(** * dcmdump: the DICOM data-element decoder and its value formatter

    A shallow embedding of [src/dcmdump/dcmdump.go] (functions [tagString],
    [String], [StringData], [stringData], [parseDataElement] and
    [ProcessFile]) together with the properties of the decoder and of the
    formatter that the repository's specification states.

    Modelling conventions.
    - Go's [int] is taken to be 64 bits wide and is modelled by [Z].  The
      loop condition tests [n <= l] before it computes [m+4], and every
      offset computed after it is at most the buffer capacity plus
      [2^32 + 20], so no [int] arithmetic wraps; the two conversions to
      [uint32] are written out with [mod 2^32].
    - A Go slice [[]byte] has a length and a capacity.  An index expression
      [b[i]] panics unless [0 <= i < len(b)]; a slice expression [b[lo:hi]]
      panics unless [0 <= lo <= hi <= cap(b)].  The buffer is therefore a
      pair of the visible bytes and the spare bytes of the backing array.
    - The three dictionaries [tag.Tag], [vri.VR] and [ts.TS] live in packages
      that are not part of the sources; they are parameters of the
      development, typed after the way the code uses them. *)

From Stdlib Require Import ZArith List String Ascii Bool Lia.
From Stdlib Require Import Strings.Byte.
From Stdlib Require Import DecimalString.
From stdpp Require Import base option gmap strings.
Import ListNotations.

Local Open Scope string_scope.
Local Open Scope list_scope.
Local Open Scope Z_scope.

(** ** Outcomes of running a piece of Go code *)

(** The two kinds of run-time panic the modelled code can raise. *)
Inductive panic : Type :=
| OutOfRange      (* index or slice bounds out of range *)
| BadAssertion.   (* failed type assertion [x.(T)] *)

(** [Val a]: execution goes on with [a].  [Return]: the statement
    [return elements] was reached inside the loop body.  [Panic k]: the Go
    run time panicked.  [OutOfFuel]: the model ran out of fuel (shown below
    never to happen for the fuel the entry points supply). *)
Inductive outcome (A : Type) : Type :=
| Val (a : A)
| Return
| Panic (k : panic)
| OutOfFuel.

Arguments Val {A} a.
Arguments Return {A}.
Arguments Panic {A} k.
Arguments OutOfFuel {A}.

Definition bind {A B : Type} (x : outcome A) (f : A -> outcome B) : outcome B :=
  match x with
  | Val a => f a
  | Return => Return
  | Panic k => Panic k
  | OutOfFuel => OutOfFuel
  end.

Notation "x <- e1 ;; e2" := (bind e1 (fun x => e2))
  (at level 100, e1 at next level, right associativity).
Notation "e1 ;;; e2" := (bind e1 (fun _ => e2))
  (at level 100, right associativity).

(** ** Bytes, slices and strings *)

Definition b2z (b : byte) : Z := Z.of_N (Byte.to_N b).

(** A [[]byte] value: [visible] are the [len] bytes, [spare] is the rest of
    the backing array up to the capacity. *)
Record buffer : Type := Buffer { visible : list byte; spare : list byte }.

Definition len (b : buffer) : Z := Z.of_nat (length (visible b)).
Definition cap (b : buffer) : Z := len b + Z.of_nat (length (spare b)).
Definition backing (b : buffer) : list byte := visible b ++ spare b.

(** [sub lo hi l]: the elements of [l] at positions [lo .. hi-1]. *)
Definition sub (lo hi : Z) (l : list byte) : list byte :=
  firstn (Z.to_nat (hi - lo)) (skipn (Z.to_nat lo) l).

(** The slice expression [b[lo:hi]]. *)
Definition slice (b : buffer) (lo hi : Z) : outcome (list byte) :=
  if (0 <=? lo) && (lo <=? hi) && (hi <=? cap b)
  then Val (sub lo hi (backing b))
  else Panic OutOfRange.

(** The index expression [b[i]]. *)
Definition index (b : buffer) (i : Z) : outcome byte :=
  if (0 <=? i) && (i <? len b)
  then match nth_error (visible b) (Z.to_nat i) with
       | Some x => Val x
       | None => Panic OutOfRange
       end
  else Panic OutOfRange.

(** The same two expressions on a value slice whose elements are all
    visible ([DataElement.Data] inside [stringData]). *)
Definition dslice (d : list byte) (lo hi : Z) : outcome (list byte) :=
  if (0 <=? lo) && (lo <=? hi) && (hi <=? Z.of_nat (length d))
  then Val (sub lo hi d)
  else Panic OutOfRange.

Definition dindex (d : list byte) (i : Z) : outcome byte :=
  if (0 <=? i) && (i <? Z.of_nat (length d))
  then match nth_error d (Z.to_nat i) with
       | Some x => Val x
       | None => Panic OutOfRange
       end
  else Panic OutOfRange.

(** [string(b)] for a byte slice. *)
Definition gostring (b : list byte) : string := string_of_list_byte b.

(** One lower-case hexadecimal digit, as [%x] prints it. *)
Definition hexdigit (d : Z) : ascii :=
  if d <? 10 then ascii_of_N (Z.to_N (48 + d)) else ascii_of_N (Z.to_N (87 + d)).

(** [fmt.Sprintf("%02x", b)] for one byte. *)
Definition Sprintf02x (b : byte) : string :=
  String (hexdigit (b2z b / 16)) (String (hexdigit (b2z b mod 16)) EmptyString).

(** [strings.ToUpper] on the ASCII range. *)
Definition upper_ascii (c : ascii) : ascii :=
  let n := N_of_ascii c in
  if ((97 <=? n) && (n <=? 122))%N then ascii_of_N (n - 32) else c.

Fixpoint ToUpper (s : string) : string :=
  match s with
  | EmptyString => EmptyString
  | String c r => String (upper_ascii c) (ToUpper r)
  end.

(** [tagString]: key = hex(b[1]) hex(b[0]) hex(b[3]) hex(b[2]), upper-cased.
    The indices are those of the 4-byte argument; a shorter argument makes
    the index expressions panic. *)
Definition tagString (b : list byte) : outcome string :=
  b1 <- dindex b 1 ;;
  b0 <- dindex b 0 ;;
  b3 <- dindex b 3 ;;
  b2 <- dindex b 2 ;;
  Val (ToUpper (Sprintf02x b1 +:+ Sprintf02x b0 +:+ Sprintf02x b3 +:+ Sprintf02x b2)).

(** [binary.LittleEndian.Uint16] and [Uint32]: both first touch their last
    byte ([_ = b[1]], [_ = b[3]]), then combine with shifts and ors. *)
Definition Uint16 (b : list byte) : outcome Z :=
  dindex b 1 ;;;
  b0 <- dindex b 0 ;;
  b1 <- dindex b 1 ;;
  Val (Z.lor (b2z b0) (Z.shiftl (b2z b1) 8)).

Definition Uint32 (b : list byte) : outcome Z :=
  dindex b 3 ;;;
  b0 <- dindex b 0 ;;
  b1 <- dindex b 1 ;;
  b2 <- dindex b 2 ;;
  b3 <- dindex b 3 ;;
  Val (Z.lor (Z.lor (Z.lor (b2z b0) (Z.shiftl (b2z b1) 8))
                    (Z.shiftl (b2z b2) 16))
             (Z.shiftl (b2z b3) 24)).

(** The decimal digits of an unsigned value, and [fmt.Sprintf("%d ", x)]. *)
Definition decimal (x : Z) : string :=
  NilZero.string_of_uint (N.to_uint (Z.to_N x)).
Definition Sprintf_d_sp (x : Z) : string := decimal x +:+ " ".

(** ** Data model *)

(** A value stored under [interface{}] in the VR and transfer-syntax
    tables. *)
Inductive iface : Type :=
| IBool (b : bool)
| IInt (z : Z)
| IString (s : string).

(** The type assertions [x.(bool)], [x.(int)], [x.(string)] applied to the
    result of a map lookup ([None]: the key is absent, the value is the nil
    interface). *)
Definition assertBool (x : option iface) : outcome bool :=
  match x with Some (IBool b) => Val b | _ => Panic BadAssertion end.
Definition assertInt (x : option iface) : outcome Z :=
  match x with Some (IInt z) => Val z | _ => Panic BadAssertion end.
Definition assertString (x : option iface) : outcome string :=
  match x with Some (IString s) => Val s | _ => Panic BadAssertion end.

(** [m[k1][k2]] with the comma-ok result: a missing outer key yields the nil
    map, whose lookups all miss. *)
Definition lookup2 {V : Type} (m : gmap string (gmap string V)) (k1 k2 : string)
  : option V :=
  match m !! k1 with
  | Some e => e !! k2
  | None => None
  end.

Record DataElement : Type := mkDataElement {
  N : Z;
  TagGroup : list byte;
  TagElem : list byte;
  TagStr : string;
  Name : string;
  VR : list byte;
  VRStr : string;
  VRLen : Z;
  Len : Z;
  Data : list byte;
  PartOfSQ : bool
}.

(** What lines 255-309 of [parseDataElement] leave behind: the VR fields of
    the element, the local [vr], the local [len], and the cursor [n] (equal
    to [m]) at the first byte of the value. *)
Record header : Type := mkHeader {
  hVR : list byte;
  hVRStr : string;
  hvr : string;
  hlen : Z;
  hn : Z
}.

(** The test [vr == "OB" || ... || vr == "UN"]. *)
Definition longForm (vr : string) : bool :=
  String.eqb vr "OB" || String.eqb vr "OD" || String.eqb vr "OF" ||
  String.eqb vr "OL" || String.eqb vr "OW" || String.eqb vr "SQ" ||
  String.eqb vr "UC" || String.eqb vr "UR" || String.eqb vr "UT" ||
  String.eqb vr "UN".

Definition undefinedLength : Z := 4294967295.   (* 0xFFFFFFFF *)
Definition uint32 (x : Z) : Z := x mod 2 ^ 32.

(** ** Sample dictionaries and buffers *)

(** A small instance of the three dictionaries, with the keys the code
    looks up, for the concrete evaluations below. *)
Definition entry (l : list (string * iface)) : gmap string iface :=
  list_to_map l.

Definition sampleVR : gmap string (gmap string iface) :=
  list_to_map
    [("UI", entry [("name", IString "Unique Identifier");
                   ("fixed", IBool false); ("padded", IBool true)]);
     ("US", entry [("name", IString "Unsigned Short");
                   ("fixed", IBool true); ("len", IInt 2);
                   ("padded", IBool false)]);
     ("UL", entry [("name", IString "Unsigned Long");
                   ("fixed", IBool true); ("len", IInt 4);
                   ("padded", IBool false)]);
     ("OB", entry [("name", IString "Other Byte");
                   ("fixed", IBool false); ("padded", IBool false)]);
     ("OW", entry [("name", IString "Other Word");
                   ("fixed", IBool false); ("padded", IBool false)]);
     ("SQ", entry [("name", IString "Sequence of Items");
                   ("fixed", IBool false); ("padded", IBool false)])].

Definition sampleTag : gmap string (gmap string string) :=
  list_to_map
    [("00020010", list_to_map [("name", "TransferSyntaxUID")]);
     ("00080018", list_to_map [("name", "SOPInstanceUID")]);
     ("7FE00010", list_to_map [("name", "PixelData")])].

Definition sampleTS : gmap string (gmap string iface) :=
  list_to_map
    [("1.2.840.10008.1.2", entry [("name", IString "Implicit VR Little Endian")])].

(** A byte slice whose capacity equals its length, such as a composite
    literal [[]byte{...}] or the result of [make([]byte, n)]. *)
Definition literal (l : list byte) : buffer := Buffer l [].

(** (0008,0018) UI, 16-bit length 8, value "1.2.3.4\0". *)
Definition uidBuffer : buffer :=
  literal [x08; x00; x18; x00; "U"; "I"; x08; x00;
           "1"; "."; "2"; "."; "3"; "."; "4"; x00]%byte.

(** (0008,1115) SQ of length 16 holding one implicit-mode child
    (0008,0018) of length 8. *)
Definition sqBuffer : buffer :=
  literal [x08; x00; x15; x11; "S"; "Q"; x00; x00; x10; x00; x00; x00;
           x08; x00; x18; x00; x08; x00; x00; x00;
           "1"; "."; "2"; "."; "3"; "."; "4"; x00]%byte.

(** (7FE0,0010) OW of declared length 4. *)
Definition pixelBuffer : buffer :=
  literal [xe0; x7f; x10; x00; "O"; "W"; x00; x00; x04; x00; x00; x00;
           x01; x02; x03; x04]%byte.

(** Implicit mode: (0008,0018) of undefined length, four value bytes, the
    sequence delimiter (FFFE,E0DD) at offset 12 and its length field. *)
Definition undefBuffer : buffer :=
  literal [x08; x00; x18; x00; xff; xff; xff; xff;
           "A"; "B"; "C"; "D"; xfe; xff; xdd; xe0; x00; x00; x00; x00]%byte.

(** The first [k] bytes of a literal. *)
Definition truncated (k : nat) (b : buffer) : buffer :=
  literal (firstn k (visible b)).

(** The element decoded from [uidBuffer]. *)
Definition uidElement : DataElement :=
  mkDataElement 0 [x08; x00] [x18; x00] "00080018" "SOPInstanceUID"
                ["U"; "I"]%byte "UI" 0 8
                ["1"; "."; "2"; "."; "3"; "."; "4"; x00]%byte false.

(** The container decoded from [sqBuffer] and the child its span holds. *)
Definition sqElement : DataElement :=
  mkDataElement 0 [x08; x00] [x15; x11] "00081115" ""
                ["S"; "Q"]%byte "SQ" 0 16 [] false.

Definition sqChild : DataElement :=
  mkDataElement 12 [x08; x00] [x18; x00] "00080018" "SOPInstanceUID"
                [] "" 0 8
                ["1"; "."; "2"; "."; "3"; "."; "4"; x00]%byte false.

(** The header of the SQ element of [sqBuffer]. *)
Definition sqHeader : header := mkHeader ["S"; "Q"]%byte "SQ" "SQ" 16 12.

Definition sqTag : DataElement :=
  mkDataElement 0 [x08; x00] [x15; x11] "00081115" "" [] "" 0 0 [] false.

(** The element decoded from [pixelBuffer]. *)
Definition pixelElement : DataElement :=
  mkDataElement 0 [xe0; x7f] [x10; x00] "7FE00010" "PixelData"
                ["O"; "W"]%byte "OW" 0 4 [x01; x02; x03; x04] false.

Definition pixelTag : DataElement :=
  mkDataElement 0 [xe0; x7f] [x10; x00] "7FE00010" "PixelData" [] "" 0 0 []
                false.

Definition pixelHeader : header := mkHeader ["O"; "W"]%byte "OW" "OW" 4 12.

(** Implicit mode: an item (FFFE,E000) of length 16 holding one
    explicit-mode child (0008,0018) UI of length 8. *)
Definition itemBuffer : buffer :=
  literal [xfe; xff; x00; xe0; x10; x00; x00; x00;
           x08; x00; x18; x00; "U"; "I"; x08; x00;
           "1"; "."; "2"; "."; "3"; "."; "4"; x00]%byte.

Definition itemTag : DataElement :=
  mkDataElement 0 [xfe; xff] [x00; xe0] "FFFEE000" "" [] "" 0 0 [] false.

Definition itemHeader : header := mkHeader [] "" "" 16 8.

Definition itemElement : DataElement :=
  mkDataElement 0 [xfe; xff] [x00; xe0] "FFFEE000" "" [] "" 0 16 [] false.

(** Explicit mode: (0008,0018) with the VR bytes 00 00 and 16-bit length 2;
    and the same element with the VR bytes "ZZ". *)
Definition blankVRBuffer : buffer :=
  literal [x08; x00; x18; x00; x00; x00; x02; x00; "A"; "B"]%byte.

Definition unknownVRBuffer : buffer :=
  literal [x08; x00; x18; x00; "Z"; "Z"; x02; x00; "A"; "B"]%byte.

(** The element decoded from [undefBuffer]. *)
Definition undefElement : DataElement :=
  mkDataElement 0 [x08; x00] [x18; x00] "00080018" "SOPInstanceUID"
                [] "" 0 4 ["A"; "B"; "C"; "D"]%byte false.

Definition undefTag : DataElement :=
  mkDataElement 0 [x08; x00] [x18; x00] "00080018" "SOPInstanceUID"
                [] "" 0 0 [] false.

Definition undefHeader : header := mkHeader [] "" "" 4294967295 8.

(** Formatter fixtures: a US element with a trailing odd byte, and a
    Transfer-Syntax-UID element. *)
Definition usElement : DataElement :=
  mkDataElement 0 [x28; x00] [x10; x00] "00280010" "" ["U"; "S"]%byte "US" 0 5
                [x01; x00; x02; x01; x07] false.

Definition tsElement : DataElement :=
  mkDataElement 0 [x02; x00] [x10; x00] "00020010" "TransferSyntaxUID"
                ["U"; "I"]%byte "UI" 0 18
                ["1"; "."; "2"; "."; "8"; "4"; "0"; "."; "1"; "0"; "0"; "0";
                 "8"; "."; "1"; "."; "2"; x00]%byte false.

(** ** Notions used to state the properties *)

(** The value of a byte string read as a little-endian unsigned integer. *)
Fixpoint le_value (l : list byte) : Z :=
  match l with
  | [] => 0
  | b :: r => b2z b + 256 * le_value r
  end.

(** The piece of code stops: it does not exhaust the fuel of the model. *)
Definition halts {A : Type} (x : outcome A) : Prop := x <> OutOfFuel.

(** The value span of a decoded element: it starts after the 8 header bytes
    (tag and length; tag, VR and 16-bit length) or the 12 header bytes of the
    long form, and is [Len] bytes long. *)
Definition headerSize (de : DataElement) : Z :=
  if longForm (VRStr de) then 12 else 8.
Definition valueStart (de : DataElement) : Z := N de + headerSize de.
Definition valueEnd (de : DataElement) : Z := valueStart de + Len de.

(** The two kinds of container element. *)
Definition isContainer (de : DataElement) : Prop :=
  TagStr de = "FFFEE000" \/ VRStr de = "SQ".

(** The elements of one nesting level lie one behind the other: each starts
    at or after [lo], and the next one at or after the end of its value. *)
Fixpoint laidOut (lo : Z) (els : list DataElement) : Prop :=
  match els with
  | [] => True
  | de :: r => lo <= N de /\ laidOut (valueEnd de) r
  end.

(** The VR codes of the long form (2 reserved bytes, 32-bit length). *)
Definition longVRs : list string :=
  ["OB"; "OD"; "OF"; "OL"; "OW"; "SQ"; "UC"; "UR"; "UT"; "UN"].

(** The wire bytes of the two delimiter tags: FFFEE00D (item delimiter) and
    FFFEE0DD (sequence delimiter). *)
Definition itemDelimiter : list byte := [xfe; xff; x0d; xe0].
Definition sequenceDelimiter : list byte := [xfe; xff; xdd; xe0].

(** A delimiter that closes the element with key [tagStr] starts at offset
    [q]: the item delimiter counts only for an item, the sequence delimiter
    always. *)
Definition delimiterAt (bytes : buffer) (tagStr : string) (q : Z) : Prop :=
  (tagStr = "FFFEE000" /\ sub q (q + 4) (backing bytes) = itemDelimiter) \/
  sub q (q + 4) (backing bytes) = sequenceDelimiter.

(** The value of one upper-case hexadecimal digit. *)
Definition hexval (c : ascii) : Z :=
  let n := Z.of_N (N_of_ascii c) in
  if n <? 58 then n - 48 else n - 55.

(** The complete [w]-byte groups of a value, in order; a trailing partial
    group is left out.  [fuel] bounds the number of groups. *)
Fixpoint groups (fuel : nat) (w : nat) (d : list byte) : list (list byte) :=
  match fuel with
  | O => []
  | S fuel' =>
      if (w <=? length d)%nat
      then firstn w d :: groups fuel' w (skipn w d)
      else []
  end.

(** The decimal tokens of the little-endian unsigned integers of width [w]
    packed in [d]. *)
Definition tokens (w : nat) (d : list byte) : list string :=
  map (fun g => decimal (le_value g)) (groups (length d) w d).

(** The tokens joined by single spaces, and the tokens each followed by a
    space. *)
Definition spaceJoined (ts : list string) : string := String.concat " " ts.

Fixpoint spaced (ts : list string) : string :=
  match ts with
  | [] => ""
  | t :: r => t +:+ " " +:+ spaced r
  end.

(** [b] holds the bytes of [b'] at the same offsets and possibly more: its
    visible bytes and its backing array extend those of [b']. *)
Definition extends (b' b : buffer) : Prop :=
  (exists r, visible b = visible b' ++ r) /\
  (exists r, backing b = backing b' ++ r).

Section Decoder.

(** The dictionaries of the packages [tag], [vr] (imported as [vri]) and
    [ts]. *)
Variable tag_Tag : gmap string (gmap string string).
Variable vri_VR : gmap string (gmap string iface).
Variable ts_TS : gmap string (gmap string iface).

(** *** [parseDataElement], lines 255-309: VR and length *)

(** On entry [n = m] is the offset just after the tag. *)
Definition readLength (bytes : buffer) (n : Z) (explicit : bool) (limit : Z)
  : outcome header :=
  if explicit then
    let m := n + 2 in
    slice bytes n m ;;;                         (* printBytes(bytes[n:m]) *)
    VRb <- slice bytes n m ;;                   (* de.VR *)
    let vr := gostring VRb in
    vr' <- match vri_VR !! vr with
           | Some _ => Val vr
           | None =>
               b0 <- index bytes n ;;
               if b2z b0 =? 0 then
                 b1 <- index bytes (n + 1) ;;
                 if b2z b1 =? 0 then Val "00"
                 else (slice bytes n limit ;;; Return)
               else (slice bytes n limit ;;; Return)
           end ;;
    let n := m in
    if longForm vr' then
      let m := m + 2 in
      slice bytes n m ;;;                       (* reserved *)
      let n := m in
      let m := m + 4 in
      slice bytes n m ;;;
      lb <- slice bytes n m ;;
      len <- Uint32 lb ;;
      Val (mkHeader VRb vr' vr' len m)
    else
      let m := m + 2 in
      slice bytes n m ;;;
      lb <- slice bytes n m ;;
      len16 <- Uint16 lb ;;
      Val (mkHeader VRb vr' vr' (uint32 len16) m)
  else
    let m := n + 4 in
    slice bytes n m ;;;
    lb <- slice bytes n m ;;
    len <- Uint32 lb ;;
    Val (mkHeader [] "" "" len m).

(** *** Lines 312-336: the scan for a delimiter *)

(** One pass of the [for] loop per unit of fuel; [n] is the value start,
    [m] the scan position.  [Val m] is the position at the [break]. *)
Fixpoint scanDelimiter (fuel : nat) (bytes : buffer) (tagStr : string)
         (n m : Z) : outcome Z :=
  match fuel with
  | O => OutOfFuel
  | S fuel' =>
      endTag <- slice bytes m (m + 4) ;;
      endTagStr <- tagString endTag ;;
      if String.eqb tagStr "FFFEE000" && String.eqb endTagStr "FFFEE00D"
      then Val m
      else if String.eqb endTagStr "FFFEE0DD"
      then Val m
      else
        let m := m + 1 in
        if len bytes <=? m
        then (slice bytes n (len bytes) ;;; Return)
        else scanDelimiter fuel' bytes tagStr n m
  end.

Definition scanFuel (bytes : buffer) (m : Z) : nat :=
  S (Z.to_nat (len bytes - m)).

(** *** One pass of the main loop, lines 235-364 *)

(** Lines 236-254: the tag.  [s] is the value of [n] (and of [m]) at the
    loop head; the result is [de] with [N], [TagGroup], [TagElem],
    [TagStr] and [Name] set and the other fields at their zero values.
    Afterwards [n = m = s + 4]. *)
Definition readTag (bytes : buffer) (s : Z) : outcome DataElement :=
  let n := s in
  let m := s + 4 in
  t <- slice bytes n m ;;
  tagGroup <- slice bytes n (n + 2) ;;
  tagElem <- slice bytes (n + 2) (n + 4) ;;
  deTagStr <- tagString t ;;
  tagStr <- tagString t ;;
  slice bytes n m ;;;                           (* printBytes(bytes[n:m]) *)
  let name :=
    if String.eqb tagStr "" then ""
    else match tag_Tag !! tagStr with
         | None => ""
         | Some _ => default "" (lookup2 tag_Tag tagStr "name")
         end in
  Val (mkDataElement n tagGroup tagElem deTagStr name [] "" 0 0 [] false).

(** Lines 310-337: the locals [len] and [undefinedLen] afterwards; in both
    branches [m = n] holds again at line 338. *)
Definition resolveLength (bytes : buffer) (tagStr : string) (h : header)
  : outcome (Z * bool) :=
  let n := hn h in
  let m := hn h in
  if hlen h =? undefinedLength then
    m' <- scanDelimiter (scanFuel bytes m) bytes tagStr n m ;;
    Val (uint32 (m' - n), true)
  else Val (hlen h, false).

(** Lines 338-364.  [self] stands for the recursive calls of
    [parseDataElement]; the list a call returns is dropped.  The result is
    the element appended to [elements] and the cursor [n] of the next
    pass. *)
Definition materialize
           (self : Z -> bool -> Z -> outcome (list DataElement))
           (bytes : buffer) (de : DataElement) (h : header)
           (len : Z) (undefinedLen : bool)
  : outcome (DataElement * Z) :=
  let vr := hvr h in
  let n := hn h in
  let m := hn h + len in                        (* m += int(len) *)
  slice bytes n m ;;;                           (* printBytes(bytes[n:m]) *)
  data <-
    (if String.eqb (TagStr de) "FFFEE000" then
       slice bytes n m ;;;
       self n true m ;;;
       Val []
     else if String.eqb vr "SQ" then
       slice bytes n m ;;;
       self n false m ;;;
       Val []
     else slice bytes n m) ;;
  let m := if undefinedLen then m + 8 else m in
  Val (mkDataElement (N de) (TagGroup de) (TagElem de) (TagStr de) (Name de)
                     (hVR h) (hVRStr h) (VRLen de) len data (PartOfSQ de),
       m).

Definition iteration
           (self : Z -> bool -> Z -> outcome (list DataElement))
           (bytes : buffer) (s : Z) (explicit : bool) (limit : Z)
  : outcome (DataElement * Z) :=
  de <- readTag bytes s ;;
  h <- readLength bytes (s + 4) explicit limit ;;
  r <- resolveLength bytes (TagStr de) h ;;
  materialize self bytes de h (fst r) (snd r).

(** *** The loop and the function *)

(** The loop condition
    [n <= l && m+4 <= l && n <= limit && m+4 <= limit]. *)
Definition guard (bytes : buffer) (n m limit : Z) : bool :=
  let l := len bytes in
  (n <=? l) && (m + 4 <=? l) && (n <=? limit) && (m + 4 <=? limit).

(** At the loop head [m = n] always holds ([m := n] before the loop,
    [n = m] at the end of each pass), so the loop state is [n] and
    [elements]. *)
Fixpoint parseLoop (fuel : nat) (bytes : buffer) (n : Z) (explicit : bool)
         (limit : Z) (elements : list DataElement)
  : outcome (list DataElement) :=
  match fuel with
  | O => OutOfFuel
  | S fuel' =>
      let m := n in
      if guard bytes n m limit
      then
        match iteration (fun n' e' lim' => parseLoop fuel' bytes n' e' lim' [])
                        bytes n explicit limit with
        | Val (de, n') => parseLoop fuel' bytes n' explicit limit (elements ++ [de])
        | Return => Val elements
        | Panic k => Panic k
        | OutOfFuel => OutOfFuel
        end
      else Val elements
  end.

Definition parseFuel (bytes : buffer) (n : Z) : nat :=
  S (Z.to_nat (len bytes - n)).

Definition parseDataElement (bytes : buffer) (n : Z) (explicit : bool)
           (limit : Z) : outcome (list DataElement) :=
  parseLoop (parseFuel bytes n) bytes n explicit limit [].

(** [ProcessFile]: the value stored in [di.Elements]. *)
Definition ProcessFile (bytes : buffer) (m : Z) (explicit : bool)
  : outcome (list DataElement) :=
  parseDataElement bytes m explicit (len bytes).

(** *** [stringData], lines 176-226 *)

(** [_, ok := vri.VR[vr][key]; ok && vri.VR[vr][key].(bool)] *)
Definition flagSet (vr key : string) : outcome bool :=
  match lookup2 vri_VR vr key with
  | None => Val false
  | Some v => assertBool (Some v)
  end.

(** The element readers of the three [for] loops. *)
Definition read1 (d : list byte) (n : Z) : outcome Z :=
  b <- dindex d n ;; Val (b2z b).
Definition read2 (d : list byte) (n : Z) : outcome Z :=
  x <- dslice d n (n + 2) ;; Uint16 x.
Definition read4 (d : list byte) (n : Z) : outcome Z :=
  x <- dslice d n (n + 4) ;; Uint32 x.

(** [for n+w <= l { e := read; s += fmt.Sprintf("%d ", e); n += w }] *)
Fixpoint renderLoop (fuel : nat) (w : Z) (read : list byte -> Z -> outcome Z)
         (d : list byte) (n : Z) (s : string) : outcome string :=
  match fuel with
  | O => OutOfFuel
  | S fuel' =>
      if n + w <=? Z.of_nat (length d) then
        e <- read d n ;;
        renderLoop fuel' w read d (n + w) (s +:+ Sprintf_d_sp e)
      else Val s
  end.

Definition renderFuel (d : list byte) : nat := S (length d).

(** Lines 177-186: the transfer-syntax element.  [Some s]: the function
    returns [s] here; [None]: execution falls through to line 187. *)
Definition transferSyntax (de : DataElement) : outcome (option string) :=
  if String.eqb (TagStr de) "00020010" then
    let dataStr := gostring (Data de) in
    let l := Z.of_nat (length (Data de)) in
    last <- dindex (Data de) (l - 1) ;;
    dataStr <- (if b2z last =? 0
                then d <- dslice (Data de) 0 (l - 1) ;; Val (gostring d)
                else Val dataStr) ;;
    match ts_TS !! dataStr with
    | Some tsStr =>
        name <- assertString (tsStr !! "name") ;;
        Val (Some (dataStr +:+ " " +:+ name))
    | None => Val None
    end
  else Val None.

Definition stringData (de : DataElement) : outcome string :=
  r <- transferSyntax de ;;
  match r with
  | Some s => Val s
  | None =>
      fixed <- flagSet (VRStr de) "fixed" ;;
      if fixed then
        let d := Data de in
        vrl <- assertInt (lookup2 vri_VR (VRStr de) "len") ;;
        if vrl =? 1 then renderLoop (renderFuel d) 1 read1 d 0 ""
        else if vrl =? 2 then renderLoop (renderFuel d) 2 read2 d 0 ""
        else if vrl =? 4 then renderLoop (renderFuel d) 4 read4 d 0 ""
        else Val (gostring d)
      else
        padded <- flagSet (VRStr de) "padded" ;;
        if padded then
          let l := Z.of_nat (length (Data de)) in
          last <- dindex (Data de) (l - 1) ;;
          if b2z last =? 0
          then d <- dslice (Data de) 0 (l - 1) ;; Val (gostring d)
          else Val (gostring (Data de))
        else Val (gostring (Data de))
  end.

(** The exported wrapper. *)
Definition StringData (de : DataElement) : outcome string := stringData de.

(** [fmt.Sprintf("%d", z)] and [fmt.Sprintf("%04d", z)] for an [int]. *)
Definition Sprintf_d (z : Z) : string :=
  if z <? 0 then "-" +:+ decimal (- z) else decimal z.

Fixpoint zeros (k : nat) : string :=
  match k with
  | O => ""
  | S k' => "0" +:+ zeros k'
  end.

Definition Sprintf_04d (z : Z) : string :=
  if z <? 0
  then "-" +:+ zeros (3 - String.length (decimal (- z))) +:+ decimal (- z)
  else zeros (4 - String.length (decimal z)) +:+ decimal z.

(** [String], lines 92-105: the display line of an element. *)
Definition DataElement_String (de : DataElement) : outcome string :=
  let tn :=
    match tag_Tag !! TagStr de with
    | Some _ => default "" (lookup2 tag_Tag (TagStr de) "name")
    | None => "MISSING"
    end in
  let padding := if PartOfSQ de then "    " else "" in
  let line (value : string) :=
    padding +:+ Sprintf_04d (N de) +:+ " (" +:+ TagStr de +:+ ") " +:+
    VRStr de +:+ " " +:+ Sprintf_d (VRLen de) +:+ " " +:+
    Sprintf_d (Len de) +:+ " " +:+ tn +:+ " " +:+ value in
  if Len de <? 128
  then s <- stringData de ;; Val (line s)
  else Val (line "...").

(** *** The VR classes of the formatter *)

(** [vr] is flagged fixed-size with element width [w]. *)
Definition fixedVR (vr : string) (w : Z) : Prop :=
  lookup2 vri_VR vr "fixed" = Some (IBool true) /\
  lookup2 vri_VR vr "len" = Some (IInt w).

Definition notFixedVR (vr : string) : Prop :=
  lookup2 vri_VR vr "fixed" = None \/
  lookup2 vri_VR vr "fixed" = Some (IBool false).

(** [vr] is not fixed-size and is flagged padded. *)
Definition paddedVR (vr : string) : Prop :=
  notFixedVR vr /\ lookup2 vri_VR vr "padded" = Some (IBool true).

(** [vr] is neither fixed-size nor padded (this includes unknown codes). *)
Definition plainVR (vr : string) : Prop :=
  notFixedVR vr /\
  (lookup2 vri_VR vr "padded" = None \/
   lookup2 vri_VR vr "padded" = Some (IBool false)).

(** The values in the VR and transfer-syntax tables have the dynamic types
    that the type assertions of [stringData] expect. *)
Definition VR_typed : Prop :=
  forall vr,
    (forall v, lookup2 vri_VR vr "fixed" = Some v -> exists b, v = IBool b) /\
    (lookup2 vri_VR vr "fixed" = Some (IBool true) ->
     exists z, lookup2 vri_VR vr "len" = Some (IInt z)) /\
    (forall v, lookup2 vri_VR vr "padded" = Some v -> exists b, v = IBool b).

Definition TS_typed : Prop :=
  forall k e, ts_TS !! k = Some e -> exists s, e !! "name" = Some (IString s).

(** ** The remaining functions of the file *)

(** [DicomFile], lines 69-72. *)
Record DicomFile : Type := mkDicomFile {
  Elements : list DataElement;
  Path : string
}.

(** [stringSlice.contains], lines 38-45. *)
Fixpoint contains (s : list string) (a : string) : bool :=
  match s with
  | [] => false
  | b :: r => if String.eqb a b then true else contains r a
  end.

(** One [for _, elem := range file.Elements] loop of [LookupElement]: the
    first element whose [key] equals [name]. *)
Fixpoint firstWith (key : DataElement -> string) (name : string)
         (els : list DataElement) : option DataElement :=
  match els with
  | [] => None
  | elem :: r =>
      if String.eqb (key elem) name then Some elem else firstWith key name r
  end.

(** [LookupElement], lines 75-89.  [inl elem] stands for [(&elem, nil)],
    where [elem] is the loop variable, a copy of the element; [inr msg] for
    [(nil, errors.New(msg))]. *)
Definition LookupElement (file : DicomFile) (name : string)
  : DataElement + string :=
  match firstWith TagStr name (Elements file) with
  | Some elem => inl elem
  | None =>
      match firstWith Name name (Elements file) with
      | Some elem => inl elem
      | None => inr "Could not find tag in dicom dictionary"
      end
  end.

(** The inner loop of [parseSQDataElements], lines 390-408: [for m <= l].
    [Some n']: the item delimiter was found and [n] set to [n'] before the
    [break]; [None]: the loop condition failed, [n] is unchanged. *)
Fixpoint sqScan (fuel : nat) (bytes : buffer) (n m : Z) : outcome (option Z) :=
  match fuel with
  | O => OutOfFuel
  | S fuel' =>
      if m <=? len bytes then
        endTag <- slice bytes m (m + 4) ;;
        endTagStr <- tagString endTag ;;
        if String.eqb endTagStr "FFFEE00D" then
          slice bytes n m ;;;                     (* de.Data = bytes[n:m] *)
          slice bytes n m ;;;                     (* printBytes(bytes[n:m]) *)
          let m := m + 4 in
          Val (Some m)
        else sqScan fuel' bytes n (m + 1)
      else Val None
  end.

Definition sqScanFuel (bytes : buffer) (m : Z) : nat :=
  S (S (Z.to_nat (len bytes - m))).

(** The outer loop of [parseSQDataElements], lines 374-410.  [m0] is the
    function's variable [m], set to the initial [n] and never assigned
    again: the loop body declares a new [m] ([m := n + 4]).  The loop need
    not terminate, so the fuel stays a parameter. *)
Fixpoint parseSQLoop (fuel : nat) (bytes : buffer) (n m0 : Z) : outcome Z :=
  match fuel with
  | O => OutOfFuel
  | S fuel' =>
      if (n <=? len bytes) && (m0 + 4 <=? len bytes) then
        let m := n + 4 in
        slice bytes n m ;;;                       (* printBytes(bytes[n:m]) *)
        t <- slice bytes n m ;;
        tagString t ;;;
        slice bytes n (n + 2) ;;;
        slice bytes (n + 2) (n + 4) ;;;
        tagString t ;;;
        r <- sqScan (sqScanFuel bytes m) bytes n m ;;
        match r with
        | Some n' => parseSQLoop fuel' bytes n' m0
        | None => parseSQLoop fuel' bytes n m0
        end
      else Val n
  end.

(** [parseSQDataElements], lines 370-413, run for at most [fuel] passes of
    its outer loop. *)
Definition parseSQDataElements (fuel : nat) (bytes : buffer) (n : Z)
           (explicit : bool) : outcome Z :=
  parseSQLoop fuel bytes n n.

(** ** Further notions used to state properties *)

(** The upper-case hexadecimal digit of a value below 16, and the four
    digits of a value below 65536. *)
Definition hexchar (d : Z) : ascii :=
  nth (Z.to_nat d) (list_ascii_of_string "0123456789ABCDEF") "0"%char.

Definition hex4 (z : Z) : string :=
  String (hexchar (z / 4096 mod 16))
    (String (hexchar (z / 256 mod 16))
       (String (hexchar (z / 16 mod 16))
          (String (hexchar (z mod 16)) EmptyString))).

(** The number a string of upper-case hexadecimal digits denotes. *)
Fixpoint parseHex (s : string) (acc : Z) : Z :=
  match s with
  | EmptyString => acc
  | String c r => parseHex r (16 * acc + hexval c)
  end.

(** The piece of code raises no panic other than an index or slice bounds
    panic. *)
Definition rangeOnly {A : Type} (x : outcome A) : Prop :=
  x <> Panic BadAssertion.

(** ** An encoder for flat data sets *)

(** The byte of value [z mod 256] and the [k] little-endian bytes of [z]. *)
Definition byte_of_Z (z : Z) : byte :=
  default x00 (Byte.of_N (Z.to_N (z mod 256))).

Fixpoint le_bytes (k : nat) (z : Z) : list byte :=
  match k with
  | O => []
  | S k' => byte_of_Z z :: le_bytes k' (z / 256)
  end.

(** An element before encoding: the four tag bytes, the two VR bytes
    (written in explicit mode only) and the value. *)
Record rawElement : Type := mkRaw {
  rawTag : list byte;
  rawVR : list byte;
  rawValue : list byte
}.

(** The wire form of an element of defined length: tag, then in explicit
    mode the VR followed by two reserved bytes and a 32-bit length (long
    form) or by a 16-bit length, in implicit mode a 32-bit length, then the
    value. *)
Definition encodeElement (explicit : bool) (r : rawElement) : list byte :=
  let l := Z.of_nat (length (rawValue r)) in
  rawTag r ++
  (if explicit then
     rawVR r ++
     (if longForm (gostring (rawVR r))
      then [x00; x00] ++ le_bytes 4 l
      else le_bytes 2 l)
   else le_bytes 4 l) ++
  rawValue r.

Definition encodeAll (explicit : bool) (rs : list rawElement) : list byte :=
  concat (map (encodeElement explicit) rs).

(** The key of a 4-byte tag. *)
Definition tagKey (t : list byte) : string :=
  match tagString t with
  | Val k => k
  | _ => ""
  end.

(** The element expected from the decoder for [r] encoded at offset
    [off]. *)
Definition decodedElement (explicit : bool) (off : Z) (r : rawElement)
  : DataElement :=
  let key := tagKey (rawTag r) in
  mkDataElement off (firstn 2 (rawTag r)) (skipn 2 (rawTag r)) key
                (match tag_Tag !! key with
                 | Some e => default "" (e !! "name")
                 | None => ""
                 end)
                (if explicit then rawVR r else [])
                (if explicit then gostring (rawVR r) else "")
                0 (Z.of_nat (length (rawValue r))) (rawValue r) false.

Fixpoint decodedAll (explicit : bool) (off : Z) (rs : list rawElement)
  : list DataElement :=
  match rs with
  | [] => []
  | r :: rs' =>
      decodedElement explicit off r ::
      decodedAll explicit
                 (off + Z.of_nat (length (encodeElement explicit r))) rs'
  end.

(** The elements the encoder is meant for: a 4-byte tag other than the
    item tag, a length that fits its field and is not the undefined-length
    mark, and in explicit mode a 2-byte VR of the VR dictionary other than
    SQ. *)
Definition encodable (explicit : bool) (r : rawElement) : Prop :=
  length (rawTag r) = 4%nat /\
  tagKey (rawTag r) <> "FFFEE000" /\
  Z.of_nat (length (rawValue r)) < 4294967295 /\
  (explicit = true ->
   length (rawVR r) = 2%nat /\
   is_Some (vri_VR !! gostring (rawVR r)) /\
   gostring (rawVR r) <> "SQ" /\
   (longForm (gostring (rawVR r)) = false ->
    Z.of_nat (length (rawValue r)) < 65536)).

(** ** Further sample buffers *)

(** Two copies of the element of [uidBuffer], at offsets 0 and 16. *)
Definition twoUidBuffer : buffer :=
  literal (visible uidBuffer ++ visible uidBuffer).

Definition uidElement2 : DataElement :=
  mkDataElement 16 [x08; x00] [x18; x00] "00080018" "SOPInstanceUID"
                ["U"; "I"]%byte "UI" 0 8
                ["1"; "."; "2"; "."; "3"; "."; "4"; x00]%byte false.

(** (0008,0018) UI with 16-bit length 0. *)
Definition zeroLenBuffer : buffer :=
  literal [x08; x00; x18; x00; "U"; "I"; x00; x00]%byte.

Definition zeroLenElement : DataElement :=
  mkDataElement 0 [x08; x00] [x18; x00] "00080018" "SOPInstanceUID"
                ["U"; "I"]%byte "UI" 0 0 [] false.

(** Eight visible bytes with four bytes of spare capacity behind them, such
    as [b[:8]] for a 12-byte [b]: without an item delimiter, and with the
    item delimiter in the spare capacity. *)
Definition spareBuffer : buffer :=
  Buffer [x08; x00; x18; x00; x00; x00; x00; x00] [x00; x00; x00; x00].

Definition delimiterSpareBuffer : buffer :=
  Buffer [x08; x00; x18; x00; x00; x00; x00; x00] itemDelimiter.

(** The element of [uidBuffer] before encoding. *)
Definition rawUid : rawElement :=
  mkRaw [x08; x00; x18; x00] ["U"; "I"]%byte
        ["1"; "."; "2"; "."; "3"; "."; "4"; x00]%byte.

(** ** Progress of the main loop *)

(** The loop of a decode of [bytes] that starts at offset [n] arrives at
    the loop head with cursor [s] after appending the elements [els]: each
    step is one pass of the loop that completes. *)
Inductive reaches (bytes : buffer) (explicit : bool) (limit : Z)
  : Z -> list DataElement -> Z -> Prop :=
| reaches_here (n : Z) : reaches bytes explicit limit n [] n
| reaches_step (n : Z) (de : DataElement) (n' : Z) (els : list DataElement)
               (s : Z) :
    guard bytes n n limit = true ->
    iteration (parseDataElement bytes) bytes n explicit limit = Val (de, n') ->
    reaches bytes explicit limit n' els s ->
    reaches bytes explicit limit n (de :: els) s.

(** ** Sample buffers for pixel data and unknown VR codes *)

(** Encapsulated pixel data: (7FE0,0010) OB of undefined length, four value
    bytes, the sequence delimiter (FFFE,E0DD) at offset 16 and its length
    field. *)
Definition encapsulatedBuffer : buffer :=
  literal [xe0; x7f; x10; x00; "O"; "B"; x00; x00; xff; xff; xff; xff;
           x01; x02; x03; x04; xfe; xff; xdd; xe0; x00; x00; x00; x00]%byte.

Definition encapsulatedHeader : header :=
  mkHeader ["O"; "B"]%byte "OB" "OB" 4294967295 12.

Definition encapsulatedElement : DataElement :=
  mkDataElement 0 [xe0; x7f] [x10; x00] "7FE00010" "PixelData"
                ["O"; "B"]%byte "OB" 0 4 [x01; x02; x03; x04] false.

(** The element decoded from [blankVRBuffer]. *)
Definition blankVRElement : DataElement :=
  mkDataElement 0 [x08; x00] [x18; x00] "00080018" "SOPInstanceUID"
                [x00; x00] "00" 0 2 ["A"; "B"]%byte false.

(** The element of [uidBuffer] followed by the element of
    [unknownVRBuffer] (VR bytes "ZZ") at offset 16, and followed by the
    element of [blankVRBuffer] at offset 16. *)
Definition uidThenUnknownBuffer : buffer :=
  literal (visible uidBuffer ++ visible unknownVRBuffer).

Definition uidThenBlankBuffer : buffer :=
  literal (visible uidBuffer ++ visible blankVRBuffer).

Definition blankVRElement16 : DataElement :=
  mkDataElement 16 [x08; x00] [x18; x00] "00080018" "SOPInstanceUID"
                [x00; x00] "00" 0 2 ["A"; "B"]%byte false.

(** The child that an explicit-mode decode of the span of [itemBuffer]
    returns. *)
Definition itemChild : DataElement :=
  mkDataElement 8 [x08; x00] [x18; x00] "00080018" "SOPInstanceUID"
                ["U"; "I"]%byte "UI" 0 8
                ["1"; "."; "2"; "."; "3"; "."; "4"; x00]%byte false.

(** ** Basic facts about outcomes, slices and byte arithmetic *)

Lemma bind_Val {A B : Type} (x : outcome A) (f : A -> outcome B) (b : B) :
  bind x f = Val b -> exists a, x = Val a /\ f a = Val b.
Proof. destruct x; simpl; intros H; try discriminate; eauto. Qed.

Lemma halts_bind {A B : Type} (x : outcome A) (f : A -> outcome B) :
  halts x -> (forall a, x = Val a -> halts (f a)) -> halts (bind x f).
Proof.
  unfold halts. destruct x; simpl; intros Hx Hf; try discriminate; auto.
Qed.

Lemma length_sub (lo hi : Z) (l : list byte) :
  0 <= lo -> lo <= hi -> hi <= Z.of_nat (length l) ->
  length (sub lo hi l) = Z.to_nat (hi - lo).
Proof.
  intros. unfold sub. rewrite length_firstn, length_skipn. lia.
Qed.

Lemma cap_backing (bytes : buffer) :
  cap bytes = Z.of_nat (length (backing bytes)).
Proof. unfold cap, len, backing. rewrite length_app. lia. Qed.

Lemma len_le_cap (bytes : buffer) : 0 <= len bytes <= cap bytes.
Proof. unfold cap, len. lia. Qed.

Lemma slice_cases (bytes : buffer) (lo hi : Z) :
  (0 <= lo /\ lo <= hi /\ hi <= cap bytes /\
   slice bytes lo hi = Val (sub lo hi (backing bytes))) \/
  (~ (0 <= lo /\ lo <= hi /\ hi <= cap bytes) /\
   slice bytes lo hi = Panic OutOfRange).
Proof.
  unfold slice.
  destruct (0 <=? lo) eqn:E1, (lo <=? hi) eqn:E2, (hi <=? cap bytes) eqn:E3;
    simpl;
    first [ left; repeat split; (lia || reflexivity)
          | right; split; [lia | reflexivity] ].
Qed.

Lemma slice_Val (bytes : buffer) (lo hi : Z) (x : list byte) :
  slice bytes lo hi = Val x ->
  0 <= lo /\ lo <= hi /\ hi <= cap bytes /\ x = sub lo hi (backing bytes).
Proof.
  destruct (slice_cases bytes lo hi) as [(? & ? & ? & E) | (? & E)];
    rewrite E; intros Hx; inversion Hx; auto.
Qed.

Lemma slice_ok (bytes : buffer) (lo hi : Z) :
  0 <= lo -> lo <= hi -> hi <= cap bytes ->
  slice bytes lo hi = Val (sub lo hi (backing bytes)).
Proof.
  intros. destruct (slice_cases bytes lo hi) as [(? & ? & ? & E) | (? & E)];
    [exact E | lia].
Qed.

Lemma length_slice (bytes : buffer) (lo hi : Z) (x : list byte) :
  slice bytes lo hi = Val x -> Z.of_nat (length x) = hi - lo.
Proof.
  intros H. apply slice_Val in H. destruct H as (? & ? & ? & ->).
  rewrite length_sub; rewrite <- ?cap_backing; lia.
Qed.

Lemma halts_slice (bytes : buffer) (lo hi : Z) : halts (slice bytes lo hi).
Proof.
  destruct (slice_cases bytes lo hi) as [(? & ? & ? & E) | (? & E)];
    rewrite E; discriminate.
Qed.

Lemma halts_index (bytes : buffer) (i : Z) : halts (index bytes i).
Proof.
  unfold index, halts.
  destruct ((0 <=? i) && (i <? len bytes)); [|discriminate].
  destruct (nth_error _ _); discriminate.
Qed.

Lemma halts_dindex (d : list byte) (i : Z) : halts (dindex d i).
Proof.
  unfold dindex, halts.
  destruct ((0 <=? i) && (i <? Z.of_nat (length d))); [|discriminate].
  destruct (nth_error _ _); discriminate.
Qed.

Lemma halts_dslice (d : list byte) (lo hi : Z) : halts (dslice d lo hi).
Proof.
  unfold dslice, halts.
  destruct ((0 <=? lo) && (lo <=? hi) && (hi <=? Z.of_nat (length d)));
    discriminate.
Qed.

Lemma halts_Val {A : Type} (a : A) : halts (Val a).
Proof. discriminate. Qed.

Lemma halts_Return {A : Type} : halts (@Return A).
Proof. discriminate. Qed.

Lemma halts_Panic {A : Type} (k : panic) : halts (@Panic A k).
Proof. discriminate. Qed.

Lemma halts_tagString (b : list byte) : halts (tagString b).
Proof.
  unfold tagString.
  repeat (apply halts_bind; [apply halts_dindex | intros ? _]).
  apply halts_Val.
Qed.

Lemma halts_Uint16 (b : list byte) : halts (Uint16 b).
Proof.
  unfold Uint16.
  repeat (apply halts_bind; [apply halts_dindex | intros ? _]).
  apply halts_Val.
Qed.

Lemma halts_Uint32 (b : list byte) : halts (Uint32 b).
Proof.
  unfold Uint32.
  repeat (apply halts_bind; [apply halts_dindex | intros ? _]).
  apply halts_Val.
Qed.

Create HintDb halts.

#[local] Hint Resolve halts_slice halts_index halts_dindex halts_dslice halts_Val
     halts_Return halts_Panic halts_tagString halts_Uint16 halts_Uint32
  : halts.

(** Splits a goal [halts e] along the binds and conditionals of [e]. *)
Ltac halts_step :=
  match goal with
  | |- halts (bind _ _) => apply halts_bind; [| intros ? ?]
  | |- halts (if ?c then _ else _) => destruct c
  | |- halts (match ?x with Some _ => _ | None => _ end) => destruct x
  | |- halts _ => solve [auto with halts]
  end.

Lemma b2z_range (b : byte) : 0 <= b2z b < 256.
Proof. unfold b2z. pose proof (Byte.to_N_bounded b). lia. Qed.

Lemma lor_shiftl_add (a b k : Z) :
  0 <= k -> 0 <= a < 2 ^ k -> Z.lor a (Z.shiftl b k) = a + b * 2 ^ k.
Proof.
  intros Hk Ha. rewrite Z.shiftl_mul_pow2 by lia.
  symmetry. apply Z.add_nocarry_lor.
  apply Z.bits_inj'. intros n Hn. rewrite Z.land_spec, Z.bits_0.
  destruct (Z.lt_ge_cases n k) as [Hlt | Hge].
  - rewrite Z.mul_pow2_bits_low by lia. apply andb_false_r.
  - replace (Z.testbit a n) with false; [reflexivity|].
    symmetry. destruct (Z.eq_dec a 0) as [-> | Hne]; [apply Z.bits_0|].
    apply Z.bits_above_log2; [lia|].
    apply Z.log2_lt_pow2; [lia|].
    apply Z.lt_le_trans with (2 ^ k); [lia|].
    apply Z.pow_le_mono_r; lia.
Qed.

Lemma le_value_bound (l : list byte) :
  0 <= le_value l < 256 ^ Z.of_nat (length l).
Proof.
  induction l as [|b r IH]; [simpl; lia|].
  cbn [le_value length]. rewrite Nat2Z.inj_succ, Z.pow_succ_r by lia.
  pose proof (b2z_range b). lia.
Qed.

Lemma Uint16_le (b0 b1 : byte) : Uint16 [b0; b1] = Val (le_value [b0; b1]).
Proof.
  unfold Uint16. simpl. f_equal.
  rewrite lor_shiftl_add by (pose proof (b2z_range b0); lia). lia.
Qed.

Lemma Uint32_le (b0 b1 b2 b3 : byte) :
  Uint32 [b0; b1; b2; b3] = Val (le_value [b0; b1; b2; b3]).
Proof.
  unfold Uint32. simpl. f_equal.
  pose proof (b2z_range b0). pose proof (b2z_range b1).
  pose proof (b2z_range b2). pose proof (b2z_range b3).
  rewrite (lor_shiftl_add (b2z b0)) by lia.
  rewrite (lor_shiftl_add _ (b2z b2) 16) by lia.
  rewrite (lor_shiftl_add _ (b2z b3) 24) by lia. lia.
Qed.

Lemma list_len2 (l : list byte) :
  length l = 2%nat -> exists a b, l = [a; b].
Proof.
  destruct l as [|a [|b [|c r]]]; simpl; intros; try discriminate; eauto.
Qed.

Lemma list_len4 (l : list byte) :
  length l = 4%nat -> exists a b c d, l = [a; b; c; d].
Proof.
  destruct l as [|a [|b [|c [|d [|e r]]]]]; simpl; intros; try discriminate.
  eauto 6.
Qed.

Lemma Uint16_len (l : list byte) :
  length l = 2%nat -> Uint16 l = Val (le_value l).
Proof.
  intros H. destruct (list_len2 l H) as (a & b & ->). apply Uint16_le.
Qed.

Lemma Uint32_len (l : list byte) :
  length l = 4%nat -> Uint32 l = Val (le_value l).
Proof.
  intros H. destruct (list_len4 l H) as (a & b & c & d & ->).
  apply Uint32_le.
Qed.

Lemma tagString_len (l : list byte) :
  length l = 4%nat -> exists k, tagString l = Val k.
Proof.
  intros H. destruct (list_len4 l H) as (a & b & c & d & ->).
  eexists. reflexivity.
Qed.

Lemma Uint16_slice (bytes : buffer) (lo : Z) (x : list byte) :
  slice bytes lo (lo + 2) = Val x ->
  Uint16 x = Val (le_value x) /\ 0 <= le_value x < 65536.
Proof.
  intros H. apply length_slice in H.
  assert (Hl : length x = 2%nat) by lia. split.
  - apply Uint16_len, Hl.
  - pose proof (le_value_bound x) as Hb. rewrite Hl in Hb.
    change (256 ^ Z.of_nat 2) with 65536 in Hb. exact Hb.
Qed.

Lemma Uint32_slice (bytes : buffer) (lo : Z) (x : list byte) :
  slice bytes lo (lo + 4) = Val x ->
  Uint32 x = Val (le_value x) /\ 0 <= le_value x < 2 ^ 32.
Proof.
  intros H. apply length_slice in H.
  assert (Hl : length x = 4%nat) by lia. split.
  - apply Uint32_len, Hl.
  - pose proof (le_value_bound x) as Hb. rewrite Hl in Hb.
    change (256 ^ Z.of_nat 4) with (2 ^ 32) in Hb. exact Hb.
Qed.

(** ** The phases of one loop pass *)

Lemma readTag_Val (bytes : buffer) (s : Z) (de : DataElement) :
  readTag bytes s = Val de ->
  0 <= s /\ s + 4 <= cap bytes /\ N de = s /\
  tagString (sub s (s + 4) (backing bytes)) = Val (TagStr de) /\
  VRLen de = 0 /\ PartOfSQ de = false.
Proof.
  unfold readTag. intros H.
  apply bind_Val in H. destruct H as (t & Ht & H).
  apply bind_Val in H. destruct H as (tg & Htg & H).
  apply bind_Val in H. destruct H as (te & Hte & H).
  apply bind_Val in H. destruct H as (k1 & Hk1 & H).
  apply bind_Val in H. destruct H as (k2 & Hk2 & H).
  apply bind_Val in H. destruct H as (x & Hx & H).
  apply slice_Val in Ht. destruct Ht as (? & ? & ? & ->).
  inversion H; subst; simpl. repeat split; auto; lia.
Qed.

Lemma readTag_ok (bytes : buffer) (s : Z) :
  0 <= s -> s + 4 <= cap bytes -> exists de, readTag bytes s = Val de.
Proof.
  intros H0 H4. unfold readTag.
  rewrite !slice_ok by lia. simpl.
  destruct (tagString_len (sub s (s + 4) (backing bytes))) as (k & ->).
  { rewrite length_sub; rewrite <- ?cap_backing; lia. }
  simpl. eauto.
Qed.

Lemma halts_readTag (bytes : buffer) (s : Z) : halts (readTag bytes s).
Proof. unfold readTag. repeat halts_step. Qed.

Lemma halts_readLength (bytes : buffer) (n : Z) (explicit : bool) (limit : Z) :
  halts (readLength bytes n explicit limit).
Proof. unfold readLength. repeat halts_step. Qed.

(** After the length field the cursor is 4 to 8 bytes past the tag, inside
    the capacity; the length fits 32 bits; [de.VRStr] and [vr] agree. *)
Lemma readLength_Val (bytes : buffer) (n : Z) (explicit : bool) (limit : Z)
      (h : header) :
  readLength bytes n explicit limit = Val h ->
  0 <= n /\ n + 4 <= hn h <= n + 8 /\ hn h <= cap bytes /\
  0 <= hlen h < 2 ^ 32 /\ hVRStr h = hvr h /\
  (explicit = false -> hvr h = "").
Proof.
  unfold readLength. intros H. destruct explicit.
  - apply bind_Val in H. destruct H as (x0 & Hx0 & H).
    apply bind_Val in H. destruct H as (vrb & Hvrb & H).
    apply bind_Val in H. destruct H as (vr' & Hvr' & H).
    apply slice_Val in Hvrb. destruct Hvrb as (? & ? & ? & ->).
    destruct (longForm vr').
    + apply bind_Val in H. destruct H as (x1 & Hx1 & H).
      apply bind_Val in H. destruct H as (x2 & Hx2 & H).
      apply bind_Val in H. destruct H as (lb & Hlb & H).
      apply bind_Val in H. destruct H as (v & Hv & H).
        pose proof (slice_Val _ _ _ _ Hlb) as (? & ? & ? & _).
      destruct (Uint32_slice _ _ _ Hlb) as (E & ?).
      rewrite E in Hv. inversion Hv; subst v.
      inversion H; subst; simpl. repeat split; try lia; discriminate.
    + apply bind_Val in H. destruct H as (x1 & Hx1 & H).
      apply bind_Val in H. destruct H as (lb & Hlb & H).
      apply bind_Val in H. destruct H as (v & Hv & H).
      pose proof (slice_Val _ _ _ _ Hlb) as (? & ? & ? & _).
      destruct (Uint16_slice _ _ _ Hlb) as (E & ?).
      rewrite E in Hv. inversion Hv; subst v.
      inversion H; subst; simpl. unfold uint32.
      rewrite Z.mod_small by lia. repeat split; try lia; discriminate.
  - apply bind_Val in H. destruct H as (x1 & Hx1 & H).
    apply bind_Val in H. destruct H as (lb & Hlb & H).
    apply bind_Val in H. destruct H as (v & Hv & H).
    pose proof (slice_Val _ _ _ _ Hlb) as (? & ? & ? & _).
    destruct (Uint32_slice _ _ _ Hlb) as (E & ?).
    rewrite E in Hv. inversion Hv; subst v.
    inversion H; subst; simpl. repeat split; try lia; reflexivity.
Qed.

Lemma halts_scanDelimiter (bytes : buffer) (tagStr : string) (n : Z) :
  forall (fuel : nat) (m : Z),
    (Z.to_nat (len bytes - m) < fuel)%nat ->
    halts (scanDelimiter fuel bytes tagStr n m).
Proof.
  induction fuel as [|fuel IH]; intros m Hf; [lia|].
  cbn [scanDelimiter].
  apply halts_bind; [auto with halts | intros endTag _].
  apply halts_bind; [auto with halts | intros endTagStr _].
  destruct (_ && _); [auto with halts|].
  destruct (String.eqb endTagStr "FFFEE0DD"); [auto with halts|].
  destruct (len bytes <=? m + 1) eqn:E.
  - repeat halts_step.
  - apply IH. apply Z.leb_gt in E. lia.
Qed.

(** Where the scan breaks: at or after the value start, with the four bytes
    of the delimiter inside the capacity. *)
Lemma scanDelimiter_Val (bytes : buffer) (tagStr : string) (n : Z) :
  forall (fuel : nat) (m p : Z),
    scanDelimiter fuel bytes tagStr n m = Val p ->
    m <= p /\ 0 <= p /\ p + 4 <= cap bytes.
Proof.
  induction fuel as [|fuel IH]; intros m p H; [discriminate|].
  cbn [scanDelimiter] in H.
  apply bind_Val in H. destruct H as (endTag & Hs & H).
  apply bind_Val in H. destruct H as (endTagStr & Ht & H).
  apply slice_Val in Hs. destruct Hs as (? & ? & ? & _).
  destruct (_ && _); [inversion H; subst; lia|].
  destruct (String.eqb endTagStr "FFFEE0DD"); [inversion H; subst; lia|].
  destruct (len bytes <=? m + 1).
  - apply bind_Val in H. destruct H as (? & _ & H). discriminate.
  - apply IH in H. lia.
Qed.

Lemma halts_resolveLength (bytes : buffer) (tagStr : string) (h : header) :
  halts (resolveLength bytes tagStr h).
Proof.
  unfold resolveLength. destruct (hlen h =? undefinedLength); [|auto with halts].
  apply halts_bind; [|auto with halts].
  apply halts_scanDelimiter. unfold scanFuel. lia.
Qed.

Lemma resolveLength_Val (bytes : buffer) (tagStr : string) (h : header)
      (r : Z * bool) :
  0 <= hlen h < 2 ^ 32 ->
  resolveLength bytes tagStr h = Val r -> 0 <= fst r < 2 ^ 32.
Proof.
  unfold resolveLength. intros Hh H.
  destruct (hlen h =? undefinedLength).
  - apply bind_Val in H. destruct H as (p & _ & H). inversion H; subst. simpl.
    unfold uint32. apply Z.mod_pos_bound. lia.
  - inversion H; subst. exact Hh.
Qed.

(** What [materialize] does, for a value span inside the capacity. *)
Lemma materialize_eq (self : Z -> bool -> Z -> outcome (list DataElement))
      (bytes : buffer) (de : DataElement) (h : header) (len : Z) (u : bool) :
  0 <= hn h -> 0 <= len -> hn h + len <= cap bytes ->
  materialize self bytes de h len u =
  (data <- (if String.eqb (TagStr de) "FFFEE000"
            then (self (hn h) true (hn h + len) ;;; Val [])
            else if String.eqb (hvr h) "SQ"
            then (self (hn h) false (hn h + len) ;;; Val [])
            else Val (sub (hn h) (hn h + len) (backing bytes))) ;;
   Val (mkDataElement (N de) (TagGroup de) (TagElem de) (TagStr de) (Name de)
                      (hVR h) (hVRStr h) (VRLen de) len data (PartOfSQ de),
        if u then hn h + len + 8 else hn h + len)).
Proof.
  intros Hn Hl Hc. unfold materialize.
  rewrite !slice_ok by lia. simpl.
  destruct (String.eqb (TagStr de) "FFFEE000"); [reflexivity|].
  destruct (String.eqb (hvr h) "SQ"); reflexivity.
Qed.

Lemma materialize_panic (self : Z -> bool -> Z -> outcome (list DataElement))
      (bytes : buffer) (de : DataElement) (h : header) (len : Z) (u : bool) :
  ~ (0 <= hn h /\ 0 <= len /\ hn h + len <= cap bytes) ->
  materialize self bytes de h len u = Panic OutOfRange.
Proof.
  intros Hn. unfold materialize.
  destruct (slice_cases bytes (hn h) (hn h + len)) as [(? & ? & ? & E) | (? & E)];
    [lia|].
  rewrite E. reflexivity.
Qed.

(** A pass that completes moves the cursor at least 8 bytes forward. *)
Lemma iteration_Val (self : Z -> bool -> Z -> outcome (list DataElement))
      (bytes : buffer) (s : Z) (explicit : bool) (limit : Z)
      (de : DataElement) (n' : Z) :
  iteration self bytes s explicit limit = Val (de, n') ->
  0 <= s /\ N de = s /\ 0 <= Len de < 2 ^ 32 /\
  s + 8 + Len de <= n' /\ n' <= s + 12 + Len de + 8.
Proof.
  unfold iteration. intros H.
  apply bind_Val in H. destruct H as (de0 & Hde0 & H).
  apply bind_Val in H. destruct H as (h & Hh & H).
  apply bind_Val in H. destruct H as (r & Hr & H).
  apply readTag_Val in Hde0. destruct Hde0 as (? & ? & HN & _).
  apply readLength_Val in Hh. destruct Hh as (? & ? & ? & Hlen & _).
  apply (resolveLength_Val _ _ _ _ Hlen) in Hr.
  destruct (Z_le_gt_dec (hn h + fst r) (cap bytes)) as [Hc | Hc].
  - rewrite materialize_eq in H by lia.
    apply bind_Val in H. destruct H as (data & _ & H).
    inversion H; subst; simpl. destruct (snd r); lia.
  - rewrite materialize_panic in H by lia. discriminate.
Qed.

(** The recursive calls of one pass start at least 8 bytes after the pass
    and are given a limit inside the capacity: the pass depends on [self]
    at such arguments only. *)
Lemma iteration_ext (self1 self2 : Z -> bool -> Z -> outcome (list DataElement))
      (bytes : buffer) (s : Z) (explicit : bool) (limit : Z) :
  (forall n e lim, s + 8 <= n -> lim <= cap bytes ->
                   self1 n e lim = self2 n e lim) ->
  iteration self1 bytes s explicit limit = iteration self2 bytes s explicit limit.
Proof.
  intros Hself. unfold iteration.
  destruct (readTag bytes s) as [de0| | |] eqn:Hde0; simpl; try reflexivity.
  destruct (readLength bytes (s + 4) explicit limit) as [h| | |] eqn:Hh;
    simpl; try reflexivity.
  destruct (resolveLength bytes (TagStr de0) h) as [r| | |] eqn:Hr;
    simpl; try reflexivity.
  apply readLength_Val in Hh. destruct Hh as (? & ? & ? & Hlen & _).
  apply (resolveLength_Val _ _ _ _ Hlen) in Hr.
  destruct (Z_le_gt_dec (hn h + fst r) (cap bytes)) as [Hc | Hc].
  - rewrite !materialize_eq by lia.
    rewrite !Hself by lia. reflexivity.
  - rewrite !materialize_panic by lia. reflexivity.
Qed.

Lemma halts_iteration (self : Z -> bool -> Z -> outcome (list DataElement))
      (bytes : buffer) (s : Z) (explicit : bool) (limit : Z) :
  (forall n e lim, s + 8 <= n -> halts (self n e lim)) ->
  halts (iteration self bytes s explicit limit).
Proof.
  intros Hself. unfold iteration.
  apply halts_bind; [apply halts_readTag | intros de0 Hde0].
  apply halts_bind; [apply halts_readLength | intros h Hh].
  apply halts_bind; [apply halts_resolveLength | intros r Hr].
  apply readLength_Val in Hh. destruct Hh as (? & ? & ? & Hlen & _).
  apply (resolveLength_Val _ _ _ _ Hlen) in Hr.
  destruct (Z_le_gt_dec (hn h + fst r) (cap bytes)) as [Hc | Hc].
  - rewrite materialize_eq by lia.
    assert (forall e lim, halts (self (hn h) e lim)) by (intros; apply Hself; lia).
    repeat halts_step.
  - rewrite materialize_panic by lia. apply halts_Panic.
Qed.

(** ** The loop *)

Lemma guard_true (bytes : buffer) (n limit : Z) :
  guard bytes n n limit = true <-> n + 4 <= len bytes /\ n + 4 <= limit.
Proof. unfold guard. rewrite !andb_true_iff, !Z.leb_le. lia. Qed.

Lemma halts_parseLoop (bytes : buffer) :
  forall (fuel : nat) (n : Z) (explicit : bool) (limit : Z)
         (elements : list DataElement),
    (Z.to_nat (len bytes - n) < fuel)%nat ->
    halts (parseLoop fuel bytes n explicit limit elements).
Proof.
  induction fuel as [|fuel IH]; intros n explicit limit elements Hf; [lia|].
  cbn [parseLoop].
  destruct (guard bytes n n limit) eqn:Hg; [|apply halts_Val].
  apply guard_true in Hg.
  assert (Hit : halts (iteration
                         (fun n' e' lim' => parseLoop fuel bytes n' e' lim' [])
                         bytes n explicit limit)).
  { apply halts_iteration. intros n' e' lim' Hn'. apply IH. lia. }
  destruct (iteration _ bytes n explicit limit) as [[de n']| | |] eqn:E;
    [| apply halts_Val | apply halts_Panic | exfalso; apply Hit; reflexivity].
  apply iteration_Val in E. apply IH. lia.
Qed.

Lemma parseLoop_not_Return (bytes : buffer) :
  forall (fuel : nat) (n : Z) (explicit : bool) (limit : Z)
         (elements : list DataElement),
    parseLoop fuel bytes n explicit limit elements <> Return.
Proof.
  induction fuel as [|fuel IH]; intros n explicit limit elements;
    [discriminate|].
  cbn [parseLoop].
  destruct (guard bytes n n limit); [|discriminate].
  destruct (iteration _ bytes n explicit limit) as [[de n']| | |];
    try discriminate.
  apply IH.
Qed.

(** Any two sufficient amounts of fuel give the same result. *)
Lemma parseLoop_fuel (bytes : buffer) :
  forall (f1 f2 : nat) (n : Z) (explicit : bool) (limit : Z)
         (elements : list DataElement),
    (Z.to_nat (len bytes - n) < f1)%nat ->
    (Z.to_nat (len bytes - n) < f2)%nat ->
    parseLoop f1 bytes n explicit limit elements =
    parseLoop f2 bytes n explicit limit elements.
Proof.
  induction f1 as [|f1 IH]; intros f2 n explicit limit elements H1 H2; [lia|].
  destruct f2 as [|f2]; [lia|].
  cbn [parseLoop].
  destruct (guard bytes n n limit) eqn:Hg; [|reflexivity].
  apply guard_true in Hg.
  rewrite (iteration_ext (fun n' e' lim' => parseLoop f1 bytes n' e' lim' [])
                         (fun n' e' lim' => parseLoop f2 bytes n' e' lim' []))
    by (intros; apply IH; lia).
  destruct (iteration _ bytes n explicit limit) as [[de n']| | |] eqn:E;
    try reflexivity.
  apply iteration_Val in E. apply IH; lia.
Qed.

(** The accumulated elements are a prefix of the result. *)
Lemma parseLoop_acc (bytes : buffer) :
  forall (fuel : nat) (n : Z) (explicit : bool) (limit : Z)
         (elements : list DataElement),
    parseLoop fuel bytes n explicit limit elements =
    (r <- parseLoop fuel bytes n explicit limit [] ;; Val (elements ++ r)).
Proof.
  induction fuel as [|fuel IH]; intros n explicit limit elements;
    [reflexivity|].
  cbn [parseLoop].
  destruct (guard bytes n n limit);
    [|simpl; rewrite app_nil_r; reflexivity].
  destruct (iteration _ bytes n explicit limit) as [[de n']| | |];
    simpl; try reflexivity; [|rewrite app_nil_r; reflexivity].
  rewrite (IH n' explicit limit (elements ++ [de])).
  rewrite (IH n' explicit limit [de]).
  destruct (parseLoop fuel bytes n' explicit limit []); simpl; try reflexivity.
  rewrite <- app_assoc. reflexivity.
Qed.

(** [parseDataElement] satisfies the equation of the source loop, with the
    recursive calls being calls of [parseDataElement] itself. *)
Lemma parseDataElement_unfold (bytes : buffer) (n : Z) (explicit : bool)
      (limit : Z) :
  parseDataElement bytes n explicit limit =
  if guard bytes n n limit then
    match iteration (parseDataElement bytes) bytes n explicit limit with
    | Val (de, n') =>
        rest <- parseDataElement bytes n' explicit limit ;; Val (de :: rest)
    | Return => Val []
    | Panic k => Panic k
    | OutOfFuel => OutOfFuel
    end
  else Val [].
Proof.
  unfold parseDataElement at 1. unfold parseFuel. cbn [parseLoop].
  destruct (guard bytes n n limit) eqn:Hg; [|reflexivity].
  apply guard_true in Hg.
  rewrite (iteration_ext _ (parseDataElement bytes)).
  2:{ intros n' e' lim' Hn' _. unfold parseDataElement, parseFuel.
      apply parseLoop_fuel; lia. }
  destruct (iteration _ bytes n explicit limit) as [[de n']| | |] eqn:E;
    try reflexivity.
  apply iteration_Val in E.
  rewrite parseLoop_acc. unfold parseDataElement, parseFuel.
  rewrite (parseLoop_fuel bytes (Z.to_nat (len bytes - n))
                          (S (Z.to_nat (len bytes - n')))) by lia.
  reflexivity.
Qed.

Lemma parseDataElement_not_Return (bytes : buffer) (n : Z) (explicit : bool)
      (limit : Z) :
  parseDataElement bytes n explicit limit <> Return.
Proof. apply parseLoop_not_Return. Qed.

(** Termination: with the fuel [parseDataElement] supplies, the decoder
    always comes to an end, by returning a sequence or by panicking. *)
Lemma parseDataElement_terminates (bytes : buffer) (n : Z) (explicit : bool)
      (limit : Z) :
  (exists els, parseDataElement bytes n explicit limit = Val els) \/
  (exists k, parseDataElement bytes n explicit limit = Panic k).
Proof.
  pose proof (halts_parseLoop bytes (parseFuel bytes n) n explicit limit [])
    as Hh.
  pose proof (parseLoop_not_Return bytes (parseFuel bytes n) n explicit limit [])
    as Hr.
  unfold parseDataElement.
  destruct (parseLoop _ bytes n explicit limit []); eauto.
  - contradiction.
  - exfalso. apply Hh; [unfold parseFuel; lia | reflexivity].
Qed.

(** Induction along the loop: a pass at [n] is followed by work at offsets
    at least [n + 8], and only when the loop condition holds at [n]. *)
Lemma cursor_ind (bytes : buffer) (limit : Z) (P : Z -> Prop) :
  (forall n, (guard bytes n n limit = true -> forall n', n + 8 <= n' -> P n') ->
             P n) ->
  forall n, P n.
Proof.
  intros Hstep.
  assert (H : forall (k : nat) (n : Z), (Z.to_nat (len bytes - n) < k)%nat -> P n).
  { induction k as [|k IH]; intros n Hk; [lia|].
    apply Hstep. intros Hg n' Hn'. apply guard_true in Hg. apply IH. lia. }
  intros n. apply (H (S (Z.to_nat (len bytes - n)))). lia.
Qed.

(** ** Properties of the decoded elements *)

Lemma readLength_hn (bytes : buffer) (n : Z) (explicit : bool) (limit : Z)
      (h : header) :
  readLength bytes n explicit limit = Val h ->
  hn h = n + (if longForm (hVRStr h) then 8 else 4).
Proof.
  unfold readLength. intros H. destruct explicit.
  - apply bind_Val in H. destruct H as (x0 & Hx0 & H).
    apply bind_Val in H. destruct H as (vrb & Hvrb & H).
    apply bind_Val in H. destruct H as (vr' & Hvr' & H).
    destruct (longForm vr') eqn:El.
    + apply bind_Val in H. destruct H as (x1 & Hx1 & H).
      apply bind_Val in H. destruct H as (x2 & Hx2 & H).
      apply bind_Val in H. destruct H as (lb & Hlb & H).
      apply bind_Val in H. destruct H as (v & Hv & H).
      inversion H; subst; simpl. rewrite El. lia.
    + apply bind_Val in H. destruct H as (x1 & Hx1 & H).
      apply bind_Val in H. destruct H as (lb & Hlb & H).
      apply bind_Val in H. destruct H as (v & Hv & H).
      inversion H; subst; simpl. rewrite El. lia.
  - apply bind_Val in H. destruct H as (x1 & Hx1 & H).
    apply bind_Val in H. destruct H as (lb & Hlb & H).
    apply bind_Val in H. destruct H as (v & Hv & H).
    inversion H; subst; simpl. reflexivity.
Qed.

(** Everything one completed pass says about its element. *)
Lemma iteration_element (self : Z -> bool -> Z -> outcome (list DataElement))
      (bytes : buffer) (s : Z) (explicit : bool) (limit : Z)
      (de : DataElement) (n' : Z) :
  iteration self bytes s explicit limit = Val (de, n') ->
  N de = s /\ 0 <= s /\ 0 <= Len de < 2 ^ 32 /\ valueEnd de <= cap bytes /\
  (n' = valueEnd de \/ n' = valueEnd de + 8) /\
  (TagStr de = "FFFEE000" ->
   Data de = [] /\
   exists ch, self (valueStart de) true (valueEnd de) = Val ch) /\
  (TagStr de <> "FFFEE000" -> VRStr de = "SQ" ->
   Data de = [] /\
   exists ch, self (valueStart de) false (valueEnd de) = Val ch) /\
  (TagStr de <> "FFFEE000" -> VRStr de <> "SQ" ->
   Data de = sub (valueStart de) (valueEnd de) (backing bytes)).
Proof.
  unfold iteration. intros H.
  apply bind_Val in H. destruct H as (de0 & Hde0 & H).
  apply bind_Val in H. destruct H as (h & Hh & H).
  apply bind_Val in H. destruct H as (r & Hr & H).
  apply readTag_Val in Hde0. destruct Hde0 as (? & ? & HN & _).
  pose proof (readLength_hn _ _ _ _ _ Hh) as Hhn.
  apply readLength_Val in Hh. destruct Hh as (? & ? & ? & Hlen & Hvr & _).
  apply (resolveLength_Val _ _ _ _ Hlen) in Hr.
  destruct (Z_le_gt_dec (hn h + fst r) (cap bytes)) as [Hc | Hc].
  2:{ rewrite materialize_panic in H by lia. discriminate. }
  rewrite materialize_eq in H by lia.
  apply bind_Val in H. destruct H as (data & Hdata & H).
  inversion H; subst de n'; clear H.
  unfold valueEnd, valueStart, headerSize; simpl.
  assert (Evs : N de0 + (if longForm (hVRStr h) then 12 else 8) = hn h)
    by (rewrite Hhn; destruct (longForm (hVRStr h)); lia).
  rewrite Evs.
  split; [exact HN|]. split; [lia|]. split; [lia|]. split; [lia|].
  split; [destruct (snd r); [right | left]; lia|].
  split; [|split].
  - intros Et. rewrite Et, String.eqb_refl in Hdata.
    apply bind_Val in Hdata. destruct Hdata as (ch & Hch & Hd).
    inversion Hd. eauto.
  - intros Et Ev. apply String.eqb_neq in Et. rewrite Et in Hdata.
    rewrite <- Hvr, Ev, String.eqb_refl in Hdata.
    apply bind_Val in Hdata. destruct Hdata as (ch & Hch & Hd).
    inversion Hd. eauto.
  - intros Et Ev. apply String.eqb_neq in Et. rewrite Et in Hdata.
    rewrite <- Hvr in Hdata. apply String.eqb_neq in Ev. rewrite Ev in Hdata.
    inversion Hdata; reflexivity.
Qed.

(** One step of [parseDataElement] that yields a non-empty result. *)
Lemma parseDataElement_cons (bytes : buffer) (n : Z) (explicit : bool)
      (limit : Z) (de : DataElement) (rest : list DataElement) :
  parseDataElement bytes n explicit limit = Val (de :: rest) ->
  guard bytes n n limit = true /\
  exists n',
    iteration (parseDataElement bytes) bytes n explicit limit = Val (de, n') /\
    parseDataElement bytes n' explicit limit = Val rest.
Proof.
  rewrite parseDataElement_unfold.
  destruct (guard bytes n n limit); [|discriminate].
  destruct (iteration _ bytes n explicit limit) as [[d n']| | |];
    try discriminate.
  intros H. apply bind_Val in H. destruct H as (r & Hr & H).
  inversion H; subst. eauto.
Qed.

(** A property that every completed pass gives its element holds of every
    element of the result. *)
Lemma parseDataElement_Forall (bytes : buffer) (explicit : bool) (limit : Z)
      (P : DataElement -> Prop) :
  (forall s de n',
      guard bytes s s limit = true ->
      iteration (parseDataElement bytes) bytes s explicit limit = Val (de, n') ->
      P de) ->
  forall n els,
    parseDataElement bytes n explicit limit = Val els -> Forall P els.
Proof.
  intros HP n. pattern n. apply (cursor_ind bytes limit). clear n.
  intros n IH [|de rest] H; [constructor|].
  apply parseDataElement_cons in H. destruct H as (Hg & n' & Hit & Hrest).
  constructor; [eapply HP; eauto|].
  apply (IH Hg n'); [|exact Hrest].
  apply iteration_Val in Hit. lia.
Qed.

Lemma valueEnd_ge (de : DataElement) : 0 <= Len de -> N de + 8 <= valueEnd de.
Proof.
  unfold valueEnd, valueStart, headerSize. destruct (longForm (VRStr de)); lia.
Qed.

Lemma valueStart_gt (de : DataElement) : N de + 8 <= valueStart de.
Proof.
  unfold valueStart, headerSize. destruct (longForm (VRStr de)); lia.
Qed.

Lemma parseDataElement_laidOut (bytes : buffer) (explicit : bool) (limit : Z) :
  forall n els,
    parseDataElement bytes n explicit limit = Val els -> laidOut n els.
Proof.
  intros n. pattern n. apply (cursor_ind bytes limit). clear n.
  intros n IH [|de rest] H; [exact I|].
  apply parseDataElement_cons in H. destruct H as (Hg & n' & Hit & Hrest).
  pose proof (iteration_Val _ _ _ _ _ _ _ Hit) as (_ & _ & _ & Hn' & _).
  apply iteration_element in Hit.
  destruct Hit as (HN & _ & HL & _ & Hnext & _).
  cbn [laidOut]. split; [lia|].
  assert (Hlo : laidOut n' rest) by (apply (IH Hg n'); [lia | exact Hrest]).
  destruct rest as [|d r]; [exact I|].
  cbn [laidOut] in *. destruct Hlo. split; [lia | assumption].
Qed.

Lemma laidOut_lower (lo : Z) (els : list DataElement) :
  Forall (fun de => 0 <= Len de) els -> laidOut lo els ->
  Forall (fun de => lo <= N de) els.
Proof.
  revert lo. induction els as [|x r IH]; intros lo HL Hlo; [constructor|].
  inversion HL as [|? ? Hx Hr]; subst. cbn [laidOut] in Hlo.
  destruct Hlo as (Hlox & Hrest). constructor; [exact Hlox|].
  apply (IH _ Hr) in Hrest.
  eapply List.Forall_impl; [|exact Hrest].
  intros a Ha. simpl in Ha. pose proof (valueEnd_ge x Hx). lia.
Qed.

(** No element of a level starts inside the header or the value span of
    another element of that level. *)
Lemma laidOut_disjoint (lo : Z) (els : list DataElement) :
  Forall (fun de => 0 <= Len de) els -> laidOut lo els ->
  forall de e, In de els -> In e els -> N e <= N de \/ valueEnd de <= N e.
Proof.
  revert lo. induction els as [|x r IH]; intros lo HL Hlo de e Hde He;
    [contradiction|].
  inversion HL as [|? ? Hx Hr]; subst. cbn [laidOut] in Hlo.
  destruct Hlo as (Hlox & Hrest).
  pose proof (laidOut_lower _ _ Hr Hrest) as Hlow.
  rewrite List.Forall_forall in Hlow.
  pose proof (valueEnd_ge x Hx).
  destruct Hde as [<- | Hde], He as [<- | He].
  - left; lia.
  - right. apply (Hlow e He).
  - left. specialize (Hlow de Hde). simpl in Hlow. lia.
  - eapply IH; eauto.
Qed.

Lemma parseDataElement_bounds (bytes : buffer) (explicit : bool) (limit : Z) :
  forall n els,
    parseDataElement bytes n explicit limit = Val els ->
    Forall (fun de => n <= N de /\ N de + 4 <= limit /\ 0 <= Len de) els.
Proof.
  intros n els H.
  assert (H1 : Forall (fun de => N de + 4 <= limit /\ 0 <= Len de) els).
  { eapply parseDataElement_Forall; [|exact H].
    intros s de n' Hg Hit. apply guard_true in Hg.
    apply iteration_Val in Hit. lia. }
  assert (H2 : Forall (fun de => n <= N de) els).
  { apply laidOut_lower; [|eapply parseDataElement_laidOut; eauto].
    eapply List.Forall_impl; [|exact H1]. simpl. tauto. }
  rewrite List.Forall_forall in *. intros de Hde.
  specialize (H1 de Hde). specialize (H2 de Hde). simpl in *. lia.
Qed.

(** ** Value length (round trip) *)

(** C8. For every decoded element that is neither a container (item tag
    FFFEE000 or VR SQ) nor the pixel-data element, the number of stored raw
    value bytes equals the element's value length: [len(Data) == Len]. *)
Theorem leaf_value_length (bytes : buffer) (n : Z) (explicit : bool)
        (limit : Z) (els : list DataElement) (de : DataElement) :
  parseDataElement bytes n explicit limit = Val els ->
  In de els ->
  TagStr de <> "FFFEE000" -> VRStr de <> "SQ" -> TagStr de <> "7FE00010" ->
  Z.of_nat (length (Data de)) = Len de.
Proof.
  intros Hp Hin Ht Hv _.
  assert (HF : Forall (fun d => TagStr d <> "FFFEE000" -> VRStr d <> "SQ" ->
                                Z.of_nat (length (Data d)) = Len d) els).
  { eapply parseDataElement_Forall; [|exact Hp].
    intros s d n' _ Hit Ht' Hv'.
    apply iteration_element in Hit.
    destruct Hit as (HN & Hs & HL & Hc & _ & _ & _ & Hleaf).
    rewrite (Hleaf Ht' Hv').
    pose proof (valueStart_gt d).
    unfold valueEnd in *.
    rewrite length_sub; rewrite <- ?cap_backing; lia. }
  rewrite List.Forall_forall in HF. exact (HF de Hin Ht Hv).
Qed.

(** ** Containers *)

(** C3 (as amended). For every decode that encounters a container element
    (item tag FFFEE000 or VR SQ), the recursive call over the container's
    byte span is made and returns, but the sequence it returns is dropped:
    the decode result holds the container element itself, with an empty
    value, and none of the container's child elements. *)
Theorem container_children_dropped (bytes : buffer) (n : Z) (explicit : bool)
        (limit : Z) (els : list DataElement) (de : DataElement) :
  parseDataElement bytes n explicit limit = Val els ->
  In de els -> isContainer de ->
  Data de = [] /\
  exists mode children,
    parseDataElement bytes (valueStart de) mode (valueEnd de) = Val children /\
    forall c, In c children -> ~ In c els.
Proof.
  intros Hp Hin Hcont.
  assert (HF : Forall (fun d => isContainer d ->
                Data d = [] /\
                exists mode ch,
                  parseDataElement bytes (valueStart d) mode (valueEnd d) = Val ch)
               els).
  { eapply parseDataElement_Forall; [|exact Hp].
    intros s d n' _ Hit Hc.
    apply iteration_element in Hit.
    destruct Hit as (_ & _ & _ & _ & _ & Hitem & Hsq & _).
    destruct (String.eqb_spec (TagStr d) "FFFEE000") as [Et | Et].
    - destruct (Hitem Et) as (Hd & ch & Hch). eauto.
    - destruct Hc as [Et' | Ev]; [contradiction|].
      destruct (Hsq Et Ev) as (Hd & ch & Hch). eauto. }
  rewrite List.Forall_forall in HF.
  destruct (HF de Hin Hcont) as (Hd & mode & ch & Hch).
  split; [exact Hd|]. exists mode, ch. split; [exact Hch|].
  intros c Hc Hcin.
  pose proof (parseDataElement_bounds _ _ _ _ _ Hch) as Hb.
  rewrite List.Forall_forall in Hb. specialize (Hb c Hc). simpl in Hb.
  pose proof (parseDataElement_bounds _ _ _ _ _ Hp) as Hb'.
  pose proof (parseDataElement_laidOut _ _ _ _ _ Hp) as Hlo.
  assert (HL : Forall (fun d => 0 <= Len d) els).
  { eapply List.Forall_impl; [|exact Hb']. simpl. tauto. }
  destruct (laidOut_disjoint _ _ HL Hlo de c Hin Hcin) as [Hle | Hge].
  - pose proof (valueStart_gt de). lia.
  - lia.
Qed.

Lemma reaches_app (bytes : buffer) (explicit : bool) (limit : Z)
      (n : Z) (pre : list DataElement) (s : Z) (rest : list DataElement) :
  reaches bytes explicit limit n pre s ->
  parseDataElement bytes s explicit limit = Val rest ->
  parseDataElement bytes n explicit limit = Val (pre ++ rest).
Proof.
  intros Hr Hs. induction Hr as [n | n de n' els s Hg Hit Hr IH].
  - exact Hs.
  - rewrite parseDataElement_unfold, Hg, Hit, (IH Hs). reflexivity.
Qed.

(** The decode at [s] after a pass that completes: it yields the element
    of the pass followed by the decode at the next cursor, or the panic of
    that decode. *)
Lemma parseDataElement_after_pass (bytes : buffer) (s : Z) (explicit : bool)
      (limit : Z) (de : DataElement) (next : Z) :
  guard bytes s s limit = true ->
  iteration (parseDataElement bytes) bytes s explicit limit = Val (de, next) ->
  (exists rest, parseDataElement bytes next explicit limit = Val rest /\
                parseDataElement bytes s explicit limit = Val (de :: rest)) \/
  (exists k, parseDataElement bytes next explicit limit = Panic k /\
             parseDataElement bytes s explicit limit = Panic k).
Proof.
  intros Hg Hit.
  rewrite (parseDataElement_unfold bytes s), Hg, Hit.
  destruct (parseDataElement_terminates bytes next explicit limit)
    as [(rest & E) | (k & E)]; rewrite E; cbn [bind]; [left | right]; eauto.
Qed.

(** C7. Recursing into an item element (tag FFFEE000) decodes its span with
    mode = Explicit, and recursing into an element with VR SQ decodes its
    span with mode = Implicit, whatever the mode of the enclosing decode.
    For the pass of the loop at a container element: the pass calls the
    decoder on the value span with that mode, for any decoder [self] put in
    the place of the recursive call, and appends the container; when the
    decode of the span with that mode returns, the decode at the container
    yields the container followed by the decode of what comes behind it (or
    the panic of that decode); when the decode of the span with that mode
    panics, so does the decode at the container. *)
Theorem container_recursion_mode (bytes : buffer) (s : Z) (explicit : bool)
        (limit : Z) (de0 : DataElement) (h : header) (r : Z * bool) :
  guard bytes s s limit = true ->
  readTag bytes s = Val de0 ->
  readLength bytes (s + 4) explicit limit = Val h ->
  resolveLength bytes (TagStr de0) h = Val r ->
  hn h + fst r <= cap bytes ->
  let container :=
    mkDataElement (N de0) (TagGroup de0) (TagElem de0) (TagStr de0) (Name de0)
                  (hVR h) (hVRStr h) (VRLen de0) (fst r) [] (PartOfSQ de0) in
  let next := if snd r then hn h + fst r + 8 else hn h + fst r in
  let recurses := fun mode : bool =>
    (forall self,
        iteration self bytes s explicit limit =
        (self (hn h) mode (hn h + fst r) ;;; Val (container, next))) /\
    (forall ch,
        parseDataElement bytes (hn h) mode (hn h + fst r) = Val ch ->
        (exists rest,
            parseDataElement bytes next explicit limit = Val rest /\
            parseDataElement bytes s explicit limit = Val (container :: rest)) \/
        (exists k,
            parseDataElement bytes next explicit limit = Panic k /\
            parseDataElement bytes s explicit limit = Panic k)) /\
    (forall k,
        parseDataElement bytes (hn h) mode (hn h + fst r) = Panic k ->
        parseDataElement bytes s explicit limit = Panic k) in
  (TagStr de0 = "FFFEE000" -> recurses true) /\
  (TagStr de0 <> "FFFEE000" -> hvr h = "SQ" -> recurses false).
Proof.
  intros Hg Htag Hh Hr Hc container next recurses.
  pose proof (readLength_Val _ _ _ _ _ Hh) as (? & ? & ? & Hlen & _).
  pose proof (resolveLength_Val _ _ _ _ Hlen Hr) as Hr'.
  assert (Hit : forall self,
             iteration self bytes s explicit limit =
             materialize self bytes de0 h (fst r) (snd r)).
  { intros self. unfold iteration. rewrite Htag. cbn [bind]. rewrite Hh.
    cbn [bind]. rewrite Hr. reflexivity. }
  assert (Hrec : forall mode : bool,
             (forall self,
                 iteration self bytes s explicit limit =
                 (self (hn h) mode (hn h + fst r) ;;; Val (container, next))) ->
             recurses mode).
  { intros mode Hcall. split; [exact Hcall|]. split.
    - intros ch Hch. apply parseDataElement_after_pass; [exact Hg|].
      rewrite Hcall, Hch. reflexivity.
    - intros k Hk.
      rewrite (parseDataElement_unfold bytes s), Hg, Hcall, Hk. reflexivity. }
  split.
  - intros Et. apply Hrec. intros self.
    rewrite Hit, materialize_eq by lia.
    assert (Eb : String.eqb (TagStr de0) "FFFEE000" = true)
      by (rewrite Et; apply String.eqb_refl).
    rewrite Eb.
    destruct (self (hn h) true (hn h + fst r)); reflexivity.
  - intros Et Ev. apply Hrec. intros self.
    rewrite Hit, materialize_eq by lia.
    apply String.eqb_neq in Et. rewrite Et, Ev, String.eqb_refl.
    destruct (self (hn h) false (hn h + fst r)); reflexivity.
Qed.

(** C4 (as amended). An element whose tag key is 7FE00010 (pixel data)
    and whose VR is not SQ is decoded like any other leaf element, whatever
    its declared length.  With [r] the length that lines 310-337 resolve (the
    declared length itself unless it is the undefined-length mark, else the
    distance to the delimiter that the scan finds): when the value span
    ends inside the capacity, the pass stores the raw bytes of the span in
    the element, [Len] of them, and moves the cursor past them (and past
    the eight delimiter bytes after a scan); when the span ends beyond the
    capacity, the pass panics. *)
Theorem pixel_data_stored (self : Z -> bool -> Z -> outcome (list DataElement))
        (bytes : buffer) (s : Z) (explicit : bool) (limit : Z)
        (de0 : DataElement) (h : header) (r : Z * bool) :
  readTag bytes s = Val de0 ->
  TagStr de0 = "7FE00010" ->
  readLength bytes (s + 4) explicit limit = Val h ->
  hvr h <> "SQ" ->
  resolveLength bytes (TagStr de0) h = Val r ->
  let data := sub (hn h) (hn h + fst r) (backing bytes) in
  let next := if snd r then hn h + fst r + 8 else hn h + fst r in
  (hlen h <> undefinedLength -> r = (hlen h, false)) /\
  (hn h + fst r <= cap bytes ->
   iteration self bytes s explicit limit =
   Val (mkDataElement (N de0) (TagGroup de0) (TagElem de0) (TagStr de0)
                      (Name de0) (hVR h) (hVRStr h) (VRLen de0) (fst r) data
                      (PartOfSQ de0),
        next) /\
   Z.of_nat (length data) = fst r) /\
  (cap bytes < hn h + fst r ->
   iteration self bytes s explicit limit = Panic OutOfRange).
Proof.
  intros Htag Et Hh Hv Hr data next.
  pose proof (readLength_Val _ _ _ _ _ Hh) as (Hn0 & Hhn & Hcap & Hlen & _).
  pose proof (resolveLength_Val _ _ _ _ Hlen Hr) as Hr'.
  assert (Hit : iteration self bytes s explicit limit =
                materialize self bytes de0 h (fst r) (snd r)).
  { unfold iteration. rewrite Htag. cbn [bind]. rewrite Hh. cbn [bind].
    rewrite Hr. reflexivity. }
  apply String.eqb_neq in Hv.
  split; [|split].
  - intros Hl. unfold resolveLength in Hr.
    apply Z.eqb_neq in Hl. rewrite Hl in Hr. congruence.
  - intros Hc. rewrite Hit, materialize_eq by lia.
    assert (Eb : String.eqb (TagStr de0) "FFFEE000" = false)
      by (rewrite Et; reflexivity).
    rewrite Eb, Hv. cbn [bind].
    split; [reflexivity|].
    unfold data. rewrite length_sub; rewrite <- ?cap_backing; lia.
  - intros Hc. rewrite Hit. unfold materialize.
    destruct (slice_cases bytes (hn h) (hn h + fst r))
      as [(_ & _ & Hle & _) | (_ & E)]; [lia|].
    rewrite E. reflexivity.
Qed.

(** ** Length and VR resolution *)

Lemma longForm_In (vr : string) : longForm vr = true <-> In vr longVRs.
Proof.
  unfold longForm, longVRs. rewrite !orb_true_iff, !String.eqb_eq. simpl.
  intuition congruence.
Qed.

Lemma skipn_cons_nth (l : list byte) :
  forall (i : nat) (x : byte),
    nth_error l i = Some x -> skipn i l = x :: skipn (S i) l.
Proof.
  induction l as [|a l IH]; intros [|i] x H; simpl in *; try discriminate.
  - inversion H; reflexivity.
  - apply IH. exact H.
Qed.

(** Two visible bytes read by index are the two bytes of the slice. *)
Lemma index_pair (bytes : buffer) (i : Z) :
  0 <= i -> i + 2 <= len bytes ->
  exists b0 b1,
    sub i (i + 2) (backing bytes) = [b0; b1] /\
    index bytes i = Val b0 /\ index bytes (i + 1) = Val b1.
Proof.
  intros H0 H2. unfold len in H2.
  destruct (nth_error (visible bytes) (Z.to_nat i)) as [b0|] eqn:E0.
  2:{ apply nth_error_None in E0. lia. }
  destruct (nth_error (visible bytes) (S (Z.to_nat i))) as [b1|] eqn:E1.
  2:{ apply nth_error_None in E1. lia. }
  exists b0, b1. split; [|split].
  - unfold sub, backing. replace (Z.to_nat (i + 2 - i)) with 2%nat by lia.
    assert (nth_error (visible bytes ++ spare bytes) (Z.to_nat i) = Some b0)
      by (rewrite nth_error_app1; [exact E0 | lia]).
    assert (nth_error (visible bytes ++ spare bytes) (S (Z.to_nat i)) = Some b1)
      by (rewrite nth_error_app1; [exact E1 | lia]).
    rewrite (skipn_cons_nth _ _ b0) by assumption.
    rewrite (skipn_cons_nth _ _ b1) by assumption.
    reflexivity.
  - unfold index, len. rewrite E0.
    destruct (0 <=? i) eqn:A, (i <? Z.of_nat (length (visible bytes))) eqn:B;
      simpl; try reflexivity; lia.
  - unfold index, len. replace (Z.to_nat (i + 1)) with (S (Z.to_nat i)) by lia.
    rewrite E1.
    destruct (0 <=? i + 1) eqn:A,
             (i + 1 <? Z.of_nat (length (visible bytes))) eqn:B;
      simpl; try reflexivity; lia.
Qed.

Lemma b2z_inj (a b : byte) : b2z a = b2z b -> a = b.
Proof.
  unfold b2z. intros H.
  assert (E : Byte.to_N a = Byte.to_N b) by lia.
  pose proof (Byte.of_to_N a) as Ha. rewrite E, Byte.of_to_N in Ha.
  congruence.
Qed.

Lemma b2z_zero (b : byte) : (b2z b =? 0) = true <-> b = x00.
Proof.
  split.
  - intros H. apply Z.eqb_eq in H. apply b2z_inj. exact H.
  - intros ->. reflexivity.
Qed.

(** C5. The length field is resolved from the mode and the VR.  [n] is the
    offset just after the tag.  In implicit mode no VR bytes are consumed and
    the length is the 4-byte little-endian value at [n].  In explicit mode,
    after the 2-byte VR code, a VR in [longVRs] makes the decoder skip 2
    reserved bytes and read the 4-byte little-endian length at [n+4]; any
    other VR makes it read the 2-byte little-endian length at [n+2],
    zero-extended to 32 bits. *)
Theorem length_field_resolution (bytes : buffer) (n limit : Z) :
  0 <= n ->
  (n + 4 <= cap bytes ->
   readLength bytes n false limit =
   Val (mkHeader [] "" "" (le_value (sub n (n + 4) (backing bytes))) (n + 4))) /\
  (forall vr,
      gostring (sub n (n + 2) (backing bytes)) = vr ->
      is_Some (vri_VR !! vr) ->
      (In vr longVRs -> n + 8 <= cap bytes ->
       readLength bytes n true limit =
       Val (mkHeader (sub n (n + 2) (backing bytes)) vr vr
                     (le_value (sub (n + 4) (n + 8) (backing bytes))) (n + 8))) /\
      (~ In vr longVRs -> n + 4 <= cap bytes ->
       readLength bytes n true limit =
       Val (mkHeader (sub n (n + 2) (backing bytes)) vr vr
                     (le_value (sub (n + 2) (n + 4) (backing bytes)))
                     (n + 4)) /\
       le_value (sub (n + 2) (n + 4) (backing bytes)) < 2 ^ 16)).
Proof.
  intros Hn. split.
  - intros Hc. unfold readLength.
    rewrite !slice_ok by lia. simpl.
    rewrite Uint32_len by (rewrite length_sub; rewrite <- ?cap_backing; lia).
    reflexivity.
  - intros vr Hvr [e He]. split.
    + intros Hin Hc. apply longForm_In in Hin. unfold readLength.
      rewrite !slice_ok by lia. simpl. rewrite Hvr, He. simpl. rewrite Hin.
      replace (n + 2 + 2) with (n + 4) by lia.
      replace (n + 4 + 4) with (n + 8) by lia.
      rewrite !slice_ok by lia. simpl.
      rewrite Uint32_len by (rewrite length_sub; rewrite <- ?cap_backing; lia).
      reflexivity.
    + intros Hin Hc.
      assert (Hlf : longForm vr = false).
      { destruct (longForm vr) eqn:E; [|reflexivity].
        apply longForm_In in E. contradiction. }
      assert (Hs : slice bytes (n + 2) (n + 2 + 2) =
                   Val (sub (n + 2) (n + 2 + 2) (backing bytes)))
        by (apply slice_ok; lia).
      destruct (Uint16_slice _ _ _ Hs) as (E16 & Hb).
      replace (n + 2 + 2) with (n + 4) in * by lia.
      split; [|change (2 ^ 16) with 65536; lia].
      unfold readLength.
      rewrite (slice_ok bytes n (n + 2)) by lia. simpl. rewrite Hvr, He. simpl.
      rewrite Hlf. replace (n + 2 + 2) with (n + 4) by lia.
      rewrite Hs. simpl. rewrite E16. simpl.
      unfold uint32. rewrite Z.mod_small by lia. reflexivity.
Qed.

(** C6. In explicit mode, for an element at [s] whose 2-byte VR code is
    not in the VR dictionary.  If both VR bytes are zero, the element is
    decoded with the blank VR code "00", the 16-bit length of the short
    form and (unless it is an item) the bytes of its value, and decoding
    continues: the decode at [s] yields this element followed by the decode
    of what comes behind it (or the panic of that decode), and a decode
    whose loop arrives at [s] returns what it has accumulated, then this
    element, then the elements behind it.  For any other unknown code the
    decode of this level stops and returns normally: the loop returns the
    elements it has accumulated, the decode at [s] returns the empty list,
    and a decode whose loop arrives at [s] returns the elements decoded on
    the way.  [limit <= cap bytes] holds for [ProcessFile] and for every
    recursive call. *)
Theorem unknown_VR_policy (bytes : buffer) (s limit : Z) :
  0 <= s -> s + 6 <= len bytes ->
  guard bytes s s limit = true ->
  vri_VR !! gostring (sub (s + 4) (s + 6) (backing bytes)) = None ->
  (sub (s + 4) (s + 6) (backing bytes) = [x00; x00] ->
   let L := le_value (sub (s + 6) (s + 8) (backing bytes)) in
   s + 8 + L <= cap bytes ->
   (tagString (sub s (s + 4) (backing bytes)) = Val "FFFEE000" ->
    exists ch, parseDataElement bytes (s + 8) true (s + 8 + L) = Val ch) ->
   exists de,
     N de = s /\
     tagString (sub s (s + 4) (backing bytes)) = Val (TagStr de) /\
     VR de = [x00; x00] /\ VRStr de = "00" /\ Len de = L /\
     Data de = (if String.eqb (TagStr de) "FFFEE000" then []
                else sub (s + 8) (s + 8 + L) (backing bytes)) /\
     ((exists rest,
          parseDataElement bytes (s + 8 + L) true limit = Val rest /\
          parseDataElement bytes s true limit = Val (de :: rest)) \/
      (exists k,
          parseDataElement bytes (s + 8 + L) true limit = Panic k /\
          parseDataElement bytes s true limit = Panic k)) /\
     (forall n pre rest,
         reaches bytes true limit n pre s ->
         parseDataElement bytes (s + 8 + L) true limit = Val rest ->
         parseDataElement bytes n true limit = Val (pre ++ de :: rest))) /\
  (sub (s + 4) (s + 6) (backing bytes) <> [x00; x00] -> limit <= cap bytes ->
   (forall fuel elements,
       parseLoop (S fuel) bytes s true limit elements = Val elements) /\
   parseDataElement bytes s true limit = Val [] /\
   (forall n pre,
       reaches bytes true limit n pre s ->
       parseDataElement bytes n true limit = Val pre)).
Proof.
  intros Hs Hl Hg Hvr.
  pose proof (len_le_cap bytes) as Hcap.
  destruct (index_pair bytes (s + 4)) as (b0 & b1 & Hsub & Hi0 & Hi1);
    [lia | lia |].
  replace (s + 4 + 2) with (s + 6) in * by lia.
  replace (s + 4 + 1) with (s + 5) in * by lia.
  destruct (readTag_ok bytes s) as (de0 & Htag); [lia | lia |].
  split.
  - intros Hz L Hc Hch. rewrite Hz in Hsub. inversion Hsub; subst b0 b1.
    pose proof (le_value_bound (sub (s + 6) (s + 8) (backing bytes))) as HL0.
    fold L in HL0.
    assert (Hsl : slice bytes (s + 6) (s + 6 + 2) =
                  Val (sub (s + 6) (s + 6 + 2) (backing bytes)))
      by (apply slice_ok; lia).
    destruct (Uint16_slice _ _ _ Hsl) as (E16 & Hb).
    replace (s + 6 + 2) with (s + 8) in * by lia. fold L in E16, Hb.
    set (h := mkHeader [x00; x00] "00" "00" L (s + 8)).
    assert (Hh : readLength bytes (s + 4) true limit = Val h).
    { unfold readLength.
      replace (s + 4 + 2) with (s + 6) by lia.
      rewrite (slice_ok bytes (s + 4) (s + 6)) by lia. cbn [bind].
      rewrite Hvr, Hi0. cbn [bind]. rewrite Z.eqb_refl.
      replace (s + 4 + 1) with (s + 5) by lia. rewrite Hi1. cbn [bind].
      rewrite Z.eqb_refl. cbn [bind].
      change (longForm "00") with false. cbn iota.
      replace (s + 6 + 2) with (s + 8) by lia.
      rewrite Hsl. cbn [bind]. rewrite E16. cbn [bind].
      unfold uint32. rewrite Z.mod_small by lia.
      rewrite Hz. reflexivity. }
    pose proof (readTag_Val _ _ _ Htag) as (_ & _ & HN & Hkey & _).
    set (data := if String.eqb (TagStr de0) "FFFEE000" then []
                 else sub (s + 8) (s + 8 + L) (backing bytes)).
    set (de := mkDataElement (N de0) (TagGroup de0) (TagElem de0) (TagStr de0)
                             (Name de0) [x00; x00] "00" (VRLen de0) L data
                             (PartOfSQ de0)).
    assert (Hit : iteration (parseDataElement bytes) bytes s true limit =
                  Val (de, s + 8 + L)).
    { unfold iteration. rewrite Htag. cbn [bind]. rewrite Hh. cbn [bind].
      unfold resolveLength.
      assert (Hne : (hlen h =? undefinedLength) = false)
        by (apply Z.eqb_neq; unfold undefinedLength, h; cbn [hlen]; lia).
      rewrite Hne. cbn [bind fst snd].
      rewrite materialize_eq by (unfold h; cbn [hn hlen]; lia).
      unfold h, de, data. cbn [hn hlen hvr hVR hVRStr].
      destruct (String.eqb (TagStr de0) "FFFEE000") eqn:Ei.
      - apply String.eqb_eq in Ei. rewrite Ei in Hkey.
        destruct (Hch Hkey) as (ch & ->). reflexivity.
      - reflexivity. }
    exists de. unfold de at 1 2 3 4 5 6. cbn [N TagStr VR VRStr Len Data].
    split; [exact HN|]. split; [exact Hkey|].
    split; [reflexivity|]. split; [reflexivity|]. split; [reflexivity|].
    split; [reflexivity|]. split.
    + apply parseDataElement_after_pass; assumption.
    + intros n pre rest Hreach Hrest.
      apply (reaches_app _ _ _ _ _ _ _ Hreach).
      rewrite (parseDataElement_unfold bytes s), Hg, Hit, Hrest. reflexivity.
  - intros Hnz Hc. apply guard_true in Hg as Hg'.
    assert (Hret : readLength bytes (s + 4) true limit = Return).
    { unfold readLength.
      replace (s + 4 + 2) with (s + 6) by lia.
      rewrite (slice_ok bytes (s + 4) (s + 6)) by lia. cbn [bind].
      rewrite Hvr, Hi0. cbn [bind].
      replace (s + 4 + 1) with (s + 5) by lia.
      rewrite (slice_ok bytes (s + 4) limit) by lia.
      destruct (b2z b0 =? 0) eqn:E0; [|reflexivity].
      rewrite Hi1. cbn [bind].
      destruct (b2z b1 =? 0) eqn:E1; [|reflexivity].
      apply b2z_zero in E0, E1. subst. rewrite Hsub in Hnz. contradiction. }
    assert (Hloop : forall fuel elements,
               parseLoop (S fuel) bytes s true limit elements = Val elements).
    { intros fuel elements. cbn [parseLoop]. rewrite Hg.
      unfold iteration. rewrite Htag. cbn [bind]. rewrite Hret. reflexivity. }
    assert (Hstop : parseDataElement bytes s true limit = Val [])
      by (unfold parseDataElement, parseFuel; apply Hloop).
    split; [exact Hloop|]. split; [exact Hstop|].
    intros n pre Hreach.
    rewrite (reaches_app _ _ _ _ _ _ _ Hreach Hstop), app_nil_r. reflexivity.
Qed.

(** ** Tag keys and the delimiter scan *)

Lemma hexval_hexdigit (d : Z) :
  0 <= d < 16 -> hexval (upper_ascii (hexdigit d)) = d.
Proof.
  intros Hd. rewrite <- (Z2Nat.id d) by lia.
  assert (Hn : (Z.to_nat d < 16)%nat) by lia.
  revert Hn. generalize (Z.to_nat d). intros k Hk.
  do 16 (destruct k as [|k]; [reflexivity|]). lia.
Qed.

(** The two hexadecimal digits of a byte determine the byte. *)
Lemma hex_pair_inj (a b : byte) :
  upper_ascii (hexdigit (b2z a / 16)) = upper_ascii (hexdigit (b2z b / 16)) ->
  upper_ascii (hexdigit (b2z a mod 16)) = upper_ascii (hexdigit (b2z b mod 16)) ->
  a = b.
Proof.
  intros Hhi Hlo. pose proof (b2z_range a). pose proof (b2z_range b).
  apply (f_equal hexval) in Hhi, Hlo.
  rewrite !hexval_hexdigit in Hhi
    by (split; [apply Z.div_pos | apply Z.div_lt_upper_bound]; lia).
  rewrite !hexval_hexdigit in Hlo by (apply Z.mod_pos_bound; lia).
  apply b2z_inj.
  rewrite (Z.div_mod (b2z a) 16), (Z.div_mod (b2z b) 16) by lia. lia.
Qed.

(** Tag key symmetry: the key determines the four wire bytes. *)
Lemma tagString_inj (w w' : list byte) :
  length w = 4%nat -> length w' = 4%nat ->
  tagString w = tagString w' -> w = w'.
Proof.
  intros Hw Hw' H.
  destruct (list_len4 w Hw) as (a & b & c & d & ->).
  destruct (list_len4 w' Hw') as (a' & b' & c' & d' & ->).
  unfold tagString in H. cbn in H.
  injection H as Hb1 Hb2 Ha1 Ha2 Hd1 Hd2 Hc1 Hc2.
  rewrite (hex_pair_inj a a'), (hex_pair_inj b b'),
          (hex_pair_inj c c'), (hex_pair_inj d d'); auto.
Qed.

Lemma tagString_is (w target : list byte) (k key : string) :
  length w = 4%nat -> length target = 4%nat ->
  tagString target = Val key ->
  tagString w = Val k ->
  String.eqb k key = true <-> w = target.
Proof.
  intros Hw Ht Hkey Hk. rewrite String.eqb_eq. split.
  - intros ->. apply tagString_inj; congruence.
  - intros ->. congruence.
Qed.

(** The two tests of the scan loop recognise exactly the delimiters. *)
Lemma scan_test (bytes : buffer) (tagStr : string) (q : Z) (k : string) :
  0 <= q -> q + 4 <= cap bytes ->
  tagString (sub q (q + 4) (backing bytes)) = Val k ->
  (String.eqb tagStr "FFFEE000" && String.eqb k "FFFEE00D") ||
  String.eqb k "FFFEE0DD" = true <->
  delimiterAt bytes tagStr q.
Proof.
  intros H0 Hc Hk.
  assert (Hl : length (sub q (q + 4) (backing bytes)) = 4%nat)
    by (rewrite length_sub; rewrite <- ?cap_backing; lia).
  unfold delimiterAt.
  rewrite orb_true_iff, andb_true_iff, String.eqb_eq.
  rewrite (tagString_is _ itemDelimiter k "FFFEE00D" Hl eq_refl eq_refl Hk).
  rewrite (tagString_is _ sequenceDelimiter k "FFFEE0DD" Hl eq_refl eq_refl Hk).
  reflexivity.
Qed.

(** The scan stops at the first offset at which a delimiter starts. *)
Lemma scanDelimiter_finds (bytes : buffer) (tagStr : string) (n p : Z) :
  delimiterAt bytes tagStr p -> p + 4 <= cap bytes ->
  forall (fuel : nat) (m : Z),
    0 <= m <= p -> (Z.to_nat (p - m) < fuel)%nat ->
    (forall q, m <= q < p -> ~ delimiterAt bytes tagStr q) ->
    p = m \/ p < len bytes ->
    scanDelimiter fuel bytes tagStr n m = Val p.
Proof.
  intros Hp Hc. induction fuel as [|fuel IH]; intros m Hm Hf Hno Hin; [lia|].
  cbn [scanDelimiter]. rewrite slice_ok by lia. cbn [bind].
  destruct (tagString_len (sub m (m + 4) (backing bytes))) as (k & Hk).
  { rewrite length_sub; rewrite <- ?cap_backing; lia. }
  rewrite Hk. cbn [bind].
  pose proof (scan_test bytes tagStr m k ltac:(lia) ltac:(lia) Hk) as Ht.
  destruct (Z.eq_dec m p) as [-> | Hne].
  - apply Ht in Hp. apply orb_true_iff in Hp. destruct Hp as [-> | Hp].
    + reflexivity.
    + rewrite Hp. destruct (_ && _); reflexivity.
  - assert (Hnot : ~ delimiterAt bytes tagStr m) by (apply Hno; lia).
    rewrite <- Ht in Hnot. apply not_true_is_false in Hnot.
    apply orb_false_iff in Hnot. destruct Hnot as (-> & ->).
    destruct (len bytes <=? m + 1) eqn:E; [apply Z.leb_le in E; lia|].
    apply IH; try lia. intros q Hq. apply Hno. lia.
Qed.

(** C2 (as amended). For an element whose declared length is the sentinel
    0xFFFFFFFF the decoder scans forward one byte at a time from the value
    start [hn h] for a delimiter tag (FFFEE00D only when the element's tag
    is FFFEE000, FFFEE0DD always); the scan is bounded by the buffer and
    does not consult the caller-supplied limit.  When [p] is the first
    offset at which such a delimiter starts, [p] lies inside the buffer and
    less than 2^32 bytes after the value start, the element's value length
    is the distance [p - hn h] and the cursor is left at [p + 8], exactly 8
    bytes past the delimiter's start. *)
Theorem undefined_length_closure
        (self : Z -> bool -> Z -> outcome (list DataElement))
        (bytes : buffer) (s : Z) (explicit : bool) (limit : Z)
        (de0 : DataElement) (h : header) (p : Z) :
  readTag bytes s = Val de0 ->
  readLength bytes (s + 4) explicit limit = Val h ->
  hlen h = undefinedLength ->
  hn h <= p ->
  delimiterAt bytes (TagStr de0) p ->
  (forall q, hn h <= q < p -> ~ delimiterAt bytes (TagStr de0) q) ->
  p + 4 <= cap bytes ->
  p = hn h \/ p < len bytes ->
  p - hn h < 2 ^ 32 ->
  resolveLength bytes (TagStr de0) h = Val (p - hn h, true) /\
  iteration self bytes s explicit limit =
  (data <- (if String.eqb (TagStr de0) "FFFEE000"
            then (self (hn h) true p ;;; Val [])
            else if String.eqb (hvr h) "SQ"
            then (self (hn h) false p ;;; Val [])
            else Val (sub (hn h) p (backing bytes))) ;;
   Val (mkDataElement (N de0) (TagGroup de0) (TagElem de0) (TagStr de0)
                      (Name de0) (hVR h) (hVRStr h) (VRLen de0) (p - hn h)
                      data (PartOfSQ de0),
        p + 8)).
Proof.
  intros Htag Hh Hu Hvp Hp Hfirst Hc Hin H32.
  pose proof (readLength_Val _ _ _ _ _ Hh) as (? & ? & ? & _).
  assert (Hr : resolveLength bytes (TagStr de0) h = Val (p - hn h, true)).
  { unfold resolveLength. rewrite Hu. cbn [Z.eqb Pos.eqb undefinedLength].
    rewrite (scanDelimiter_finds bytes (TagStr de0) (hn h) p Hp Hc);
      [| lia | unfold scanFuel; lia | exact Hfirst | exact Hin].
    cbn [bind]. unfold uint32. rewrite Z.mod_small by lia. reflexivity. }
  split; [exact Hr|].
  unfold iteration. rewrite Htag. cbn [bind]. rewrite Hh. cbn [bind].
  rewrite Hr. cbn [bind fst snd].
  rewrite materialize_eq by lia.
  replace (hn h + (p - hn h)) with p by lia. reflexivity.
Qed.

(** ** The value formatter *)

Lemma dslice_ok (d : list byte) (lo hi : Z) :
  0 <= lo -> lo <= hi -> hi <= Z.of_nat (length d) ->
  dslice d lo hi = Val (sub lo hi d).
Proof.
  intros. unfold dslice.
  destruct (0 <=? lo) eqn:A, (lo <=? hi) eqn:B,
           (hi <=? Z.of_nat (length d)) eqn:C; simpl; try reflexivity; lia.
Qed.

Lemma dindex_ok (d : list byte) (i : Z) :
  0 <= i -> i < Z.of_nat (length d) ->
  exists x, dindex d i = Val x /\ sub i (i + 1) d = [x].
Proof.
  intros H0 H1.
  destruct (nth_error d (Z.to_nat i)) as [x|] eqn:E.
  2:{ apply nth_error_None in E. lia. }
  exists x. split.
  - unfold dindex. rewrite E.
    destruct (0 <=? i) eqn:A, (i <? Z.of_nat (length d)) eqn:B;
      simpl; try reflexivity; lia.
  - unfold sub. replace (Z.to_nat (i + 1 - i)) with 1%nat by lia.
    rewrite (skipn_cons_nth _ _ _ E). reflexivity.
Qed.

(** The last byte of a non-empty value and the slice before it. *)
Lemma last_byte (r : list byte) (x : byte) :
  let d := r ++ [x] in
  dindex d (Z.of_nat (length d) - 1) = Val x /\
  dslice d 0 (Z.of_nat (length d) - 1) = Val r.
Proof.
  intros d. subst d. rewrite length_app. cbn [length].
  replace (Z.of_nat (length r + 1) - 1) with (Z.of_nat (length r)) by lia.
  split.
  - unfold dindex. rewrite Nat2Z.id.
    rewrite nth_error_app2 by apply Nat.le_refl.
    rewrite Nat.sub_diag, length_app. cbn [length nth_error].
    rewrite (proj2 (Z.leb_le _ _)), (proj2 (Z.ltb_lt _ _)) by lia.
    reflexivity.
  - rewrite dslice_ok by (rewrite ?length_app; cbn [length]; lia).
    unfold sub.
    replace (Z.to_nat (Z.of_nat (length r) - 0)) with (length r + 0)%nat by lia.
    change (skipn (Z.to_nat 0) (r ++ [x])) with (r ++ [x]).
    rewrite List.firstn_app_2. cbn [firstn]. rewrite app_nil_r. reflexivity.
Qed.

Lemma read1_spec (d : list byte) (n : Z) :
  0 <= n -> n + 1 <= Z.of_nat (length d) ->
  read1 d n = Val (le_value (sub n (n + 1) d)).
Proof.
  intros H0 H1. unfold read1.
  destruct (dindex_ok d n H0 ltac:(lia)) as (x & -> & ->).
  cbn [bind le_value]. f_equal. lia.
Qed.

Lemma read2_spec (d : list byte) (n : Z) :
  0 <= n -> n + 2 <= Z.of_nat (length d) ->
  read2 d n = Val (le_value (sub n (n + 2) d)).
Proof.
  intros H0 H1. unfold read2. rewrite dslice_ok by lia. cbn [bind].
  apply Uint16_len. rewrite length_sub; lia.
Qed.

Lemma read4_spec (d : list byte) (n : Z) :
  0 <= n -> n + 4 <= Z.of_nat (length d) ->
  read4 d n = Val (le_value (sub n (n + 4) d)).
Proof.
  intros H0 H1. unfold read4. rewrite dslice_ok by lia. cbn [bind].
  apply Uint32_len. rewrite length_sub; lia.
Qed.

Lemma append_assoc (a b c : string) : (a +:+ b) +:+ c = a +:+ (b +:+ c).
Proof.
  induction a as [|x a IH]; [reflexivity|].
  change (String x ((a +:+ b) +:+ c) = String x (a +:+ (b +:+ c))).
  f_equal. exact IH.
Qed.

Lemma append_empty_r (a : string) : a +:+ "" = a.
Proof.
  induction a as [|x a IH]; [reflexivity|].
  change (String x (a +:+ "") = String x a). f_equal. exact IH.
Qed.

(** The loop renders the complete groups from offset [n] on, each followed
    by a space, after what has been rendered so far. *)
Lemma renderLoop_spec (w : nat) (read : list byte -> Z -> outcome Z)
      (d : list byte) :
  (1 <= w)%nat ->
  (forall n, 0 <= n -> n + Z.of_nat w <= Z.of_nat (length d) ->
             read d n = Val (le_value (sub n (n + Z.of_nat w) d))) ->
  forall (fuel : nat) (n : nat) (s : string) (g : nat),
    (n <= length d)%nat -> (length d - n < fuel)%nat -> (length d - n <= g)%nat ->
    renderLoop fuel (Z.of_nat w) read d (Z.of_nat n) s =
    Val (s +:+ spaced (map (fun x => decimal (le_value x))
                           (groups g w (skipn n d)))).
Proof.
  intros Hw Hread.
  induction fuel as [|fuel IH]; intros n s g Hn Hf Hg; [lia|].
  cbn [renderLoop].
  destruct (Z.of_nat n + Z.of_nat w <=? Z.of_nat (length d)) eqn:E.
  - apply Z.leb_le in E. rewrite Hread by lia. cbn [bind].
    destruct g as [|g]; [lia|]. cbn [groups].
    assert (Hle : (w <=? length (skipn n d))%nat = true)
      by (apply Nat.leb_le; rewrite length_skipn; lia).
    rewrite Hle. cbn [map spaced].
    replace (Z.of_nat n + Z.of_nat w) with (Z.of_nat (n + w)) by lia.
    rewrite (IH (n + w)%nat _ g) by lia.
    rewrite skipn_skipn, (Nat.add_comm w n).
    unfold Sprintf_d_sp, sub.
    replace (Z.to_nat (Z.of_nat (n + w) - Z.of_nat n)) with w by lia.
    rewrite Nat2Z.id. rewrite !append_assoc. reflexivity.
  - apply Z.leb_gt in E.
    assert (Hgr : groups g w (skipn n d) = []).
    { destruct g as [|g]; [reflexivity|]. cbn [groups].
      assert (Hle : (w <=? length (skipn n d))%nat = false)
        by (apply Nat.leb_gt; rewrite length_skipn; lia).
      rewrite Hle. reflexivity. }
    rewrite Hgr. cbn [map spaced]. rewrite append_empty_r. reflexivity.
Qed.

Lemma renderLoop_tokens (w : nat) (read : list byte -> Z -> outcome Z)
      (d : list byte) :
  (1 <= w)%nat ->
  (forall n, 0 <= n -> n + Z.of_nat w <= Z.of_nat (length d) ->
             read d n = Val (le_value (sub n (n + Z.of_nat w) d))) ->
  renderLoop (renderFuel d) (Z.of_nat w) read d 0 "" = Val (spaced (tokens w d)).
Proof.
  intros Hw Hread.
  pose proof (renderLoop_spec w read d Hw Hread (renderFuel d) 0%nat ""
                              (length d)) as H.
  change (Z.of_nat 0) with 0 in H.
  rewrite H; unfold renderFuel; try lia. reflexivity.
Qed.

Lemma flagSet_cases (vr key : string) :
  (lookup2 vri_VR vr key = None /\ flagSet vr key = Val false) \/
  (exists b, lookup2 vri_VR vr key = Some (IBool b) /\ flagSet vr key = Val b) \/
  ((exists v, lookup2 vri_VR vr key = Some v /\ forall b, v <> IBool b) /\
   flagSet vr key = Panic BadAssertion).
Proof.
  unfold flagSet. destruct (lookup2 vri_VR vr key) as [[b|z|s]|].
  - right; left. eauto.
  - right; right. split; [eexists; split; [reflexivity|discriminate] | reflexivity].
  - right; right. split; [eexists; split; [reflexivity|discriminate] | reflexivity].
  - left. auto.
Qed.

(** C9 (as amended). For an element to which the transfer-syntax special
    case does not apply, the formatter renders by VR class: a VR flagged
    fixed-size with element width [w] in {1,2,4} renders the complete
    [w]-byte groups of the raw bytes as little-endian unsigned integers in
    decimal, each token followed by one space, with no partial trailing
    group; a VR flagged fixed-size with another width renders the raw bytes
    verbatim; a VR that is not fixed-size and is flagged padded renders a
    non-empty value as text without its final byte when that byte is null;
    any other VR renders the raw bytes as text verbatim. *)
Theorem value_rendering (de : DataElement) :
  transferSyntax de = Val None ->
  (forall w : nat,
      fixedVR (VRStr de) (Z.of_nat w) -> w = 1%nat \/ w = 2%nat \/ w = 4%nat ->
      stringData de = Val (spaced (tokens w (Data de)))) /\
  (forall z : Z,
      fixedVR (VRStr de) z -> z <> 1 -> z <> 2 -> z <> 4 ->
      stringData de = Val (gostring (Data de))) /\
  (paddedVR (VRStr de) ->
   (forall r, Data de = r ++ [x00] -> stringData de = Val (gostring r)) /\
   (forall r x, Data de = r ++ [x] -> x <> x00 ->
                stringData de = Val (gostring (Data de)))) /\
  (plainVR (VRStr de) -> stringData de = Val (gostring (Data de))).
Proof.
  intros Hts. unfold stringData. rewrite Hts. cbn [bind].
  split; [|split; [|split]].
  - intros w (Hf & Hl) Hw. unfold flagSet. rewrite Hf, Hl. cbn [assertBool assertInt bind].
    destruct Hw as [-> | [-> | ->]]; cbn [Z.of_nat Pos.of_succ_nat Pos.succ Z.eqb Pos.eqb].
    + apply (renderLoop_tokens 1 read1); [lia|]. apply read1_spec.
    + apply (renderLoop_tokens 2 read2); [lia|]. apply read2_spec.
    + apply (renderLoop_tokens 4 read4); [lia|]. apply read4_spec.
  - intros z (Hf & Hl) H1 H2 H4. unfold flagSet. rewrite Hf, Hl.
    cbn [assertBool assertInt bind].
    apply Z.eqb_neq in H1, H2, H4. rewrite H1, H2, H4. reflexivity.
  - intros (Hnf & Hp).
    assert (Hfix : flagSet (VRStr de) "fixed" = Val false).
    { unfold flagSet. destruct Hnf as [-> | ->]; reflexivity. }
    assert (Hpad : flagSet (VRStr de) "padded" = Val true).
    { unfold flagSet. rewrite Hp. reflexivity. }
    rewrite Hfix. cbn [bind]. rewrite Hpad. cbn [bind]. split.
    + intros r E. rewrite E. destruct (last_byte r x00) as (Hi & Hs).
      rewrite Hi. cbn [bind]. rewrite Hs. reflexivity.
    + intros r x E Hx. rewrite E. destruct (last_byte r x) as (Hi & Hs).
      rewrite Hi. cbn [bind].
      destruct (b2z x =? 0) eqn:Ez; [|reflexivity].
      apply b2z_zero in Ez. contradiction.
  - intros (Hnf & Hp).
    assert (Hfix : flagSet (VRStr de) "fixed" = Val false).
    { unfold flagSet. destruct Hnf as [-> | ->]; reflexivity. }
    assert (Hpad : flagSet (VRStr de) "padded" = Val false).
    { unfold flagSet. destruct Hp as [-> | ->]; reflexivity. }
    rewrite Hfix. cbn [bind]. rewrite Hpad. reflexivity.
Qed.

(** ** Bounds safety of the formatter *)

Lemma transferSyntax_result (de : DataElement) :
  Data de <> [] ->
  (exists o, transferSyntax de = Val o) \/
  (transferSyntax de = Panic BadAssertion /\ ~ TS_typed).
Proof.
  intros Hd. destruct (exists_last Hd) as (r & x & E).
  unfold transferSyntax.
  destruct (String.eqb (TagStr de) "00020010"); [|eauto].
  rewrite E. destruct (last_byte r x) as (Hi & Hs).
  rewrite Hi. cbn [bind].
  assert (Hstr : exists k,
             (if b2z x =? 0
              then d <- dslice (r ++ [x]) 0 (Z.of_nat (length (r ++ [x])) - 1) ;;
                   Val (gostring d)
              else Val (gostring (r ++ [x]))) = Val k).
  { destruct (b2z x =? 0); [rewrite Hs|]; eauto. }
  destruct Hstr as (k & ->). cbn [bind].
  destruct (ts_TS !! k) as [tsStr|] eqn:Ets; [|eauto].
  destruct (tsStr !! "name") as [[b|z|s]|] eqn:En; cbn [assertString bind];
    try (left; eauto; fail);
    right; (split; [reflexivity|]); intros Ht;
    destruct (Ht _ _ Ets) as (s' & Hs'); congruence.
Qed.

(** The branch of [stringData] for a VR that is not fixed-size. *)
Ltac padded_branch de Hd :=
  let Hl := fresh "Hl" in
  let b := fresh "b" in
  let v := fresh "v" in
  let Hv := fresh "Hv" in
  let r := fresh "r" in
  let x := fresh "x" in
  let E := fresh "E" in
  let Hi := fresh "Hi" in
  let Hs := fresh "Hs" in
  let Hvr := fresh "Hvr" in
  destruct (flagSet_cases (VRStr de) "padded")
    as [(Hl & ->) | [(b & Hl & ->) | ((v & Hl & Hv) & ->)]]; cbn [bind];
  [ eauto
  | destruct b;
    [ destruct (exists_last Hd) as (r & x & E); rewrite E;
      destruct (last_byte r x) as (Hi & Hs); rewrite Hi; cbn [bind];
      destruct (b2z x =? 0); [rewrite Hs|]; cbn [bind]; eauto
    | eauto ]
  | right; split; [reflexivity|]; intros (Hvr & _);
    destruct (proj2 (proj2 (Hvr (VRStr de))) v Hl) as (? & ->);
    eapply Hv; eauto ].

(** On a non-empty value [stringData] returns a string, unless a table
    holds a value of the wrong dynamic type. *)
Lemma stringData_result (de : DataElement) :
  Data de <> [] ->
  (exists s, stringData de = Val s) \/
  (stringData de = Panic BadAssertion /\ ~ (VR_typed /\ TS_typed)).
Proof.
  intros Hd. unfold stringData.
  destruct (transferSyntax_result de Hd) as [(o & ->) | (-> & Hn)];
    [| right; split; [reflexivity | tauto]].
  cbn [bind]. destruct o as [s|]; [eauto|].
  destruct (flagSet_cases (VRStr de) "fixed")
    as [(Hl & ->) | [(b & Hl & ->) | ((v & Hl & Hv) & ->)]]; cbn [bind].
  - padded_branch de Hd.
  - destruct b; [|padded_branch de Hd].
    destruct (lookup2 vri_VR (VRStr de) "len") as [[b|z|s]|] eqn:El;
      cbn [assertInt bind];
      try (right; (split; [reflexivity|]); intros (Hvr & _);
           destruct (proj1 (proj2 (Hvr (VRStr de))) Hl) as (z' & Hz');
           congruence).
    destruct (z =? 1);
      [rewrite (renderLoop_tokens 1 read1) by (try lia; apply read1_spec);
       eauto|].
    destruct (z =? 2);
      [rewrite (renderLoop_tokens 2 read2) by (try lia; apply read2_spec);
       eauto|].
    destruct (z =? 4);
      [rewrite (renderLoop_tokens 4 read4) by (try lia; apply read4_spec);
       eauto|].
    eauto.
  - right. split; [reflexivity|]. intros (Hvr & _).
    destruct (proj1 (Hvr (VRStr de)) v Hl) as (b & ->). eapply Hv; eauto.
Qed.

(** C10. For every element whose [Data] is non-empty, [stringData] and the
    exported [StringData] and [String] perform only in-bounds accesses of
    [Data] (no index or slice panic) and, the tables holding values of the
    types the code asserts, return a display string. *)
Theorem stringData_in_bounds (de : DataElement) :
  Data de <> [] ->
  (stringData de <> Panic OutOfRange /\
   StringData de <> Panic OutOfRange /\
   DataElement_String de <> Panic OutOfRange) /\
  (VR_typed -> TS_typed ->
   (exists s, stringData de = Val s) /\
   (exists s, StringData de = Val s) /\
   (exists s, DataElement_String de = Val s)).
Proof.
  intros Hd. unfold StringData, DataElement_String.
  destruct (stringData_result de Hd) as [(s & ->) | (-> & Hn)].
  - split.
    + repeat split; try discriminate.
      destruct (Len de <? 128); discriminate.
    + intros _ _. repeat split; eauto.
      destruct (Len de <? 128); cbn [bind]; eauto.
  - split.
    + repeat split; try discriminate.
      destruct (Len de <? 128); discriminate.
    + intros Hvr Hts. exfalso. apply Hn. split; assumption.
Qed.

(** ** Truncated buffers *)

Lemma sub_app (lo hi : Z) (l r : list byte) :
  0 <= lo -> lo <= hi -> hi <= Z.of_nat (length l) ->
  sub lo hi (l ++ r) = sub lo hi l.
Proof.
  intros H0 H1 H2. unfold sub.
  rewrite skipn_app, firstn_app, length_skipn.
  replace (Z.to_nat (hi - lo) - (length l - Z.to_nat lo))%nat with 0%nat by lia.
  cbn [firstn]. apply app_nil_r.
Qed.

Lemma extends_len (b' b : buffer) :
  extends b' b -> len b' <= len b /\ cap b' <= cap b.
Proof.
  intros ((r1 & E1) & (r2 & E2)). rewrite !cap_backing. unfold len.
  rewrite E1, E2, !length_app. lia.
Qed.

Lemma extends_truncated (k : nat) (l : list byte) :
  extends (truncated k (literal l)) (literal l).
Proof.
  unfold extends, truncated, literal, backing. cbn [visible spare]. split.
  - exists (skipn k l). symmetry. apply firstn_skipn.
  - exists (skipn k l). rewrite !app_nil_r. symmetry. apply firstn_skipn.
Qed.

Section Extension.

Variables b' b : buffer.
Hypothesis Hext : extends b' b.

Lemma slice_extends (lo hi : Z) (x : list byte) :
  slice b' lo hi = Val x -> slice b lo hi = Val x.
Proof using Hext.
  intros H. apply slice_Val in H. destruct H as (H0 & H1 & H2 & ->).
  pose proof (extends_len _ _ Hext) as (_ & Hc).
  rewrite slice_ok by lia.
  destruct Hext as (_ & (r & ->)).
  rewrite sub_app; [reflexivity | lia | lia | rewrite <- cap_backing; lia].
Qed.

Lemma index_extends (i : Z) (x : byte) :
  index b' i = Val x -> index b i = Val x.
Proof using Hext.
  unfold index, len. destruct Hext as ((r & ->) & _).
  destruct ((0 <=? i) && (i <? Z.of_nat (length (visible b')))) eqn:E;
    [|discriminate].
  apply andb_true_iff in E. destruct E as (E0 & E1).
  apply Z.leb_le in E0. apply Z.ltb_lt in E1.
  rewrite length_app.
  rewrite (proj2 (Z.leb_le _ _)), (proj2 (Z.ltb_lt _ _)) by lia.
  cbn [andb]. rewrite nth_error_app1 by lia. trivial.
Qed.

Lemma readTag_extends (s : Z) (de : DataElement) :
  readTag b' s = Val de -> readTag b s = Val de.
Proof using Hext.
  unfold readTag. intros H.
  apply bind_Val in H. destruct H as (t & Ht & H).
  apply bind_Val in H. destruct H as (tg & Htg & H).
  apply bind_Val in H. destruct H as (te & Hte & H).
  apply bind_Val in H. destruct H as (k1 & Hk1 & H).
  apply bind_Val in H. destruct H as (k2 & Hk2 & H).
  apply bind_Val in H. destruct H as (x & Hx & H).
  rewrite (slice_extends _ _ _ Ht), (slice_extends _ _ _ Htg),
          (slice_extends _ _ _ Hte).
  cbn [bind]. rewrite Hk1. cbn [bind].
  assert (k2 = k1) by congruence. subst k2. exact H.
Qed.

Lemma readLength_extends (n : Z) (explicit : bool) (lim' lim : Z) (h : header) :
  readLength b' n explicit lim' = Val h -> readLength b n explicit lim = Val h.
Proof using Hext.
  unfold readLength. intros H. destruct explicit.
  - apply bind_Val in H. destruct H as (x0 & Hx0 & H).
    apply bind_Val in H. destruct H as (vrb & Hvrb & H).
    apply bind_Val in H. destruct H as (vr' & Hvr' & H).
    rewrite (slice_extends _ _ _ Hvrb). cbn [bind].
    assert (Hvr : match vri_VR !! gostring vrb with
                  | Some _ => Val (gostring vrb)
                  | None =>
                      b0 <- index b n ;;
                      if b2z b0 =? 0 then
                        b1 <- index b (n + 1) ;;
                        if b2z b1 =? 0 then Val "00"
                        else (slice b n lim ;;; Return)
                      else (slice b n lim ;;; Return)
                  end = Val vr').
    { destruct (vri_VR !! gostring vrb); [exact Hvr'|].
      apply bind_Val in Hvr'. destruct Hvr' as (b0 & Hb0 & Hvr').
      rewrite (index_extends _ _ Hb0). cbn [bind].
      destruct (b2z b0 =? 0).
      - apply bind_Val in Hvr'. destruct Hvr' as (b1 & Hb1 & Hvr').
        rewrite (index_extends _ _ Hb1). cbn [bind].
        destruct (b2z b1 =? 0); [exact Hvr'|].
        apply bind_Val in Hvr'. destruct Hvr' as (? & _ & ?). discriminate.
      - apply bind_Val in Hvr'. destruct Hvr' as (? & _ & ?). discriminate. }
    rewrite Hvr. cbn [bind].
    destruct (longForm vr').
    + apply bind_Val in H. destruct H as (x1 & Hx1 & H).
      apply bind_Val in H. destruct H as (x2 & Hx2 & H).
      apply bind_Val in H. destruct H as (lb & Hlb & H).
      rewrite (slice_extends _ _ _ Hx1), (slice_extends _ _ _ Hlb).
      cbn [bind]. exact H.
    + apply bind_Val in H. destruct H as (x1 & Hx1 & H).
      apply bind_Val in H. destruct H as (lb & Hlb & H).
      rewrite (slice_extends _ _ _ Hlb). cbn [bind]. exact H.
  - apply bind_Val in H. destruct H as (x1 & Hx1 & H).
    apply bind_Val in H. destruct H as (lb & Hlb & H).
    rewrite (slice_extends _ _ _ Hlb). cbn [bind]. exact H.
Qed.

Lemma scanDelimiter_extends (tagStr : string) (n p : Z) :
  forall (f' f : nat) (m : Z),
    scanDelimiter f' b' tagStr n m = Val p ->
    (Z.to_nat (len b - m) < f)%nat ->
    scanDelimiter f b tagStr n m = Val p.
Proof using Hext.
  pose proof (extends_len _ _ Hext) as (Hl & _).
  induction f' as [|f' IH]; intros f m H Hf; [discriminate|].
  destruct f as [|f]; [lia|].
  cbn [scanDelimiter] in *.
  apply bind_Val in H. destruct H as (endTag & Hs & H).
  apply bind_Val in H. destruct H as (endTagStr & Ht & H).
  rewrite (slice_extends _ _ _ Hs). cbn [bind]. rewrite Ht. cbn [bind].
  destruct (_ && _); [exact H|].
  destruct (String.eqb endTagStr "FFFEE0DD"); [exact H|].
  destruct (len b' <=? m + 1) eqn:E'.
  - apply bind_Val in H. destruct H as (? & _ & ?). discriminate.
  - apply Z.leb_gt in E'.
    rewrite (proj2 (Z.leb_gt (len b) (m + 1))) by lia.
    apply IH; [exact H | lia].
Qed.

Lemma resolveLength_extends (tagStr : string) (h : header) (r : Z * bool) :
  resolveLength b' tagStr h = Val r -> resolveLength b tagStr h = Val r.
Proof using Hext.
  unfold resolveLength. destruct (hlen h =? undefinedLength); [|trivial].
  intros H. apply bind_Val in H. destruct H as (p & Hp & H).
  rewrite (scanDelimiter_extends _ _ _ _ (scanFuel b (hn h)) _ Hp)
    by (unfold scanFuel; lia).
  exact H.
Qed.

(** A pass that completes on the shorter buffer yields the same element and
    cursor on the longer one, unless the decode of a container's span
    panics there. *)
Lemma iteration_extends
      (self' : Z -> bool -> Z -> outcome (list DataElement))
      (s : Z) (explicit : bool) (lim' lim : Z) (de : DataElement) (n' : Z) :
  iteration self' b' s explicit lim' = Val (de, n') ->
  iteration (parseDataElement b) b s explicit lim = Val (de, n') \/
  exists k, iteration (parseDataElement b) b s explicit lim = Panic k.
Proof using Hext.
  unfold iteration. intros H.
  apply bind_Val in H. destruct H as (de0 & Hde0 & H).
  apply bind_Val in H. destruct H as (h & Hh & H).
  apply bind_Val in H. destruct H as (r & Hr & H).
  rewrite (readTag_extends _ _ Hde0). cbn [bind].
  rewrite (readLength_extends _ _ _ lim _ Hh). cbn [bind].
  rewrite (resolveLength_extends _ _ _ Hr). cbn [bind].
  pose proof (extends_len _ _ Hext) as (_ & Hc).
  apply readLength_Val in Hh. destruct Hh as (? & ? & ? & Hlen & _).
  apply (resolveLength_Val _ _ _ _ Hlen) in Hr.
  destruct (Z_le_gt_dec (hn h + fst r) (cap b')) as [Hc' | Hc'].
  2:{ rewrite materialize_panic in H by lia. discriminate. }
  rewrite materialize_eq in H by lia. rewrite materialize_eq by lia.
  apply bind_Val in H. destruct H as (data & Hdata & H).
  assert (Hsub : sub (hn h) (hn h + fst r) (backing b) =
                 sub (hn h) (hn h + fst r) (backing b')).
  { destruct Hext as (_ & (q & ->)).
    apply sub_app; [lia | lia | rewrite <- cap_backing; lia]. }
  destruct (String.eqb (TagStr de0) "FFFEE000").
  - apply bind_Val in Hdata. destruct Hdata as (ch & _ & Hd).
    destruct (parseDataElement_terminates b (hn h) true (hn h + fst r))
      as [(els & ->) | (k & ->)]; cbn [bind]; [left | right; eauto].
    inversion Hd; subst data. exact H.
  - destruct (String.eqb (hvr h) "SQ").
    + apply bind_Val in Hdata. destruct Hdata as (ch & _ & Hd).
      destruct (parseDataElement_terminates b (hn h) false (hn h + fst r))
        as [(els & ->) | (k & ->)]; cbn [bind]; [left | right; eauto].
      inversion Hd; subst data. exact H.
    + left. rewrite Hsub, Hdata. cbn [bind]. exact H.
Qed.

(** Prefix property: when both decodes return, what the shorter buffer
    decodes to is a prefix of what the longer buffer decodes to. *)
Lemma parseDataElement_extends (explicit : bool) (lim' lim : Z) :
  lim' <= lim ->
  forall n els' els,
    parseDataElement b' n explicit lim' = Val els' ->
    parseDataElement b n explicit lim = Val els ->
    exists rest, els = els' ++ rest.
Proof using Hext.
  intros Hlim n. pattern n. apply (cursor_ind b' lim'). clear n.
  intros n IH [|de rest'] els H' H; [exists els; reflexivity|].
  apply parseDataElement_cons in H'. destruct H' as (Hg' & n' & Hit' & Hrest').
  pose proof (extends_len _ _ Hext) as (Hl & _).
  assert (Hg : guard b n n lim = true).
  { apply guard_true in Hg'. apply guard_true. lia. }
  rewrite parseDataElement_unfold, Hg in H.
  pose proof (iteration_Val _ _ _ _ _ _ _ Hit') as (_ & _ & HL & Hn' & _).
  destruct (iteration_extends _ _ _ _ lim _ _ Hit') as [E | (k & E)];
    rewrite E in H; [|discriminate].
  apply bind_Val in H. destruct H as (rest & Hrest & H).
  inversion H; subst els.
  destruct (IH Hg' n' ltac:(lia) rest' rest Hrest' Hrest) as (q & ->).
  exists q. reflexivity.
Qed.

End Extension.

(** For [ProcessFile] on a literal and on its first [k] bytes: if both
    decodes return, the truncated one returns a prefix of the full one. *)
Lemma ProcessFile_truncated_prefix (l : list byte) (k : nat) (explicit : bool)
      (els' els : list DataElement) :
  ProcessFile (truncated k (literal l)) 0 explicit = Val els' ->
  ProcessFile (literal l) 0 explicit = Val els ->
  exists rest, els = els' ++ rest.
Proof.
  unfold ProcessFile. intros H' H.
  pose proof (extends_truncated k l) as Hext.
  eapply (parseDataElement_extends _ _ Hext); [|exact H'|exact H].
  apply (extends_len _ _ Hext).
Qed.

(** ** [contains] and [LookupElement] *)

(** X1. [contains] reports exactly whether the string occurs in the
    slice. *)
Theorem contains_iff_In (s : list string) (a : string) :
  contains s a = true <-> In a s.
Proof.
  induction s as [|b r IH]; cbn [contains In]; [split; [discriminate | tauto]|].
  destruct (String.eqb_spec a b) as [-> | Hne].
  - split; auto.
  - rewrite IH. split; [auto | intros [E | H]; [congruence | exact H]].
Qed.

Lemma firstWith_Some (key : DataElement -> string) (name : string)
      (els : list DataElement) (e : DataElement) :
  firstWith key name els = Some e <->
  exists pre post,
    els = pre ++ e :: post /\ key e = name /\
    forall x, In x pre -> key x <> name.
Proof.
  revert e. induction els as [|a r IH]; intros e; cbn [firstWith].
  - split; [discriminate|]. intros (pre & post & E & _).
    destruct pre; discriminate E.
  - destruct (String.eqb_spec (key a) name) as [Ea | Ea].
    + split.
      * intros H. inversion H; subst a. exists [], r.
        repeat split; auto; intros x [].
      * intros (pre & post & E & Ek & Hpre). destruct pre as [|p pre].
        -- inversion E; reflexivity.
        -- inversion E; subst p. exfalso. apply (Hpre a); [left; reflexivity | exact Ea].
    + rewrite IH. split.
      * intros (pre & post & -> & Ek & Hpre). exists (a :: pre), post.
        repeat split; auto. intros x [<- | Hx]; auto.
      * intros (pre & post & E & Ek & Hpre). destruct pre as [|p pre].
        -- inversion E; subst a. contradiction.
        -- inversion E; subst p r. exists pre, post. repeat split; auto.
           intros x Hx. apply Hpre. right; exact Hx.
Qed.

Lemma firstWith_None (key : DataElement -> string) (name : string)
      (els : list DataElement) :
  firstWith key name els = None <-> forall x, In x els -> key x <> name.
Proof.
  induction els as [|a r IH]; cbn [firstWith].
  - split; [intros _ x [] | reflexivity].
  - destruct (String.eqb_spec (key a) name) as [Ea | Ea].
    + split; [discriminate|]. intros H. exfalso.
      apply (H a); [left; reflexivity | exact Ea].
    + rewrite IH. split.
      * intros H x [<- | Hx]; auto.
      * intros H x Hx. apply H. right; exact Hx.
Qed.

(** X2. Whatever [LookupElement] returns is an element of the file whose
    tag key or whose name equals the requested string. *)
Theorem LookupElement_sound (file : DicomFile) (name : string)
        (e : DataElement) :
  LookupElement file name = inl e ->
  In e (Elements file) /\ (TagStr e = name \/ Name e = name).
Proof.
  unfold LookupElement.
  destruct (firstWith TagStr name (Elements file)) as [a|] eqn:Et.
  - intros H. inversion H; subst a.
    apply firstWith_Some in Et. destruct Et as (pre & post & -> & Ek & _).
    split; [apply in_elt | left; exact Ek].
  - destruct (firstWith Name name (Elements file)) as [a|] eqn:En;
      [|discriminate].
    intros H. inversion H; subst a.
    apply firstWith_Some in En. destruct En as (pre & post & -> & Ek & _).
    split; [apply in_elt | right; exact Ek].
Qed.

(** X3. [LookupElement] fails, with its one error message, exactly when no
    element of the file has the requested string as tag key or as name. *)
Theorem LookupElement_error_iff (file : DicomFile) (name : string) :
  (exists msg, LookupElement file name = inr msg) <->
  forall x, In x (Elements file) -> TagStr x <> name /\ Name x <> name.
Proof.
  unfold LookupElement. split.
  - intros (msg & H).
    destruct (firstWith TagStr name (Elements file)) eqn:Et; [discriminate|].
    destruct (firstWith Name name (Elements file)) eqn:En; [discriminate|].
    intros x Hx. split.
    + exact (proj1 (firstWith_None _ _ _) Et x Hx).
    + exact (proj1 (firstWith_None _ _ _) En x Hx).
  - intros H.
    rewrite (proj2 (firstWith_None TagStr name (Elements file)))
      by (intros x Hx; apply H; exact Hx).
    rewrite (proj2 (firstWith_None Name name (Elements file)))
      by (intros x Hx; apply H; exact Hx).
    eauto.
Qed.

(** X4. Matching by tag key has priority over matching by name: the first
    element whose tag key is the requested string is returned, even when
    elements before it carry that string as their name. *)
Theorem LookupElement_tag_first (file : DicomFile) (name : string)
        (pre post : list DataElement) (e : DataElement) :
  Elements file = pre ++ e :: post ->
  TagStr e = name ->
  (forall x, In x pre -> TagStr x <> name) ->
  LookupElement file name = inl e.
Proof.
  intros E Ek Hpre. unfold LookupElement.
  rewrite (proj2 (firstWith_Some TagStr name (Elements file) e)); [reflexivity|].
  exists pre, post. auto.
Qed.

(** X5. When no element has the requested string as tag key, the first
    element that has it as name is returned. *)
Theorem LookupElement_name_fallback (file : DicomFile) (name : string)
        (pre post : list DataElement) (e : DataElement) :
  (forall x, In x (Elements file) -> TagStr x <> name) ->
  Elements file = pre ++ e :: post ->
  Name e = name ->
  (forall x, In x pre -> Name x <> name) ->
  LookupElement file name = inl e.
Proof.
  intros Hno E Ek Hpre. unfold LookupElement.
  rewrite (proj2 (firstWith_None TagStr name (Elements file)) Hno).
  rewrite (proj2 (firstWith_Some Name name (Elements file) e)); [reflexivity|].
  exists pre, post. auto.
Qed.

(** ** [tagString] *)

Lemma dindex_nth (d : list byte) (i : nat) (x : byte) :
  nth_error d i = Some x -> dindex d (Z.of_nat i) = Val x.
Proof.
  intros H. unfold dindex. rewrite Nat2Z.id, H.
  assert (Hi : (i < length d)%nat) by (apply nth_error_Some; congruence).
  rewrite (proj2 (Z.leb_le _ _)), (proj2 (Z.ltb_lt _ _)) by lia.
  reflexivity.
Qed.

Lemma upper_hexdigit (d : Z) :
  0 <= d < 16 -> upper_ascii (hexdigit d) = hexchar d.
Proof.
  intros Hd. rewrite <- (Z2Nat.id d) by lia.
  assert (Hn : (Z.to_nat d < 16)%nat) by lia.
  revert Hn. generalize (Z.to_nat d). intros k Hk.
  do 16 (destruct k as [|k]; [reflexivity|]). lia.
Qed.

Lemma hexval_hexchar (d : Z) : 0 <= d < 16 -> hexval (hexchar d) = d.
Proof.
  intros Hd. rewrite <- upper_hexdigit by lia. apply hexval_hexdigit. lia.
Qed.

Lemma tagString_cons4 (b0 b1 b2 b3 : byte) (rest : list byte) :
  tagString (b0 :: b1 :: b2 :: b3 :: rest) =
  Val (ToUpper (Sprintf02x b1 +:+ Sprintf02x b0 +:+ Sprintf02x b3 +:+
                Sprintf02x b2)).
Proof.
  unfold tagString.
  pose proof (dindex_nth (b0 :: b1 :: b2 :: b3 :: rest) 1 b1 eq_refl) as H1.
  pose proof (dindex_nth (b0 :: b1 :: b2 :: b3 :: rest) 0 b0 eq_refl) as H0.
  pose proof (dindex_nth (b0 :: b1 :: b2 :: b3 :: rest) 3 b3 eq_refl) as H3.
  pose proof (dindex_nth (b0 :: b1 :: b2 :: b3 :: rest) 2 b2 eq_refl) as H2.
  change (Z.of_nat 1) with 1 in H1. change (Z.of_nat 0) with 0 in H0.
  change (Z.of_nat 3) with 3 in H3. change (Z.of_nat 2) with 2 in H2.
  rewrite H1, H0, H3, H2. reflexivity.
Qed.

Lemma tagString_hex4 (b0 b1 b2 b3 : byte) (rest : list byte) :
  tagString (b0 :: b1 :: b2 :: b3 :: rest) =
  Val (hex4 (le_value [b0; b1]) +:+ hex4 (le_value [b2; b3])).
Proof.
  rewrite tagString_cons4. f_equal.
  pose proof (b2z_range b0). pose proof (b2z_range b1).
  pose proof (b2z_range b2). pose proof (b2z_range b3).
  cbn [le_value]. unfold hex4, Sprintf02x.
  assert (A : forall x y, 0 <= x < 256 -> 0 <= y < 256 ->
              (x + 256 * (y + 256 * 0)) / 4096 mod 16 = y / 16 /\
              (x + 256 * (y + 256 * 0)) / 256 mod 16 = y mod 16 /\
              (x + 256 * (y + 256 * 0)) / 16 mod 16 = x / 16 /\
              (x + 256 * (y + 256 * 0)) mod 16 = x mod 16).
  { intros x y Hx Hy. repeat split; Z.div_mod_to_equations; lia. }
  destruct (A (b2z b0) (b2z b1)) as (-> & -> & -> & ->); [lia | lia |].
  destruct (A (b2z b2) (b2z b3)) as (-> & -> & -> & ->); [lia | lia |].
  assert (E : forall a1 a2 c1 c2 d1 d2 e1 e2,
             ToUpper (String a1 (String a2 "") +:+ String c1 (String c2 "") +:+
                      String d1 (String d2 "") +:+ String e1 (String e2 "")) =
             String (upper_ascii a1) (String (upper_ascii a2)
               (String (upper_ascii c1) (String (upper_ascii c2) "")))
             +:+
             String (upper_ascii d1) (String (upper_ascii d2)
               (String (upper_ascii e1) (String (upper_ascii e2) ""))))
    by reflexivity.
  rewrite E.
  rewrite !upper_hexdigit
    by first [ apply Z.mod_pos_bound; lia
             | split; [apply Z.div_pos | apply Z.div_lt_upper_bound]; lia ].
  reflexivity.
Qed.

(** X6. The key of a tag is the four upper-case hexadecimal digits of its
    group number followed by the four digits of its element number, the two
    numbers being the little-endian 16-bit values of the first and the second
    pair of wire bytes; the key is 8 characters long and bytes after the
    fourth are ignored. *)
Theorem tagString_group_element (b0 b1 b2 b3 : byte) (rest : list byte) :
  tagString (b0 :: b1 :: b2 :: b3 :: rest) =
  Val (hex4 (le_value [b0; b1]) +:+ hex4 (le_value [b2; b3])) /\
  String.length (hex4 (le_value [b0; b1]) +:+ hex4 (le_value [b2; b3])) = 8%nat.
Proof. split; [apply tagString_hex4 | reflexivity]. Qed.

Lemma parseHex_hex4 (z acc : Z) (r : string) :
  0 <= z < 65536 ->
  parseHex (hex4 z +:+ r) acc = parseHex r (65536 * acc + z).
Proof.
  intros Hz. unfold hex4.
  assert (E : forall a c d e,
             parseHex (String a (String c (String d (String e ""))) +:+ r) acc =
             parseHex r (16 * (16 * (16 * (16 * acc + hexval a) + hexval c)
                               + hexval d) + hexval e))
    by reflexivity.
  rewrite E.
  rewrite !hexval_hexchar by (apply Z.mod_pos_bound; lia).
  f_equal.
  replace (z / 256) with (z / 16 / 16) by (rewrite Z.div_div by lia; reflexivity).
  replace (z / 4096) with (z / 16 / 16 / 16)
    by (rewrite !Z.div_div by lia; reflexivity).
  Z.div_mod_to_equations. lia.
Qed.

(** X7. Tag key symmetry: reading the key back as a hexadecimal number
    gives the group number in the upper and the element number in the lower
    16 bits, so a key determines the group and the element of its tag. *)
Theorem tagString_roundtrip (b0 b1 b2 b3 : byte) (rest : list byte)
        (key : string) :
  tagString (b0 :: b1 :: b2 :: b3 :: rest) = Val key ->
  parseHex key 0 = 65536 * le_value [b0; b1] + le_value [b2; b3].
Proof.
  rewrite tagString_hex4. intros H.
  assert (E : key = hex4 (le_value [b0; b1]) +:+ hex4 (le_value [b2; b3]))
    by congruence.
  rewrite E. clear H E.
  pose proof (b2z_range b0). pose proof (b2z_range b1).
  pose proof (b2z_range b2). pose proof (b2z_range b3).
  assert (Hg : 0 <= le_value [b0; b1] < 65536) by (cbn [le_value]; lia).
  assert (He : 0 <= le_value [b2; b3] < 65536) by (cbn [le_value]; lia).
  rewrite parseHex_hex4 by lia.
  replace (hex4 (le_value [b2; b3]))
    with (hex4 (le_value [b2; b3]) +:+ "") by apply append_empty_r.
  rewrite parseHex_hex4 by lia. cbn [parseHex]. lia.
Qed.

(** X8. [tagString] panics with an index out of range exactly on slices of
    fewer than four bytes. *)
Theorem tagString_panics_iff_short (b : list byte) :
  tagString b = Panic OutOfRange <-> (length b < 4)%nat.
Proof.
  destruct b as [|b0 [|b1 [|b2 [|b3 rest]]]];
    try (split; [intros _; cbn [length]; lia | reflexivity]).
  rewrite tagString_hex4. split; [discriminate | cbn [length]; lia].
Qed.

(** ** Further properties of the decoder *)

Lemma rangeOnly_bind {A B : Type} (x : outcome A) (f : A -> outcome B) :
  rangeOnly x -> (forall a, x = Val a -> rangeOnly (f a)) ->
  rangeOnly (bind x f).
Proof.
  unfold rangeOnly. destruct x; simpl; intros Hx Hf; try discriminate; auto.
  intros H. apply Hx. inversion H. reflexivity.
Qed.

Lemma rangeOnly_slice (bytes : buffer) (lo hi : Z) : rangeOnly (slice bytes lo hi).
Proof.
  destruct (slice_cases bytes lo hi) as [(? & ? & ? & E) | (? & E)];
    rewrite E; discriminate.
Qed.

Lemma rangeOnly_index (bytes : buffer) (i : Z) : rangeOnly (index bytes i).
Proof.
  unfold index, rangeOnly.
  destruct ((0 <=? i) && (i <? len bytes)); [|discriminate].
  destruct (nth_error _ _); discriminate.
Qed.

Lemma rangeOnly_dindex (d : list byte) (i : Z) : rangeOnly (dindex d i).
Proof.
  unfold dindex, rangeOnly.
  destruct ((0 <=? i) && (i <? Z.of_nat (length d))); [|discriminate].
  destruct (nth_error _ _); discriminate.
Qed.

Lemma rangeOnly_Val {A : Type} (a : A) : rangeOnly (Val a).
Proof. discriminate. Qed.

Lemma rangeOnly_Return {A : Type} : rangeOnly (@Return A).
Proof. discriminate. Qed.

Lemma rangeOnly_tagString (b : list byte) : rangeOnly (tagString b).
Proof.
  unfold tagString.
  repeat (apply rangeOnly_bind; [apply rangeOnly_dindex | intros ? _]).
  apply rangeOnly_Val.
Qed.

Lemma rangeOnly_Uint16 (b : list byte) : rangeOnly (Uint16 b).
Proof.
  unfold Uint16.
  repeat (apply rangeOnly_bind; [apply rangeOnly_dindex | intros ? _]).
  apply rangeOnly_Val.
Qed.

Lemma rangeOnly_Uint32 (b : list byte) : rangeOnly (Uint32 b).
Proof.
  unfold Uint32.
  repeat (apply rangeOnly_bind; [apply rangeOnly_dindex | intros ? _]).
  apply rangeOnly_Val.
Qed.

Create HintDb rangeOnly.

#[local] Hint Resolve rangeOnly_slice rangeOnly_index rangeOnly_dindex
     rangeOnly_Val rangeOnly_Return rangeOnly_tagString rangeOnly_Uint16
     rangeOnly_Uint32 : rangeOnly.

Ltac rangeOnly_step :=
  match goal with
  | |- rangeOnly (bind _ _) => apply rangeOnly_bind; [| intros ? ?]
  | |- rangeOnly (if ?c then _ else _) => destruct c
  | |- rangeOnly (match ?x with Some _ => _ | None => _ end) => destruct x
  | |- rangeOnly _ => solve [auto with rangeOnly]
  end.

Lemma rangeOnly_scanDelimiter (bytes : buffer) (tagStr : string) (n : Z) :
  forall (fuel : nat) (m : Z), rangeOnly (scanDelimiter fuel bytes tagStr n m).
Proof.
  induction fuel as [|fuel IH]; intros m; [discriminate|].
  cbn [scanDelimiter].
  apply rangeOnly_bind; [auto with rangeOnly | intros endTag _].
  apply rangeOnly_bind; [auto with rangeOnly | intros endTagStr _].
  destruct (_ && _); [auto with rangeOnly|].
  destruct (String.eqb endTagStr "FFFEE0DD"); [auto with rangeOnly|].
  destruct (len bytes <=? m + 1); [repeat rangeOnly_step | apply IH].
Qed.

Lemma rangeOnly_iteration (self : Z -> bool -> Z -> outcome (list DataElement))
      (bytes : buffer) (s : Z) (explicit : bool) (limit : Z) :
  (forall n e lim, rangeOnly (self n e lim)) ->
  rangeOnly (iteration self bytes s explicit limit).
Proof.
  intros Hself. unfold iteration.
  apply rangeOnly_bind; [unfold readTag; repeat rangeOnly_step | intros de0 _].
  apply rangeOnly_bind;
    [unfold readLength; repeat rangeOnly_step | intros h _].
  apply rangeOnly_bind.
  { unfold resolveLength. destruct (hlen h =? undefinedLength);
      [|apply rangeOnly_Val].
    apply rangeOnly_bind; [apply rangeOnly_scanDelimiter|].
    intros; apply rangeOnly_Val. }
  intros r _. unfold materialize. repeat rangeOnly_step; apply Hself.
Qed.

Lemma rangeOnly_parseLoop (bytes : buffer) :
  forall (fuel : nat) (n : Z) (explicit : bool) (limit : Z)
         (elements : list DataElement),
    rangeOnly (parseLoop fuel bytes n explicit limit elements).
Proof.
  induction fuel as [|fuel IH]; intros n explicit limit elements;
    [discriminate|].
  cbn [parseLoop]. destruct (guard bytes n n limit); [|apply rangeOnly_Val].
  assert (Hit : rangeOnly (iteration
                  (fun n' e' lim' => parseLoop fuel bytes n' e' lim' [])
                  bytes n explicit limit))
    by (apply rangeOnly_iteration; intros; apply IH).
  destruct (iteration _ bytes n explicit limit) as [[de n']| | |] eqn:E;
    try discriminate; [apply IH|].
  intros H. apply Hit. inversion H. reflexivity.
Qed.

(** X9. The decoder terminates on every buffer, start offset, mode and
    limit: it either returns a sequence of elements or stops with an index
    or slice bounds panic; it never fails in another way. *)
Theorem parseDataElement_returns_or_range_panic (bytes : buffer) (n : Z)
        (explicit : bool) (limit : Z) :
  (exists els, parseDataElement bytes n explicit limit = Val els) \/
  parseDataElement bytes n explicit limit = Panic OutOfRange.
Proof.
  pose proof (rangeOnly_parseLoop bytes (parseFuel bytes n) n explicit limit [])
    as Hr.
  fold (parseDataElement bytes n explicit limit) in Hr.
  destruct (parseDataElement_terminates bytes n explicit limit)
    as [H | (k & H)]; [left; exact H | right].
  destruct k; [exact H|]. exfalso. exact (Hr H).
Qed.

Lemma firstn_plus {A : Type} (a b : nat) (l : list A) :
  firstn (a + b) l = firstn a l ++ firstn b (skipn a l).
Proof.
  revert l. induction a as [|a IH]; intros l; [reflexivity|].
  destruct l as [|x l]; cbn [Nat.add firstn skipn app].
  - rewrite firstn_nil. reflexivity.
  - f_equal. apply IH.
Qed.

Lemma sub_split (lo mid hi : Z) (l : list byte) :
  0 <= lo -> lo <= mid -> mid <= hi -> hi <= Z.of_nat (length l) ->
  sub lo mid l ++ sub mid hi l = sub lo hi l.
Proof.
  intros H0 H1 H2 H3. unfold sub.
  replace (Z.to_nat (hi - lo)) with (Z.to_nat (mid - lo) + Z.to_nat (hi - mid))%nat
    by lia.
  rewrite firstn_plus. f_equal. rewrite skipn_skipn.
  replace (Z.to_nat (mid - lo) + Z.to_nat lo)%nat with (Z.to_nat mid) by lia.
  reflexivity.
Qed.

(** The fields that lines 236-254 give the element. *)
Lemma readTag_fields (bytes : buffer) (s : Z) (de : DataElement) :
  readTag bytes s = Val de ->
  TagGroup de = sub s (s + 2) (backing bytes) /\
  TagElem de = sub (s + 2) (s + 4) (backing bytes) /\
  Name de = (if String.eqb (TagStr de) "" then ""
             else match tag_Tag !! TagStr de with
                  | None => ""
                  | Some _ => default "" (lookup2 tag_Tag (TagStr de) "name")
                  end).
Proof.
  unfold readTag. intros H.
  apply bind_Val in H. destruct H as (t & Ht & H).
  apply bind_Val in H. destruct H as (tg & Htg & H).
  apply bind_Val in H. destruct H as (te & Hte & H).
  apply bind_Val in H. destruct H as (k1 & Hk1 & H).
  apply bind_Val in H. destruct H as (k2 & Hk2 & H).
  apply bind_Val in H. destruct H as (x & Hx & H).
  apply slice_Val in Htg. destruct Htg as (_ & _ & _ & ->).
  apply slice_Val in Hte. destruct Hte as (_ & _ & _ & ->).
  assert (k2 = k1) by congruence. subst k2.
  inversion H; subst; cbn. auto.
Qed.

(** The VR fields that lines 255-309 give the element. *)
Lemma readLength_fields (bytes : buffer) (n : Z) (explicit : bool) (limit : Z)
      (h : header) :
  readLength bytes n explicit limit = Val h ->
  if explicit then
    hVR h = sub n (n + 2) (backing bytes) /\
    ((hVRStr h = gostring (hVR h) /\ is_Some (vri_VR !! hVRStr h)) \/
     (hVR h = [x00; x00] /\ hVRStr h = "00" /\
      vri_VR !! gostring (hVR h) = None)) /\
    (longForm (hVRStr h) = false -> hlen h < 65536)
  else hVR h = [] /\ hVRStr h = "".
Proof.
  unfold readLength. intros H. destruct explicit.
  - apply bind_Val in H. destruct H as (x0 & Hx0 & H).
    apply bind_Val in H. destruct H as (vrb & Hvrb & H).
    apply bind_Val in H. destruct H as (vr' & Hvr' & H).
    pose proof (slice_Val _ _ _ _ Hvrb) as (Hn0 & _ & _ & Esub).
    assert (Hcls : (vr' = gostring vrb /\ is_Some (vri_VR !! vr')) \/
                   (vrb = [x00; x00] /\ vr' = "00" /\
                    vri_VR !! gostring vrb = None)).
    { destruct (vri_VR !! gostring vrb) as [e|] eqn:El.
      - left. inversion Hvr'; subst vr'. rewrite El. split; [reflexivity | eauto].
      - right.
        apply bind_Val in Hvr'. destruct Hvr' as (b0 & Hb0 & Hvr').
        destruct (b2z b0 =? 0) eqn:E0.
        2:{ apply bind_Val in Hvr'. destruct Hvr' as (? & _ & ?). discriminate. }
        apply bind_Val in Hvr'. destruct Hvr' as (b1 & Hb1 & Hvr').
        destruct (b2z b1 =? 0) eqn:E1.
        2:{ apply bind_Val in Hvr'. destruct Hvr' as (? & _ & ?). discriminate. }
        inversion Hvr'; subst vr'.
        apply b2z_zero in E0, E1. subst b0 b1.
        assert (Hlen : n + 2 <= len bytes).
        { unfold index in Hb1.
          destruct ((0 <=? n + 1) && (n + 1 <? len bytes)) eqn:Eb;
            [|discriminate].
          apply andb_true_iff in Eb. destruct Eb as (_ & Eb).
          apply Z.ltb_lt in Eb. lia. }
        destruct (index_pair bytes n Hn0 Hlen) as (c0 & c1 & Hs & Hc0 & Hc1).
        rewrite Hb0 in Hc0. rewrite Hb1 in Hc1.
        inversion Hc0; inversion Hc1; subst c0 c1.
        rewrite Esub, Hs. auto. }
    destruct (longForm vr') eqn:El.
    + apply bind_Val in H. destruct H as (x1 & Hx1 & H).
      apply bind_Val in H. destruct H as (x2 & Hx2 & H).
      apply bind_Val in H. destruct H as (lb & Hlb & H).
      apply bind_Val in H. destruct H as (v & Hv & H).
      inversion H; subst; cbn [hVR hVRStr hlen].
      split; [reflexivity|]. split; [exact Hcls|]. congruence.
    + apply bind_Val in H. destruct H as (x1 & Hx1 & H).
      apply bind_Val in H. destruct H as (lb & Hlb & H).
      apply bind_Val in H. destruct H as (v & Hv & H).
      destruct (Uint16_slice _ _ _ Hlb) as (E & Hb).
      rewrite E in Hv. inversion Hv; subst v.
      inversion H; subst; cbn [hVR hVRStr hlen].
      split; [reflexivity|]. split; [exact Hcls|].
      intros _. unfold uint32. rewrite Z.mod_small by lia. lia.
  - apply bind_Val in H. destruct H as (x1 & Hx1 & H).
    apply bind_Val in H. destruct H as (lb & Hlb & H).
    apply bind_Val in H. destruct H as (v & Hv & H).
    inversion H; subst; cbn. auto.
Qed.

(** One completed pass, taken apart into its four phases. *)
Lemma iteration_inv (self : Z -> bool -> Z -> outcome (list DataElement))
      (bytes : buffer) (s : Z) (explicit : bool) (limit : Z)
      (de : DataElement) (n' : Z) :
  iteration self bytes s explicit limit = Val (de, n') ->
  exists de0 h r,
    readTag bytes s = Val de0 /\
    readLength bytes (s + 4) explicit limit = Val h /\
    resolveLength bytes (TagStr de0) h = Val r /\
    de = mkDataElement (N de0) (TagGroup de0) (TagElem de0) (TagStr de0)
                       (Name de0) (hVR h) (hVRStr h) (VRLen de0) (fst r)
                       (Data de) (PartOfSQ de0) /\
    (snd r = false -> fst r = hlen h).
Proof.
  unfold iteration. intros H.
  apply bind_Val in H. destruct H as (de0 & Hde0 & H).
  apply bind_Val in H. destruct H as (h & Hh & H).
  apply bind_Val in H. destruct H as (r & Hr & H).
  exists de0, h, r. split; [exact Hde0|]. split; [exact Hh|].
  split; [exact Hr|].
  unfold materialize in H.
  apply bind_Val in H. destruct H as (x & _ & H).
  apply bind_Val in H. destruct H as (data & _ & H).
  inversion H; subst de n'; cbn [Data]. split; [reflexivity|].
  unfold resolveLength in Hr. destruct (hlen h =? undefinedLength).
  - apply bind_Val in Hr. destruct Hr as (p & _ & Hr).
    inversion Hr; subst r. discriminate.
  - inversion Hr; reflexivity.
Qed.

Lemma laidOut_app (lo : Z) (pre : list DataElement) (x : DataElement)
      (rest : list DataElement) :
  laidOut lo (pre ++ x :: rest) -> laidOut (valueEnd x) rest.
Proof.
  revert lo. induction pre as [|p pre IH]; intros lo H; cbn [app laidOut] in H.
  - tauto.
  - destruct H as (_ & H). eapply IH; eauto.
Qed.

(** X10. The elements a decode returns are in stream order and do not
    overlap: each starts at or after the start offset with its four tag
    bytes inside the buffer and the limit, its value span ends inside the
    buffer's capacity, and every later element starts at or after the end of
    the value span of every earlier one. *)
Theorem decoded_elements_in_stream_order (bytes : buffer) (n : Z)
        (explicit : bool) (limit : Z) (els : list DataElement) :
  parseDataElement bytes n explicit limit = Val els ->
  (forall x, In x els ->
             n <= N x /\ N x + 4 <= len bytes /\ N x + 4 <= limit /\
             valueEnd x <= cap bytes) /\
  (forall pre x mid y post,
      els = pre ++ x :: mid ++ y :: post -> valueEnd x <= N y).
Proof.
  intros Hp.
  pose proof (parseDataElement_bounds _ _ _ _ _ Hp) as Hb.
  pose proof (parseDataElement_laidOut _ _ _ _ _ Hp) as Hlo.
  assert (HL : Forall (fun d => 0 <= Len d) els)
    by (eapply List.Forall_impl; [|exact Hb]; simpl; tauto).
  assert (HF : Forall (fun d => N d + 4 <= len bytes /\ valueEnd d <= cap bytes)
                      els).
  { eapply parseDataElement_Forall; [|exact Hp].
    intros s d n' Hg Hit. apply guard_true in Hg.
    apply iteration_element in Hit. destruct Hit as (HN & _ & _ & Hc & _).
    rewrite HN. lia. }
  rewrite List.Forall_forall in Hb, HF. split.
  - intros x Hx. specialize (Hb x Hx). specialize (HF x Hx). simpl in Hb. lia.
  - intros pre x mid y post E. subst els.
    apply laidOut_app in Hlo.
    assert (HL' : Forall (fun d => 0 <= Len d) (mid ++ y :: post)).
    { rewrite List.Forall_forall in *. intros d Hd. apply HL.
      apply in_or_app. right. right. exact Hd. }
    pose proof (laidOut_lower _ _ HL' Hlo) as Hlow.
    rewrite List.Forall_forall in Hlow. apply Hlow. apply in_elt.
Qed.

(** X11. The value of a decoded leaf element is a view of the buffer: its
    [Data] are exactly the bytes of the backing array from the end of the
    element's header to the end of its value span, which lies inside the
    capacity. *)
Theorem leaf_value_is_buffer_view (bytes : buffer) (n : Z) (explicit : bool)
        (limit : Z) (els : list DataElement) (de : DataElement) :
  parseDataElement bytes n explicit limit = Val els ->
  In de els ->
  TagStr de <> "FFFEE000" -> VRStr de <> "SQ" ->
  Data de = sub (valueStart de) (valueEnd de) (backing bytes) /\
  0 <= valueStart de /\ valueStart de <= valueEnd de /\
  valueEnd de <= cap bytes.
Proof.
  intros Hp Hin Ht Hv.
  assert (HF : Forall (fun d => (TagStr d <> "FFFEE000" -> VRStr d <> "SQ" ->
                  Data d = sub (valueStart d) (valueEnd d) (backing bytes)) /\
                  0 <= valueStart d /\ valueStart d <= valueEnd d /\
                  valueEnd d <= cap bytes) els).
  { eapply parseDataElement_Forall; [|exact Hp].
    intros s d n' _ Hit. apply iteration_element in Hit.
    destruct Hit as (HN & Hs & HL & Hc & _ & _ & _ & Hleaf).
    pose proof (valueStart_gt d). unfold valueEnd in *.
    repeat split; try lia. exact Hleaf. }
  rewrite List.Forall_forall in HF. destruct (HF de Hin) as (Hd & Hrest).
  split; [exact (Hd Ht Hv) | exact Hrest].
Qed.

(** X12. Every decoded element carries its four tag bytes split in two
    pairs, the 8-character key of those bytes, and the zero values of the
    two fields the decoder never assigns ([VRLen] is 0 and [PartOfSQ] is
    false, so [String] never indents a decoded element). *)
Theorem decoded_element_fields (bytes : buffer) (n : Z) (explicit : bool)
        (limit : Z) (els : list DataElement) (de : DataElement) :
  parseDataElement bytes n explicit limit = Val els ->
  In de els ->
  TagGroup de = sub (N de) (N de + 2) (backing bytes) /\
  TagElem de = sub (N de + 2) (N de + 4) (backing bytes) /\
  tagString (TagGroup de ++ TagElem de) = Val (TagStr de) /\
  String.length (TagStr de) = 8%nat /\
  VRLen de = 0 /\ PartOfSQ de = false.
Proof.
  intros Hp Hin.
  assert (HF : Forall (fun d =>
                TagGroup d = sub (N d) (N d + 2) (backing bytes) /\
                TagElem d = sub (N d + 2) (N d + 4) (backing bytes) /\
                tagString (TagGroup d ++ TagElem d) = Val (TagStr d) /\
                String.length (TagStr d) = 8%nat /\
                VRLen d = 0 /\ PartOfSQ d = false) els).
  { eapply parseDataElement_Forall; [|exact Hp].
    intros s d n' _ Hit. apply iteration_inv in Hit.
    destruct Hit as (de0 & h & r & Htag & _ & _ & Ed & _).
    pose proof (readTag_fields _ _ _ Htag) as (Hg & He & _).
    apply readTag_Val in Htag.
    destruct Htag as (H0 & H4 & HN & Hk & Hvl & Hps).
    rewrite Ed. cbn [N TagGroup TagElem TagStr VRLen PartOfSQ].
    rewrite Hg, He, HN.
    rewrite sub_split by (rewrite <- ?cap_backing; lia).
    split; [reflexivity|]. split; [reflexivity|]. split; [exact Hk|].
    split; [|split; assumption].
    destruct (list_len4 (sub s (s + 4) (backing bytes))) as (a & b & c & d' & E).
    { rewrite length_sub; rewrite <- ?cap_backing; lia. }
    rewrite E, tagString_hex4 in Hk. inversion Hk. reflexivity. }
  rewrite List.Forall_forall in HF. exact (HF de Hin).
Qed.

(** X13. The VR of a decoded element follows the mode.  In implicit mode
    the element has no VR bytes and the empty VR code.  In explicit mode its
    VR bytes are the two bytes after the tag and its VR code is either the
    text of those bytes, a key of the VR dictionary, or the blank code "00"
    for two zero bytes that are no key; and an element whose VR code is not
    of the long form has a value length below 2^16. *)
Theorem decoded_VR_by_mode (bytes : buffer) (n : Z) (explicit : bool)
        (limit : Z) (els : list DataElement) (de : DataElement) :
  parseDataElement bytes n explicit limit = Val els ->
  In de els ->
  if explicit then
    VR de = sub (N de + 4) (N de + 6) (backing bytes) /\
    ((VRStr de = gostring (VR de) /\ is_Some (vri_VR !! VRStr de)) \/
     (VR de = [x00; x00] /\ VRStr de = "00" /\
      vri_VR !! gostring (VR de) = None)) /\
    (longForm (VRStr de) = false -> Len de < 65536)
  else VR de = [] /\ VRStr de = "".
Proof.
  intros Hp Hin.
  assert (HF : Forall (fun d =>
    if explicit then
      VR d = sub (N d + 4) (N d + 6) (backing bytes) /\
      ((VRStr d = gostring (VR d) /\ is_Some (vri_VR !! VRStr d)) \/
       (VR d = [x00; x00] /\ VRStr d = "00" /\
        vri_VR !! gostring (VR d) = None)) /\
      (longForm (VRStr d) = false -> Len d < 65536)
    else VR d = [] /\ VRStr d = "") els).
  { eapply parseDataElement_Forall; [|exact Hp].
    intros s d n' _ Hit. apply iteration_inv in Hit.
    destruct Hit as (de0 & h & r & Htag & Hh & Hr & Ed & Hdef).
    apply readTag_Val in Htag. destruct Htag as (_ & _ & HN & _).
    pose proof (readLength_fields _ _ _ _ _ Hh) as Hf.
    rewrite Ed. cbn [N VR VRStr Len]. rewrite HN.
    destruct explicit; [|exact Hf].
    destruct Hf as (Hvr & Hcls & Hshort).
    replace (s + 6) with (s + 4 + 2) by lia.
    split; [exact Hvr|]. split; [exact Hcls|].
    intros Hlf. specialize (Hshort Hlf).
    unfold resolveLength in Hr.
    destruct (hlen h =? undefinedLength) eqn:Eu.
    - apply Z.eqb_eq in Eu. unfold undefinedLength in Eu. lia.
    - inversion Hr; subst r. exact Hshort. }
  rewrite List.Forall_forall in HF. exact (HF de Hin).
Qed.

(** X14. The name of a decoded element is the name the tag dictionary
    holds for its key, and is empty when the key is missing from the
    dictionary (a missing tag is no error). *)
Theorem decoded_name_resolution (bytes : buffer) (n : Z) (explicit : bool)
        (limit : Z) (els : list DataElement) (de : DataElement) :
  parseDataElement bytes n explicit limit = Val els ->
  In de els ->
  Name de = match tag_Tag !! TagStr de with
            | Some e => default "" (e !! "name")
            | None => ""
            end.
Proof.
  intros Hp Hin.
  assert (HF : Forall (fun d =>
                Name d = match tag_Tag !! TagStr d with
                         | Some e => default "" (e !! "name")
                         | None => ""
                         end) els).
  { eapply parseDataElement_Forall; [|exact Hp].
    intros s d n' _ Hit. apply iteration_inv in Hit.
    destruct Hit as (de0 & h & r & Htag & _ & _ & Ed & _).
    pose proof (readTag_fields _ _ _ Htag) as (_ & _ & Hname).
    apply readTag_Val in Htag. destruct Htag as (H0 & H4 & _ & Hk & _).
    rewrite Ed. cbn [Name TagStr]. rewrite Hname.
    destruct (list_len4 (sub s (s + 4) (backing bytes))) as (a & b & c & d' & E).
    { rewrite length_sub; rewrite <- ?cap_backing; lia. }
    rewrite E, tagString_hex4 in Hk.
    assert (Hne : String.eqb (TagStr de0) "" = false).
    { apply String.eqb_neq. intros Ee. rewrite Ee in Hk. discriminate Hk. }
    rewrite Hne. unfold lookup2.
    destruct (tag_Tag !! TagStr de0); reflexivity. }
  rewrite List.Forall_forall in HF. exact (HF de Hin).
Qed.



Lemma laidOut_count (bytes : buffer) (els : list DataElement) :
  Forall (fun d => 0 <= Len d /\ N d + 4 <= len bytes) els ->
  forall lo, laidOut lo els -> els <> [] ->
             lo + 8 * Z.of_nat (length els) <= len bytes + 4.
Proof.
  induction 1 as [|d r (HL & Hd) Hr IH]; intros lo Hlo Hne; [congruence|].
  cbn [laidOut] in Hlo. destruct Hlo as (Hlo & Hrest).
  pose proof (valueEnd_ge d HL) as Hve.
  destruct r as [|d' r'].
  - cbn [length]. lia.
  - specialize (IH _ Hrest ltac:(discriminate)).
    cbn [length] in *. lia.
Qed.

(** X16. Every decoded element takes at least eight bytes of the buffer:
    a decode that starts at offset [n] returns at most
    [(len - n + 4) / 8] elements, and none at all when fewer than four
    bytes are left at [n] or below the limit. *)
Theorem decoded_element_count (bytes : buffer) (n : Z) (explicit : bool)
        (limit : Z) (els : list DataElement) :
  parseDataElement bytes n explicit limit = Val els ->
  (els <> [] -> n + 8 * Z.of_nat (length els) <= len bytes + 4) /\
  (len bytes < n + 4 \/ limit < n + 4 -> els = []).
Proof.
  intros Hp. split.
  - intros Hne.
    apply (laidOut_count bytes els); [| |exact Hne].
    + pose proof (parseDataElement_bounds _ _ _ _ _ Hp) as Hb.
      assert (HF : Forall (fun d => N d + 4 <= len bytes) els).
      { eapply parseDataElement_Forall; [|exact Hp].
        intros s d n' Hg Hit. apply guard_true in Hg.
        apply iteration_element in Hit. destruct Hit as (HN & _).
        rewrite HN. lia. }
      rewrite List.Forall_forall in *. intros d Hd.
      specialize (Hb d Hd). specialize (HF d Hd). simpl in Hb. lia.
    + eapply parseDataElement_laidOut; exact Hp.
  - intros Hshort. rewrite parseDataElement_unfold in Hp.
    destruct (guard bytes n n limit) eqn:Hg.
    + apply guard_true in Hg. lia.
    + congruence.
Qed.

(** X17. A lookup by the key of a decoded element never fails: on the
    elements of a decode, [LookupElement] with the tag key of one of them
    returns an element with that key, and of all elements with that key the
    one that comes first in the stream. *)
Theorem LookupElement_decoded (bytes : buffer) (n : Z) (explicit : bool)
        (limit : Z) (els : list DataElement) (path : string)
        (de : DataElement) :
  parseDataElement bytes n explicit limit = Val els ->
  In de els ->
  exists e, LookupElement (mkDicomFile els path) (TagStr de) = inl e /\
            In e els /\ TagStr e = TagStr de /\
            forall x, In x els -> TagStr x = TagStr de -> N e <= N x.
Proof.
  intros Hp Hin. unfold LookupElement. cbn [Elements].
  destruct (firstWith TagStr (TagStr de) els) as [e|] eqn:Ef.
  2:{ exfalso. pose proof (proj1 (firstWith_None _ _ _) Ef de Hin) as Hn.
      congruence. }
  exists e. split; [reflexivity|].
  apply firstWith_Some in Ef. destruct Ef as (pre & post & E & Hk & Hpre).
  split; [rewrite E; apply in_elt|]. split; [exact Hk|].
  intros x Hx Hkx.
  pose proof (parseDataElement_bounds _ _ _ _ _ Hp) as Hb.
  pose proof (parseDataElement_laidOut _ _ _ _ _ Hp) as Hlo.
  assert (HL : Forall (fun d => 0 <= Len d) els)
    by (eapply List.Forall_impl; [|exact Hb]; simpl; tauto).
  rewrite E in Hx. apply in_app_or in Hx. destruct Hx as [Hx | [Hx | Hx]].
  - exfalso. exact (Hpre x Hx Hkx).
  - subst x. lia.
  - rewrite E in Hlo, HL. apply laidOut_app in Hlo.
    assert (HL' : Forall (fun d => 0 <= Len d) post).
    { rewrite List.Forall_forall in *. intros d Hd. apply HL.
      apply in_or_app. right. right. exact Hd. }
    assert (HLe : 0 <= Len e).
    { rewrite List.Forall_forall in HL. apply HL. apply in_elt. }
    pose proof (laidOut_lower _ _ HL' Hlo) as Hlow.
    rewrite List.Forall_forall in Hlow. specialize (Hlow x Hx).
    pose proof (valueEnd_ge e HLe). lia.
Qed.

(** ** Further properties of the formatter *)

Lemma renderLoop_nil (w : Z) (read : list byte -> Z -> outcome Z) :
  0 < w -> renderLoop (renderFuel []) w read [] 0 "" = Val "".
Proof.
  intros Hw. cbn [renderFuel length renderLoop].
  destruct (0 + w <=? Z.of_nat 0) eqn:E; [|reflexivity].
  apply Z.leb_le in E. cbn in E. lia.
Qed.

Lemma transferSyntax_other (de : DataElement) :
  TagStr de <> "00020010" -> transferSyntax de = Val None.
Proof.
  intros H. unfold transferSyntax.
  destruct (String.eqb (TagStr de) "00020010") eqn:E; [|reflexivity].
  apply String.eqb_eq in E. contradiction.
Qed.

Lemma notFixed_flag (vr : string) :
  notFixedVR vr -> flagSet vr "fixed" = Val false.
Proof.
  unfold flagSet. intros [-> | ->]; reflexivity.
Qed.

Lemma stringData_empty_cases (de : DataElement) :
  Data de = [] ->
  (TagStr de = "00020010" -> stringData de = Panic OutOfRange) /\
  (TagStr de <> "00020010" ->
   (paddedVR (VRStr de) -> stringData de = Panic OutOfRange) /\
   (forall w, fixedVR (VRStr de) w -> stringData de = Val "") /\
   (plainVR (VRStr de) -> stringData de = Val "")).
Proof.
  intros Hd. split.
  - intros Ht. unfold stringData, transferSyntax. rewrite Ht, Hd. reflexivity.
  - intros Ht. unfold stringData. rewrite (transferSyntax_other de Ht).
    cbn [bind]. split; [|split].
    + intros (Hnf & Hp). rewrite (notFixed_flag _ Hnf). cbn [bind].
      unfold flagSet. rewrite Hp, Hd. reflexivity.
    + intros w (Hf & Hl). unfold flagSet. rewrite Hf, Hl, Hd.
      cbn [assertBool assertInt bind].
      destruct (w =? 1) eqn:E1; [apply renderLoop_nil; lia|].
      destruct (w =? 2) eqn:E2; [apply renderLoop_nil; lia|].
      destruct (w =? 4) eqn:E4; [apply renderLoop_nil; lia|].
      reflexivity.
    + intros (Hnf & Hp). rewrite (notFixed_flag _ Hnf). cbn [bind].
      unfold flagSet. rewrite Hd. destruct Hp as [-> | ->]; reflexivity.
Qed.

(** X18. The formatter on an empty value.  For the transfer-syntax element
    and for an element whose VR is flagged padded, [stringData] indexes the
    last byte of the value and so raises an index panic when the value is
    empty; for a fixed-size VR of any width and for a VR that is neither
    fixed nor padded it returns the empty string. *)
Theorem stringData_empty_value (de : DataElement) :
  Data de = [] ->
  (TagStr de = "00020010" -> stringData de = Panic OutOfRange) /\
  (TagStr de <> "00020010" ->
   (paddedVR (VRStr de) -> stringData de = Panic OutOfRange) /\
   (forall w, fixedVR (VRStr de) w -> stringData de = Val "") /\
   (plainVR (VRStr de) -> stringData de = Val "")).
Proof.
  exact (stringData_empty_cases de).
Qed.

Lemma decoded_Data_length (bytes : buffer) (n : Z) (explicit : bool)
      (limit : Z) (els : list DataElement) (de : DataElement) :
  parseDataElement bytes n explicit limit = Val els ->
  In de els ->
  0 <= Len de /\
  ((TagStr de = "FFFEE000" \/ VRStr de = "SQ") -> Data de = []) /\
  (TagStr de <> "FFFEE000" -> VRStr de <> "SQ" ->
   Z.of_nat (length (Data de)) = Len de).
Proof.
  intros Hp Hin.
  assert (HF : Forall (fun d => 0 <= Len d /\
                ((TagStr d = "FFFEE000" \/ VRStr d = "SQ") -> Data d = []) /\
                (TagStr d <> "FFFEE000" -> VRStr d <> "SQ" ->
                 Z.of_nat (length (Data d)) = Len d)) els).
  { eapply parseDataElement_Forall; [|exact Hp].
    intros s d n' _ Hit. apply iteration_element in Hit.
    destruct Hit as (HN & Hs & HL & Hc & _ & Hitem & Hsq & Hleaf).
    split; [lia|]. split.
    - intros [Ht | Hv].
      + exact (proj1 (Hitem Ht)).
      + destruct (string_dec (TagStr d) "FFFEE000") as [Ht | Ht].
        * exact (proj1 (Hitem Ht)).
        * exact (proj1 (Hsq Ht Hv)).
    - intros Ht Hv. rewrite (Hleaf Ht Hv).
      pose proof (valueStart_gt d). unfold valueEnd in *.
      rewrite length_sub; rewrite <- ?cap_backing; lia. }
  rewrite List.Forall_forall in HF. exact (HF de Hin).
Qed.

(** X19. A decoded element of length zero whose VR is flagged padded, or
    which is the transfer-syntax element, cannot be displayed: its value is
    empty, and both [StringData] and [String] raise an index panic on it. *)
Theorem decoded_zero_length_display (bytes : buffer) (n : Z) (explicit : bool)
        (limit : Z) (els : list DataElement) (de : DataElement) :
  parseDataElement bytes n explicit limit = Val els ->
  In de els ->
  Len de = 0 ->
  TagStr de = "00020010" \/ paddedVR (VRStr de) ->
  Data de = [] /\
  StringData de = Panic OutOfRange /\
  DataElement_String de = Panic OutOfRange.
Proof.
  intros Hp Hin HL Hc.
  destruct (decoded_Data_length _ _ _ _ _ _ Hp Hin) as (_ & Hcont & Hleaf).
  assert (Hd : Data de = []).
  { destruct (string_dec (TagStr de) "FFFEE000") as [Ht | Ht];
      [apply Hcont; left; exact Ht|].
    destruct (string_dec (VRStr de) "SQ") as [Hv | Hv];
      [apply Hcont; right; exact Hv|].
    specialize (Hleaf Ht Hv). rewrite HL in Hleaf.
    destruct (Data de); [reflexivity | discriminate]. }
  assert (Hs : stringData de = Panic OutOfRange).
  { destruct (stringData_empty_cases de Hd) as (H1 & H2).
    destruct (string_dec (TagStr de) "00020010") as [Ht | Ht]; [exact (H1 Ht)|].
    destruct Hc as [Hc | Hc]; [contradiction|].
    exact (proj1 (H2 Ht) Hc). }
  split; [exact Hd|]. split; [exact Hs|].
  unfold DataElement_String. rewrite HL, Hs. reflexivity.
Qed.

(** X20. A decoded leaf element of positive length can always be
    displayed as far as indexing goes: its value has [Len] bytes, so
    neither [StringData] nor [String] raises an index panic on it, and with
    well-typed dictionaries both return a string. *)
Theorem decoded_leaf_display (bytes : buffer) (n : Z) (explicit : bool)
        (limit : Z) (els : list DataElement) (de : DataElement) :
  parseDataElement bytes n explicit limit = Val els ->
  In de els ->
  TagStr de <> "FFFEE000" -> VRStr de <> "SQ" -> 0 < Len de ->
  StringData de <> Panic OutOfRange /\
  DataElement_String de <> Panic OutOfRange /\
  (VR_typed -> TS_typed ->
   (exists s, StringData de = Val s) /\
   (exists s, DataElement_String de = Val s)).
Proof.
  intros Hp Hin Ht Hv HL.
  destruct (decoded_Data_length _ _ _ _ _ _ Hp Hin) as (_ & _ & Hleaf).
  specialize (Hleaf Ht Hv).
  assert (Hd : Data de <> []).
  { intros E. rewrite E in Hleaf. cbn in Hleaf. lia. }
  unfold StringData, DataElement_String.
  destruct (stringData_result de Hd) as [(s & ->) | (-> & Hn)].
  - split; [discriminate|]. split.
    + destruct (Len de <? 128); discriminate.
    + intros _ _. split; [eauto|].
      destruct (Len de <? 128); cbn [bind]; eauto.
  - split; [discriminate|]. split.
    + destruct (Len de <? 128); discriminate.
    + intros Hvr Hts. exfalso. apply Hn. split; assumption.
Qed.

(** X21. The transfer-syntax element.  For an element with key 00020010
    and a non-empty value, the UID is the value without a trailing zero
    byte; when the transfer-syntax dictionary holds the UID with a string
    name, [stringData] returns the UID, a space and that name, whatever the
    VR; when it does not hold the UID, the element is rendered by its VR
    like any other. *)
Theorem transfer_syntax_rendering (de : DataElement) (r : list byte)
        (x : byte) :
  TagStr de = "00020010" -> Data de = r ++ [x] ->
  let uid := if b2z x =? 0 then gostring r else gostring (r ++ [x]) in
  (forall e name,
      ts_TS !! uid = Some e -> e !! "name" = Some (IString name) ->
      stringData de = Val (uid +:+ " " +:+ name)) /\
  (ts_TS !! uid = None -> transferSyntax de = Val None).
Proof.
  intros Ht Hd uid.
  assert (Hts : transferSyntax de =
                match ts_TS !! uid with
                | Some tsStr =>
                    name <- assertString (tsStr !! "name") ;;
                    Val (Some (uid +:+ " " +:+ name))
                | None => Val None
                end).
  { unfold transferSyntax. rewrite Ht, Hd. cbn [String.eqb Ascii.eqb Bool.eqb].
    destruct (last_byte r x) as (Hi & Hs). cbn zeta in Hi, Hs.
    rewrite Hi. cbn [bind]. subst uid.
    destruct (b2z x =? 0); [rewrite Hs|]; reflexivity. }
  split.
  - intros e name He Hn. unfold stringData. rewrite Hts, He, Hn. reflexivity.
  - intros Hn. rewrite Hts, Hn. reflexivity.
Qed.

(** ** [parseSQDataElements] *)

Lemma tagString_itemDelimiter : tagString itemDelimiter = Val "FFFEE00D".
Proof. reflexivity. Qed.

Lemma sqScan_test (bytes : buffer) (q : Z) :
  0 <= q -> q + 4 <= cap bytes ->
  exists k, tagString (sub q (q + 4) (backing bytes)) = Val k /\
            (String.eqb k "FFFEE00D" = true <->
             sub q (q + 4) (backing bytes) = itemDelimiter).
Proof.
  intros H0 H4.
  assert (Hl : length (sub q (q + 4) (backing bytes)) = 4%nat)
    by (rewrite length_sub; rewrite <- ?cap_backing; lia).
  destruct (tagString_len _ Hl) as (k & Hk). exists k. split; [exact Hk|].
  apply (tagString_is _ itemDelimiter); auto using tagString_itemDelimiter.
Qed.

Lemma sqScan_Some (bytes : buffer) (n : Z) :
  forall (fuel : nat) (m v : Z),
    sqScan fuel bytes n m = Val (Some v) ->
    m + 4 <= v /\ v <= cap bytes /\ v <= len bytes + 4.
Proof.
  induction fuel as [|fuel IH]; intros m v H; [discriminate|].
  cbn [sqScan] in H.
  destruct (m <=? len bytes) eqn:Em; [|discriminate].
  apply Z.leb_le in Em.
  apply bind_Val in H. destruct H as (t & Ht & H).
  apply bind_Val in H. destruct H as (k & Hk & H).
  apply slice_Val in Ht. destruct Ht as (H0 & _ & H4 & _).
  destruct (String.eqb k "FFFEE00D").
  - apply bind_Val in H. destruct H as (? & _ & H).
    apply bind_Val in H. destruct H as (? & _ & H).
    inversion H; subst v. lia.
  - apply IH in H. lia.
Qed.

Lemma sqScan_cases (bytes : buffer) (n : Z) :
  forall (fuel : nat) (m : Z),
    (Z.to_nat (len bytes + 1 - m) < fuel)%nat ->
    (exists v, sqScan fuel bytes n m = Val (Some v)) \/
    (sqScan fuel bytes n m = Val None /\
     (len bytes < m \/ len bytes + 4 <= cap bytes)) \/
    sqScan fuel bytes n m = Panic OutOfRange.
Proof.
  induction fuel as [|fuel IH]; intros m Hf; [lia|].
  cbn [sqScan].
  destruct (m <=? len bytes) eqn:Em.
  2:{ apply Z.leb_gt in Em. right; left. split; [reflexivity | lia]. }
  apply Z.leb_le in Em.
  destruct (slice_cases bytes m (m + 4)) as [(H0 & _ & H4 & ->) | (_ & ->)];
    [|right; right; reflexivity].
  cbn [bind].
  destruct (sqScan_test bytes m H0 H4) as (k & -> & _). cbn [bind].
  destruct (String.eqb k "FFFEE00D").
  - destruct (slice_cases bytes n m) as [(_ & _ & _ & ->) | (_ & ->)];
      cbn [bind]; [left; eauto | right; right; reflexivity].
  - destruct (IH (m + 1) ltac:(lia)) as [H | [(H & Hc) | H]].
    + left. exact H.
    + right; left. split; [exact H | lia].
    + right; right. exact H.
Qed.

Lemma sqScan_None (bytes : buffer) (n : Z) :
  len bytes + 4 <= cap bytes ->
  forall (fuel : nat) (m : Z),
    0 <= m -> (Z.to_nat (len bytes + 1 - m) < fuel)%nat ->
    (forall q, m <= q <= len bytes ->
               sub q (q + 4) (backing bytes) <> itemDelimiter) ->
    sqScan fuel bytes n m = Val None.
Proof.
  intros Hcap. induction fuel as [|fuel IH]; intros m H0 Hf Hno; [lia|].
  cbn [sqScan].
  destruct (m <=? len bytes) eqn:Em; [|reflexivity].
  apply Z.leb_le in Em.
  rewrite slice_ok by lia. cbn [bind].
  destruct (sqScan_test bytes m H0 ltac:(lia)) as (k & -> & Hk). cbn [bind].
  destruct (String.eqb k "FFFEE00D") eqn:Ek.
  - exfalso. apply (Hno m ltac:(lia)). apply Hk. reflexivity.
  - apply IH; [lia | lia |]. intros q Hq. apply Hno. lia.
Qed.

(** The head of one pass of the outer loop: the slices and the two calls
    of [tagString] on the tag at [n]. *)
Lemma parseSQLoop_step (fuel : nat) (bytes : buffer) (n m0 : Z) :
  n <= len bytes -> m0 + 4 <= len bytes ->
  (~ (0 <= n /\ n + 4 <= cap bytes) /\
   parseSQLoop (S fuel) bytes n m0 = Panic OutOfRange) \/
  (0 <= n /\ n + 4 <= cap bytes /\
   parseSQLoop (S fuel) bytes n m0 =
   (r <- sqScan (sqScanFuel bytes (n + 4)) bytes n (n + 4) ;;
    match r with
    | Some n' => parseSQLoop fuel bytes n' m0
    | None => parseSQLoop fuel bytes n m0
    end)).
Proof.
  intros Hn Hm. cbn [parseSQLoop].
  rewrite (proj2 (Z.leb_le _ _) Hn), (proj2 (Z.leb_le _ _) Hm).
  cbn [andb].
  destruct (slice_cases bytes n (n + 4)) as [(H0 & _ & H4 & E) | (Hbad & E)].
  - right. split; [exact H0|]. split; [exact H4|].
    rewrite E. cbn [bind].
    destruct (sqScan_test bytes n H0 H4) as (k & -> & _). cbn [bind].
    rewrite !slice_ok by lia. reflexivity.
  - left. split; [lia|]. rewrite E. reflexivity.
Qed.

Lemma parseSQLoop_Val (bytes : buffer) (m0 : Z) :
  m0 + 4 <= len bytes ->
  forall (fuel : nat) (n v : Z),
    parseSQLoop fuel bytes n m0 = Val v ->
    len bytes < v /\ (v = n \/ v <= cap bytes).
Proof.
  intros Hm. induction fuel as [|fuel IH]; intros n v H; [discriminate|].
  destruct (Z_le_gt_dec n (len bytes)) as [Hn | Hn].
  - destruct (parseSQLoop_step fuel bytes n m0 Hn Hm)
      as [(_ & E) | (H0 & H4 & E)]; rewrite E in H; [discriminate|].
    apply bind_Val in H. destruct H as (r & Hr & H).
    destruct r as [n'|].
    + apply sqScan_Some in Hr. apply IH in H. lia.
    + apply IH in H. exact H.
  - cbn [parseSQLoop] in H.
    rewrite (proj2 (Z.leb_gt _ _)) in H by lia. cbn [andb] in H.
    inversion H; subst v. lia.
Qed.

Lemma sqScan_finds (bytes : buffer) (n p : Z) :
  0 <= n -> p <= len bytes -> p + 4 <= cap bytes ->
  sub p (p + 4) (backing bytes) = itemDelimiter ->
  forall (fuel : nat) (m : Z),
    n <= m <= p -> (Z.to_nat (p - m) < fuel)%nat ->
    (forall q, m <= q < p -> sub q (q + 4) (backing bytes) <> itemDelimiter) ->
    sqScan fuel bytes n m = Val (Some (p + 4)).
Proof.
  intros Hn Hp Hcap Hd.
  induction fuel as [|fuel IH]; intros m Hm Hf Hno; [lia|].
  cbn [sqScan].
  rewrite (proj2 (Z.leb_le m (len bytes))) by lia.
  rewrite slice_ok by lia. cbn [bind].
  destruct (sqScan_test bytes m ltac:(lia) ltac:(lia)) as (k & -> & Hk).
  cbn [bind].
  destruct (Z.eq_dec m p) as [-> | Hne].
  - rewrite (proj2 Hk Hd). rewrite !slice_ok by lia. reflexivity.
  - destruct (String.eqb k "FFFEE00D") eqn:Ek.
    + exfalso. apply (Hno m ltac:(lia)). apply Hk. reflexivity.
    + apply IH; [lia | lia |]. intros q Hq. apply Hno. lia.
Qed.

(** X22. When [parseSQDataElements] returns, and what.  When fewer than
    four bytes are left at [n], the call returns [n] unchanged.  When a
    whole tag is in range at [n], any offset the call returns lies beyond
    the length of the slice, inside its spare capacity, so on a slice
    without spare capacity it returns no offset at all.  Such a return
    does happen: when the first item delimiter at or after [n + 4] starts
    within the length of the slice and ends in its spare capacity, the call
    returns the offset just behind that delimiter. *)
Theorem parseSQDataElements_returns_past_len (fuel : nat) (bytes : buffer)
        (n : Z) (explicit : bool) :
  (len bytes < n + 4 ->
   parseSQDataElements (S fuel) bytes n explicit = Val n) /\
  (n + 4 <= len bytes ->
   forall v, parseSQDataElements fuel bytes n explicit = Val v ->
             len bytes < v <= cap bytes) /\
  (0 <= n -> n + 4 <= len bytes ->
   forall p,
     n + 4 <= p <= len bytes -> len bytes < p + 4 <= cap bytes ->
     sub p (p + 4) (backing bytes) = itemDelimiter ->
     (forall q, n + 4 <= q < p ->
                sub q (q + 4) (backing bytes) <> itemDelimiter) ->
     parseSQDataElements (S (S fuel)) bytes n explicit = Val (p + 4)).
Proof.
  unfold parseSQDataElements. split; [|split].
  - intros Hn. cbn [parseSQLoop].
    rewrite (proj2 (Z.leb_gt (n + 4) (len bytes))) by lia.
    rewrite andb_false_r. reflexivity.
  - intros Hn v H. apply (parseSQLoop_Val bytes n Hn) in H. lia.
  - intros H0 Hn p Hp Hend Hd Hno.
    destruct (parseSQLoop_step (S fuel) bytes n n ltac:(lia) Hn)
      as [(Hbad & _) | (_ & _ & E)]; [lia|].
    rewrite E.
    rewrite (sqScan_finds bytes n p) by (unfold sqScanFuel; auto; lia).
    cbn [bind parseSQLoop].
    rewrite (proj2 (Z.leb_gt (p + 4) (len bytes))) by lia. reflexivity.
Qed.

Lemma parseSQLoop_panics (bytes : buffer) (m0 : Z) :
  cap bytes = len bytes -> m0 + 4 <= len bytes ->
  forall (fuel : nat) (n : Z),
    n <= len bytes -> (Z.to_nat (len bytes - n) < fuel)%nat ->
    parseSQLoop fuel bytes n m0 = Panic OutOfRange.
Proof.
  intros Hcap Hm. induction fuel as [|fuel IH]; intros n Hn Hf; [lia|].
  destruct (parseSQLoop_step fuel bytes n m0 Hn Hm)
    as [(_ & E) | (H0 & H4 & E)]; rewrite E; [reflexivity|].
  destruct (sqScan_cases bytes n (sqScanFuel bytes (n + 4)) (n + 4))
    as [(v & Hv) | [(Hv & Hc) | Hv]].
  - unfold sqScanFuel. lia.
  - rewrite Hv. cbn [bind]. apply sqScan_Some in Hv. apply IH; lia.
  - lia.
  - rewrite Hv. reflexivity.
Qed.

(** X23. On a slice without spare capacity, a call of
    [parseSQDataElements] with a whole tag in range at [n] ends in a slice
    bounds panic: each pass of the outer loop either moves [n] ahead by at
    least eight bytes or slices past the end of the array. *)
Theorem parseSQDataElements_panics_without_spare (fuel : nat)
        (bytes : buffer) (n : Z) (explicit : bool) :
  cap bytes = len bytes -> n + 4 <= len bytes ->
  (Z.to_nat (len bytes - n) < fuel)%nat ->
  parseSQDataElements fuel bytes n explicit = Panic OutOfRange.
Proof.
  intros Hcap Hn Hf. unfold parseSQDataElements.
  apply parseSQLoop_panics; auto; lia.
Qed.

(** X24. [parseSQDataElements] can loop for ever.  On a slice with at
    least four bytes of spare capacity and a whole tag in range at [n],
    when no item delimiter starts at any offset from [n + 4] to the length
    of the slice, the inner loop ends without a change of [n] and the outer
    loop repeats the same pass: the call returns for no number of passes. *)
Theorem parseSQDataElements_diverges (fuel : nat) (bytes : buffer) (n : Z)
        (explicit : bool) :
  0 <= n -> n + 4 <= len bytes -> len bytes + 4 <= cap bytes ->
  (forall q, n + 4 <= q <= len bytes ->
             sub q (q + 4) (backing bytes) <> itemDelimiter) ->
  parseSQDataElements fuel bytes n explicit = OutOfFuel.
Proof.
  intros H0 Hn Hcap Hno. unfold parseSQDataElements.
  induction fuel as [|fuel IH]; [reflexivity|].
  destruct (parseSQLoop_step fuel bytes n n ltac:(lia) Hn)
    as [(Hbad & _) | (_ & _ & E)]; [lia|].
  rewrite E, (sqScan_None bytes n Hcap); [exact IH | lia | | exact Hno].
  unfold sqScanFuel. lia.
Qed.

(** ** Decoding what the encoder wrote *)

Lemma b2z_byte_of_Z (z : Z) : b2z (byte_of_Z z) = z mod 256.
Proof.
  unfold byte_of_Z, b2z.
  pose proof (Z.mod_pos_bound z 256 ltac:(lia)) as Hb.
  destruct (Byte.of_N (Z.to_N (z mod 256))) as [y|] eqn:E.
  - cbn [from_option id]. apply Byte.to_of_N in E. rewrite E. lia.
  - apply Byte.of_N_None_iff in E. lia.
Qed.

Lemma length_le_bytes (k : nat) : forall z, length (le_bytes k z) = k.
Proof.
  induction k as [|k IH]; intros z; cbn [le_bytes length]; [reflexivity|].
  rewrite IH. reflexivity.
Qed.

Lemma le_value_le_bytes (k : nat) :
  forall z, 0 <= z < 256 ^ Z.of_nat k -> le_value (le_bytes k z) = z.
Proof.
  induction k as [|k IH]; intros z Hz.
  - cbn in Hz. cbn [le_bytes le_value]. lia.
  - cbn [le_bytes le_value]. rewrite b2z_byte_of_Z.
    rewrite Nat2Z.inj_succ, Z.pow_succ_r in Hz by lia.
    rewrite IH.
    + pose proof (Z.div_mod z 256 ltac:(lia)). lia.
    + split; [apply Z.div_pos; lia|].
      apply Z.div_lt_upper_bound; lia.
Qed.

Lemma sub_eq (l a b c : list byte) (lo hi : Z) :
  l = a ++ b ++ c -> lo = Z.of_nat (length a) ->
  hi = lo + Z.of_nat (length b) -> sub lo hi l = b.
Proof.
  intros -> -> ->. unfold sub.
  replace (Z.of_nat (length a) + Z.of_nat (length b) - Z.of_nat (length a))
    with (Z.of_nat (length b)) by lia.
  rewrite !Nat2Z.id, drop_app_length, take_app_length. reflexivity.
Qed.

Lemma slice_at (bytes : buffer) (a b c : list byte) (lo hi : Z) :
  backing bytes = a ++ b ++ c -> lo = Z.of_nat (length a) ->
  hi = lo + Z.of_nat (length b) -> slice bytes lo hi = Val b.
Proof.
  intros HB Hlo Hhi. rewrite slice_ok.
  - f_equal. eapply sub_eq; eauto.
  - lia.
  - lia.
  - rewrite cap_backing, HB, !length_app. lia.
Qed.

Lemma name_of_key (k : string) :
  String.length k = 8%nat ->
  (if String.eqb k "" then ""
   else match tag_Tag !! k with
        | None => ""
        | Some _ => default "" (lookup2 tag_Tag k "name")
        end) =
  match tag_Tag !! k with
  | Some e => default "" (e !! "name")
  | None => ""
  end.
Proof.
  intros Hl.
  assert (Hne : String.eqb k "" = false).
  { apply String.eqb_neq. intros E. rewrite E in Hl. discriminate Hl. }
  rewrite Hne. unfold lookup2. destruct (tag_Tag !! k); reflexivity.
Qed.

Lemma tagKey_length (t : list byte) :
  length t = 4%nat ->
  tagString t = Val (tagKey t) /\ String.length (tagKey t) = 8%nat.
Proof.
  intros Hl. destruct (list_len4 t Hl) as (a & b & c & d & ->).
  unfold tagKey. rewrite tagString_hex4. split; reflexivity.
Qed.

(** Lines 236-254 on an encoded tag. *)
Lemma readTag_at (bytes : buffer) (pre t rest : list byte) :
  length t = 4%nat ->
  backing bytes = pre ++ t ++ rest ->
  readTag bytes (Z.of_nat (length pre)) =
  Val (mkDataElement (Z.of_nat (length pre)) (firstn 2 t) (skipn 2 t)
                     (tagKey t)
                     (match tag_Tag !! tagKey t with
                      | Some e => default "" (e !! "name")
                      | None => ""
                      end) [] "" 0 0 [] false).
Proof.
  intros Hl HB. destruct (tagKey_length t Hl) as (Hk & Hk8).
  destruct (list_len4 t Hl) as (t0 & t1 & t2 & t3 & Et).
  unfold readTag.
  rewrite (slice_at bytes pre t rest) by (auto; lia). cbn [bind].
  rewrite (slice_at bytes pre [t0; t1] ([t2; t3] ++ rest))
    by (rewrite ?HB, ?Et; cbn [length]; reflexivity || lia).
  cbn [bind].
  rewrite (slice_at bytes (pre ++ [t0; t1]) [t2; t3] rest)
    by (rewrite ?HB, ?Et, <- ?app_assoc, ?length_app; cbn [length];
        reflexivity || lia).
  cbn [bind]. rewrite Hk. cbn [bind].
  rewrite (name_of_key _ Hk8), Et. reflexivity.
Qed.

(** Lines 255-309 on an encoded VR and length. *)
Lemma readLength_at (bytes : buffer) (explicit : bool) (limit : Z)
      (pre rest : list byte) (r : rawElement) :
  encodable explicit r ->
  backing bytes = pre ++ encodeElement explicit r ++ rest ->
  exists h,
    readLength bytes (Z.of_nat (length pre) + 4) explicit limit = Val h /\
    hVR h = (if explicit then rawVR r else []) /\
    hVRStr h = (if explicit then gostring (rawVR r) else "") /\
    hvr h = hVRStr h /\
    hlen h = Z.of_nat (length (rawValue r)) /\
    hn h + hlen h =
      Z.of_nat (length pre) + Z.of_nat (length (encodeElement explicit r)) /\
    sub (hn h) (hn h + hlen h) (backing bytes) = rawValue r.
Proof.
  intros (Ht & _ & HL & Hex) HB.
  unfold encodeElement in *. cbn zeta in *.
  set (L := Z.of_nat (length (rawValue r))) in *.
  unfold readLength. destruct explicit.
  - destruct (Hex eq_refl) as (Hvr & Hin & _ & Hshort).
    rewrite !(slice_at bytes (pre ++ rawTag r) (rawVR r)
                       ((if longForm (gostring (rawVR r))
                         then [x00; x00] ++ le_bytes 4 L else le_bytes 2 L)
                        ++ rawValue r ++ rest))
      by (rewrite ?HB, <- ?app_assoc, ?length_app; reflexivity || lia).
    cbn [bind]. destruct Hin as (e & ->). cbn [bind].
    destruct (longForm (gostring (rawVR r))) eqn:Elf.
    + rewrite (slice_at bytes (pre ++ rawTag r ++ rawVR r) [x00; x00]
                        (le_bytes 4 L ++ rawValue r ++ rest))
        by (rewrite ?HB, <- ?app_assoc, ?length_app; cbn [length];
            reflexivity || lia).
      cbn [bind].
      rewrite !(slice_at bytes (pre ++ rawTag r ++ rawVR r ++ [x00; x00])
                         (le_bytes 4 L) (rawValue r ++ rest))
        by (rewrite ?HB, <- ?app_assoc, ?length_app, ?length_le_bytes;
            cbn [length]; reflexivity || lia).
      cbn [bind].
      rewrite Uint32_len by apply length_le_bytes.
      rewrite le_value_le_bytes by (cbn; lia). cbn [bind].
      eexists. split; [reflexivity|]. cbn [hVR hVRStr hvr hlen hn].
      repeat split.
      * rewrite !length_app, length_le_bytes. cbn [length]. lia.
      * apply (sub_eq _ (pre ++ rawTag r ++ rawVR r ++ [x00; x00]
                           ++ le_bytes 4 L) (rawValue r) rest);
          rewrite ?HB, <- ?app_assoc, ?length_app, ?length_le_bytes;
          cbn [length]; reflexivity || lia.
    + specialize (Hshort eq_refl).
      rewrite !(slice_at bytes (pre ++ rawTag r ++ rawVR r)
                         (le_bytes 2 L) (rawValue r ++ rest))
        by (rewrite ?HB, <- ?app_assoc, ?length_app, ?length_le_bytes;
            cbn [length]; reflexivity || lia).
      cbn [bind].
      rewrite Uint16_len by apply length_le_bytes.
      rewrite le_value_le_bytes by (cbn; lia). cbn [bind].
      eexists. split; [reflexivity|]. cbn [hVR hVRStr hvr hlen hn].
      assert (Eu : uint32 L = L) by (unfold uint32; apply Z.mod_small; lia).
      rewrite Eu. repeat split.
      * rewrite !length_app, length_le_bytes. lia.
      * apply (sub_eq _ (pre ++ rawTag r ++ rawVR r ++ le_bytes 2 L)
                      (rawValue r) rest);
          rewrite ?HB, <- ?app_assoc, ?length_app, ?length_le_bytes;
          cbn [length]; reflexivity || lia.
  - rewrite !(slice_at bytes (pre ++ rawTag r) (le_bytes 4 L)
                       (rawValue r ++ rest))
      by (rewrite ?HB, <- ?app_assoc, ?length_app, ?length_le_bytes;
          reflexivity || lia).
    cbn [bind].
    rewrite Uint32_len by apply length_le_bytes.
    rewrite le_value_le_bytes by (cbn; lia). cbn [bind].
    eexists. split; [reflexivity|]. cbn [hVR hVRStr hvr hlen hn].
    repeat split.
    + rewrite !length_app, length_le_bytes. lia.
    + apply (sub_eq _ (pre ++ rawTag r ++ le_bytes 4 L) (rawValue r) rest);
        rewrite ?HB, <- ?app_assoc, ?length_app, ?length_le_bytes;
        cbn [length]; reflexivity || lia.
Qed.

(** One pass of the main loop on an encoded element. *)
Lemma iteration_at (self : Z -> bool -> Z -> outcome (list DataElement))
      (bytes : buffer) (explicit : bool) (limit : Z)
      (pre rest : list byte) (r : rawElement) :
  encodable explicit r ->
  backing bytes = pre ++ encodeElement explicit r ++ rest ->
  iteration self bytes (Z.of_nat (length pre)) explicit limit =
  Val (decodedElement explicit (Z.of_nat (length pre)) r,
       Z.of_nat (length pre) + Z.of_nat (length (encodeElement explicit r))).
Proof.
  intros Henc HB.
  destruct (readLength_at bytes explicit limit pre rest r Henc HB)
    as (h & Hh & HVR & HVRStr & Hvr & Hlen & Hend & Hval).
  destruct Henc as (Ht & Hitem & HL & Hex).
  unfold iteration.
  rewrite (readTag_at bytes pre (rawTag r)
             ((if explicit
               then rawVR r ++
                    (if longForm (gostring (rawVR r))
                     then [x00; x00] ++
                          le_bytes 4 (Z.of_nat (length (rawValue r)))
                     else le_bytes 2 (Z.of_nat (length (rawValue r))))
               else le_bytes 4 (Z.of_nat (length (rawValue r))))
              ++ rawValue r ++ rest) Ht)
    by (rewrite HB; unfold encodeElement; cbn zeta;
        rewrite <- ?app_assoc; reflexivity).
  cbn [bind]. rewrite Hh. cbn [bind TagStr].
  unfold resolveLength.
  assert (Eu : (hlen h =? undefinedLength) = false)
    by (apply Z.eqb_neq; unfold undefinedLength; lia).
  rewrite Eu. cbn [bind fst snd].
  apply readLength_Val in Hh. destruct Hh as (Hn0 & Hhn & Hcap & Hl32 & _).
  assert (Hc : hn h + hlen h <= cap bytes).
  { rewrite Hend, cap_backing, HB, !length_app. lia. }
  rewrite materialize_eq by lia. cbn [TagStr].
  assert (E1 : String.eqb (tagKey (rawTag r)) "FFFEE000" = false)
    by (apply String.eqb_neq; exact Hitem).
  assert (E2 : String.eqb (hvr h) "SQ" = false).
  { apply String.eqb_neq. rewrite Hvr, HVRStr. destruct explicit.
    - exact (proj1 (proj2 (proj2 (Hex eq_refl)))).
    - discriminate. }
  rewrite E1, E2. cbn [bind N TagGroup TagElem TagStr Name VRLen PartOfSQ].
  rewrite Hval, HVR, HVRStr, Hlen, <- Hend, Hlen. reflexivity.
Qed.

Lemma length_encodeElement (explicit : bool) (r : rawElement) :
  length (rawTag r) = 4%nat ->
  (4 <= length (encodeElement explicit r))%nat.
Proof.
  intros Ht. unfold encodeElement. cbn zeta. rewrite length_app. lia.
Qed.

Lemma decode_encoded (explicit : bool) (limit : Z) (rs : list rawElement) :
  Forall (encodable explicit) rs ->
  forall (bytes : buffer) (pre : list byte),
    visible bytes = pre ++ encodeAll explicit rs ->
    len bytes <= limit ->
    parseDataElement bytes (Z.of_nat (length pre)) explicit limit =
    Val (decodedAll explicit (Z.of_nat (length pre)) rs).
Proof.
  induction 1 as [|r rs Hr Hrs IH]; intros bytes pre HV Hlim.
  - rewrite parseDataElement_unfold.
    destruct (guard bytes (Z.of_nat (length pre)) (Z.of_nat (length pre)) limit)
      eqn:Hg; [|reflexivity].
    apply guard_true in Hg. unfold len in Hg. rewrite HV in Hg.
    unfold encodeAll in Hg. cbn [map concat] in Hg.
    rewrite app_nil_r in Hg. lia.
  - unfold encodeAll in HV. cbn [map concat] in HV.
    fold (encodeAll explicit rs) in HV.
    pose proof (length_encodeElement explicit r (proj1 Hr)) as Hge.
    rewrite parseDataElement_unfold.
    assert (Hg : guard bytes (Z.of_nat (length pre)) (Z.of_nat (length pre))
                       limit = true).
    { apply guard_true. unfold len in *. rewrite HV in *.
      rewrite !length_app in *. lia. }
    rewrite Hg.
    rewrite (iteration_at _ bytes explicit limit pre
                          (encodeAll explicit rs ++ spare bytes) r Hr)
      by (unfold backing; rewrite HV, <- !app_assoc; reflexivity).
    replace (Z.of_nat (length pre) +
             Z.of_nat (length (encodeElement explicit r)))
      with (Z.of_nat (length (pre ++ encodeElement explicit r)))
      by (rewrite length_app; lia).
    rewrite (IH bytes (pre ++ encodeElement explicit r))
      by (rewrite ?HV, <- ?app_assoc; auto).
    cbn [bind decodedAll]. rewrite length_app, Nat2Z.inj_add. reflexivity.
Qed.

(** X25. Decoding inverts encoding.  When the visible bytes of a buffer
    are some prefix followed by the wire forms of a list of encodable
    elements, a decode in the same mode from the end of the prefix, with a
    limit of at least the buffer's length, returns exactly these elements
    in order: each with its offset, tag bytes and key, dictionary name, VR
    (explicit mode), length and value. *)
Theorem decode_encode_roundtrip (explicit : bool) (limit : Z)
        (rs : list rawElement) (bytes : buffer) (pre : list byte) :
  Forall (encodable explicit) rs ->
  visible bytes = pre ++ encodeAll explicit rs ->
  len bytes <= limit ->
  parseDataElement bytes (Z.of_nat (length pre)) explicit limit =
  Val (decodedAll explicit (Z.of_nat (length pre)) rs).
Proof.
  intros Hrs HV Hlim. apply decode_encoded; assumption.
Qed.

(** ** The failure modes of the formatter *)

Lemma flagSet_typed (vr key : string) :
  (forall v, lookup2 vri_VR vr key = Some v -> exists b, v = IBool b) ->
  exists b, flagSet vr key = Val b.
Proof.
  intros Ht.
  destruct (flagSet_cases vr key)
    as [(_ & E) | [(b & _ & E) | ((v & Hl & Hv) & _)]]; eauto.
  destruct (Ht v Hl) as (b & Eb). exfalso. exact (Hv b Eb).
Qed.

(** X26. With well-typed dictionaries the only way [stringData] fails is
    the index panic on an empty value: for every element it either returns
    a string, or the value is empty and it raises an index panic; the same
    holds for [String]. *)
Theorem formatter_failure_modes (de : DataElement) :
  VR_typed -> TS_typed ->
  ((exists s, stringData de = Val s) \/
   (Data de = [] /\ stringData de = Panic OutOfRange)) /\
  ((exists s, DataElement_String de = Val s) \/
   (Data de = [] /\ DataElement_String de = Panic OutOfRange)).
Proof.
  intros Hvr Hts.
  assert (Hs : (exists s, stringData de = Val s) \/
               (Data de = [] /\ stringData de = Panic OutOfRange)).
  { destruct (Data de) as [|x d] eqn:Hd.
    - destruct (stringData_empty_cases de Hd) as (H1 & H2).
      destruct (string_dec (TagStr de) "00020010") as [Ht | Ht];
        [right; split; [reflexivity | exact (H1 Ht)]|].
      destruct (Hvr (VRStr de)) as (Hfix & Hlen & Hpad).
      unfold stringData. rewrite (transferSyntax_other de Ht). cbn [bind].
      destruct (flagSet_typed _ _ Hfix) as (b & Eb). rewrite Eb. cbn [bind].
      destruct b.
      + assert (Hf : lookup2 vri_VR (VRStr de) "fixed" = Some (IBool true)).
        { unfold flagSet in Eb.
          destruct (lookup2 vri_VR (VRStr de) "fixed") as [[b|z|s]|];
            cbn in Eb; congruence. }
        destruct (Hlen Hf) as (z & Hz).
        left. exists "".
        pose proof (proj1 (proj2 (H2 Ht)) z (conj Hf Hz)) as Hr.
        unfold stringData in Hr.
        rewrite (transferSyntax_other de Ht), Eb in Hr. exact Hr.
      + destruct (flagSet_typed _ _ Hpad) as (b' & Eb'). rewrite Eb'.
        cbn [bind]. rewrite Hd. destruct b'.
        * right. split; reflexivity.
        * left. eauto.
    - destruct (stringData_result de) as [H | (_ & Hn)].
      + rewrite Hd. discriminate.
      + left. exact H.
      + exfalso. apply Hn. split; assumption. }
  split; [exact Hs|].
  unfold DataElement_String.
  destruct (Len de <? 128); [|left; eauto].
  destruct Hs as [(s & ->) | (Hd & ->)]; cbn [bind]; [left; eauto | right; auto].
Qed.

End Decoder.

(** ** Concrete evaluations *)

Example tagString_item : tagString [xfe; xff; x00; xe0] = Val "FFFEE000".
Proof. reflexivity. Qed.

Example Uint32_sample : Uint32 [x08; x01; x00; x00] = Val 264.
Proof. reflexivity. Qed.

Example Sprintf_d_sample :
  Sprintf_d_sp 0 = "0 " /\ Sprintf_d_sp 65535 = "65535 ".
Proof. split; reflexivity. Qed.

Example decode_uidBuffer :
  ProcessFile sampleTag sampleVR uidBuffer 0 true = Val [uidElement].
Proof. vm_compute. reflexivity. Qed.

Lemma leaf_value_length_witness :
  Z.of_nat (length (Data uidElement)) = Len uidElement.
Proof.
  apply (leaf_value_length sampleTag sampleVR uidBuffer 0 true 16 [uidElement]).
  - vm_compute. reflexivity.
  - left. reflexivity.
  - vm_compute. discriminate.
  - vm_compute. discriminate.
  - vm_compute. discriminate.
Defined.

(** C3, counterexample. The SQ element of [sqBuffer] has one child, which
    the recursive call over the span 12..28 returns; the result of the
    decode consists of the SQ element alone. *)
Lemma children_not_appended :
  parseDataElement sampleTag sampleVR sqBuffer 12 false 28 = Val [sqChild] /\
  ProcessFile sampleTag sampleVR sqBuffer 0 true = Val [sqElement] /\
  ~ In sqChild [sqElement].
Proof.
  split; [vm_compute; reflexivity|].
  split; [vm_compute; reflexivity|].
  intros [H | []]. discriminate H.
Qed.

Lemma container_children_dropped_witness :
  Data sqElement = [] /\
  exists mode children,
    parseDataElement sampleTag sampleVR sqBuffer (valueStart sqElement) mode
                     (valueEnd sqElement) = Val children /\
    forall c, In c children -> ~ In c [sqElement].
Proof.
  apply (container_children_dropped sampleTag sampleVR sqBuffer 0 true 28).
  - vm_compute. reflexivity.
  - left. reflexivity.
  - right. reflexivity.
Defined.

Lemma container_recursion_mode_witness :
  ((exists rest,
       parseDataElement sampleTag sampleVR itemBuffer 24 false 24 = Val rest /\
       parseDataElement sampleTag sampleVR itemBuffer 0 false 24 =
       Val (itemElement :: rest)) \/
   (exists k,
       parseDataElement sampleTag sampleVR itemBuffer 24 false 24 = Panic k /\
       parseDataElement sampleTag sampleVR itemBuffer 0 false 24 = Panic k)) /\
  ((exists rest,
       parseDataElement sampleTag sampleVR sqBuffer 28 true 28 = Val rest /\
       parseDataElement sampleTag sampleVR sqBuffer 0 true 28 =
       Val (sqElement :: rest)) \/
   (exists k,
       parseDataElement sampleTag sampleVR sqBuffer 28 true 28 = Panic k /\
       parseDataElement sampleTag sampleVR sqBuffer 0 true 28 = Panic k)).
Proof.
  split.
  - refine (proj1 (proj2 (proj1 (container_recursion_mode sampleTag sampleVR
                     itemBuffer 0 false 24 itemTag itemHeader (16, false)
                     _ _ _ _ _) _)) [itemChild] _);
      vm_compute; first [reflexivity | discriminate].
  - refine (proj1 (proj2 (proj2 (container_recursion_mode sampleTag sampleVR
                     sqBuffer 0 true 28 sqTag sqHeader (16, false)
                     _ _ _ _ _) _ _)) [sqChild] _);
      vm_compute; first [reflexivity | discriminate].
Defined.

(** C4, counterexample. The pixel-data element of [pixelBuffer] is decoded
    with its four value bytes stored in [Data]. *)
Lemma pixel_data_value_not_empty :
  ProcessFile sampleTag sampleVR pixelBuffer 0 true = Val [pixelElement] /\
  TagStr pixelElement = "7FE00010" /\
  Data pixelElement <> [].
Proof.
  split; [vm_compute; reflexivity|].
  split; [reflexivity | discriminate].
Qed.

Lemma pixel_data_stored_witness :
  iteration sampleTag sampleVR
            (parseDataElement sampleTag sampleVR pixelBuffer)
            pixelBuffer 0 true 16 = Val (pixelElement, 16) /\
  iteration sampleTag sampleVR
            (parseDataElement sampleTag sampleVR encapsulatedBuffer)
            encapsulatedBuffer 0 true 24 = Val (encapsulatedElement, 24).
Proof.
  split.
  - refine (proj1 (proj1 (proj2 (pixel_data_stored sampleTag sampleVR _
                     pixelBuffer 0 true 16 pixelTag pixelHeader (4, false)
                     _ _ _ _ _)) _));
      vm_compute; first [reflexivity | discriminate].
  - refine (proj1 (proj1 (proj2 (pixel_data_stored sampleTag sampleVR _
                     encapsulatedBuffer 0 true 24 pixelTag encapsulatedHeader
                     (4, true) _ _ _ _ _)) _));
      vm_compute; first [reflexivity | discriminate].
Defined.

Lemma length_field_resolution_witness :
  readLength sampleVR undefBuffer 4 false 20 = Val undefHeader /\
  readLength sampleVR sqBuffer 4 true 28 = Val sqHeader /\
  (readLength sampleVR uidBuffer 4 true 16 =
   Val (mkHeader ["U"; "I"]%byte "UI" "UI" 8 8) /\
   8 < 2 ^ 16).
Proof.
  split; [|split].
  - refine (proj1 (length_field_resolution sampleVR undefBuffer 4 20 _) _);
      vm_compute; discriminate.
  - refine (proj1 (proj2 (length_field_resolution sampleVR sqBuffer 4 28 _)
                         "SQ" _ _) _ _).
    + vm_compute; discriminate.
    + reflexivity.
    + eexists. vm_compute. reflexivity.
    + simpl. tauto.
    + vm_compute; discriminate.
  - refine (proj2 (proj2 (length_field_resolution sampleVR uidBuffer 4 16 _)
                         "UI" _ _) _ _).
    + vm_compute; discriminate.
    + reflexivity.
    + eexists. vm_compute. reflexivity.
    + intros H. apply longForm_In in H. discriminate H.
    + vm_compute; discriminate.
Defined.

Lemma unknown_VR_policy_witness :
  (exists de,
      VR de = [x00; x00] /\ VRStr de = "00" /\ Len de = 2 /\
      Data de = ["A"; "B"]%byte /\
      parseDataElement sampleTag sampleVR uidThenBlankBuffer 0 true 26 =
      Val ([uidElement] ++ [de])) /\
  parseDataElement sampleTag sampleVR uidThenUnknownBuffer 0 true 26 =
  Val [uidElement].
Proof.
  assert (Hblank : reaches sampleTag sampleVR uidThenBlankBuffer true 26
                           0 [uidElement] 16).
  { apply reaches_step with (n' := 16);
      [vm_compute; reflexivity | vm_compute; reflexivity | apply reaches_here]. }
  assert (Hunknown : reaches sampleTag sampleVR uidThenUnknownBuffer true 26
                             0 [uidElement] 16).
  { apply reaches_step with (n' := 16);
      [vm_compute; reflexivity | vm_compute; reflexivity | apply reaches_here]. }
  split.
  - destruct (proj1 (unknown_VR_policy sampleTag sampleVR uidThenBlankBuffer
                       16 26 ltac:(lia) ltac:(vm_compute; discriminate)
                       ltac:(vm_compute; reflexivity)
                       ltac:(vm_compute; reflexivity))
                    ltac:(vm_compute; reflexivity)
                    ltac:(vm_compute; discriminate)
                    ltac:(intros H; vm_compute in H; discriminate H))
      as (de & _ & Hk & HVR & HVRStr & HLen & HData & _ & Hreach).
    exists de.
    assert (Ek : Val "00080018" = Val (TagStr de)) by exact Hk.
    injection Ek as Ek. rewrite <- Ek in HData.
    split; [exact HVR|]. split; [exact HVRStr|]. split; [exact HLen|].
    split; [exact HData|].
    apply (Hreach 0 [uidElement] [] Hblank). vm_compute. reflexivity.
  - refine (proj2 (proj2 (proj2 (unknown_VR_policy sampleTag sampleVR
                     uidThenUnknownBuffer 16 26 _ _ _ _) _ _))
                  0 [uidElement] Hunknown);
      vm_compute; first [reflexivity | discriminate].
Defined.

(** C2, counterexample. Decoding [undefBuffer] with limit 10: the scan
    starts at offset 8 and reaches the limit without meeting a delimiter,
    yet the result is not the (empty) sequence decoded so far: the scan goes
    on to the delimiter at offset 12 and the element is decoded. *)
Lemma scan_passes_limit :
  (forall q, 8 <= q < 10 -> ~ delimiterAt undefBuffer "00080018" q) /\
  parseDataElement sampleTag sampleVR undefBuffer 0 false 10 =
  Val [undefElement] /\
  [undefElement] <> [].
Proof.
  split; [|split].
  - intros q Hq. assert (Hc : q = 8 \/ q = 9) by lia.
    destruct Hc as [-> | ->]; unfold delimiterAt; vm_compute;
      intros [[_ H] | H]; discriminate H.
  - vm_compute. reflexivity.
  - discriminate.
Qed.

Lemma undefined_length_closure_witness :
  resolveLength undefBuffer "00080018" undefHeader = Val (12 - 8, true) /\
  iteration sampleTag sampleVR
            (parseDataElement sampleTag sampleVR undefBuffer)
            undefBuffer 0 false 20 =
  Val (undefElement, 12 + 8).
Proof.
  apply (undefined_length_closure sampleTag sampleVR _ undefBuffer 0 false 20
                                  undefTag undefHeader 12).
  - vm_compute. reflexivity.
  - vm_compute. reflexivity.
  - reflexivity.
  - vm_compute. discriminate.
  - right. vm_compute. reflexivity.
  - intros q Hq. assert (Hc : q = 8 \/ q = 9 \/ q = 10 \/ q = 11) by (simpl in Hq; lia).
    destruct Hc as [-> | [-> | [-> | ->]]]; unfold delimiterAt; vm_compute;
      intros [[_ H] | H]; discriminate H.
  - vm_compute. discriminate.
  - right. vm_compute. reflexivity.
  - vm_compute. reflexivity.
Defined.

Example decode_blankVRBuffer :
  ProcessFile sampleTag sampleVR blankVRBuffer 0 true =
  Val [mkDataElement 0 [x08; x00] [x18; x00] "00080018" "SOPInstanceUID"
                     [x00; x00] "00" 0 2 ["A"; "B"]%byte false] /\
  ProcessFile sampleTag sampleVR unknownVRBuffer 0 true = Val [].
Proof. split; vm_compute; reflexivity. Qed.

(** ** Truncated buffers *)

(** The outcome of decoding the first [k] bytes of [undefBuffer], for every
    [k] from 0 to its length: twelve of the truncations end in a panic. *)
Example truncations_of_undefBuffer :
  map (fun k => ProcessFile sampleTag sampleVR (truncated k undefBuffer) 0 false)
      (seq 0 21) =
  repeat (Val []) 4 ++ repeat (Panic OutOfRange) 12 ++
  repeat (Val [undefElement]) 5.
Proof. vm_compute. reflexivity. Qed.

(** A slice whose backing array is longer than the slice: the decoder
    finds the sequence delimiter at offset 9, three bytes of which lie
    beyond the length of the buffer. *)
Example scan_reads_spare_capacity :
  ProcessFile sampleTag sampleVR
              (Buffer [x08; x00; x18; x00; xff; xff; xff; xff; "A"; xfe]%byte
                      [xff; xdd; xe0])
              0 false =
  Val [mkDataElement 0 [x08; x00] [x18; x00] "00080018" "SOPInstanceUID"
                     [] "" 0 1 ["A"]%byte false].
Proof. vm_compute. reflexivity. Qed.

(** C1. [undefBuffer] decodes to one element.  Its first 13 bytes end
    inside the delimiter: the scan slices [bytes[10:14]] past the end of the
    buffer and the decoder panics, instead of returning the empty prefix of
    the full decode.  In explicit mode the first 4 bytes of [uidBuffer] make
    the VR read [bytes[4:6]] panic in the same way. *)
Theorem truncated_buffer_panics :
  ProcessFile sampleTag sampleVR undefBuffer 0 false = Val [undefElement] /\
  ProcessFile sampleTag sampleVR (truncated 13 undefBuffer) 0 false =
  Panic OutOfRange /\
  ProcessFile sampleTag sampleVR (truncated 4 uidBuffer) 0 true =
  Panic OutOfRange.
Proof. repeat split; vm_compute; reflexivity. Qed.

(** ** The formatter on concrete elements *)

Example render_uidElement :
  stringData sampleVR sampleTS uidElement = Val "1.2.3.4" /\
  DataElement_String sampleTag sampleVR sampleTS uidElement =
  Val "0000 (00080018) UI 0 8 SOPInstanceUID 1.2.3.4".
Proof. split; vm_compute; reflexivity. Qed.

(** C9, counterexample. A US value of five bytes renders as "1 258 ", with
    a space after the last token, not as the space-joined tokens "1 258";
    and the Transfer-Syntax-UID element, whose VR UI is padded text, renders
    as its text followed by the name of the transfer syntax. *)
Lemma rendering_not_by_VR_class_alone :
  (fixedVR sampleVR "US" 2 /\
   stringData sampleVR sampleTS usElement = Val "1 258 " /\
   spaceJoined (tokens 2 (Data usElement)) = "1 258" /\
   stringData sampleVR sampleTS usElement <>
   Val (spaceJoined (tokens 2 (Data usElement)))) /\
  (paddedVR sampleVR "UI" /\
   Data tsElement =
   list_byte_of_string "1.2.840.10008.1.2" ++ [x00] /\
   stringData sampleVR sampleTS tsElement =
   Val "1.2.840.10008.1.2 Implicit VR Little Endian" /\
   stringData sampleVR sampleTS tsElement <> Val "1.2.840.10008.1.2").
Proof.
  split.
  - split; [split; vm_compute; reflexivity|].
    split; [vm_compute; reflexivity|].
    split; [vm_compute; reflexivity|].
    vm_compute. discriminate.
  - split; [split; [right|]; vm_compute; reflexivity|].
    split; [vm_compute; reflexivity|].
    split; [vm_compute; reflexivity|].
    vm_compute. discriminate.
Qed.

Lemma value_rendering_witness :
  stringData sampleVR sampleTS usElement =
  Val (spaced (tokens 2 (Data usElement))) /\
  stringData sampleVR sampleTS uidElement =
  Val (gostring (list_byte_of_string "1.2.3.4")).
Proof.
  split.
  - refine (proj1 (value_rendering sampleVR sampleTS usElement _) 2%nat _ _).
    + vm_compute. reflexivity.
    + split; vm_compute; reflexivity.
    + right; left; reflexivity.
  - refine (proj1 (proj1 (proj2 (proj2 (value_rendering sampleVR sampleTS
                                           uidElement _))) _) _ _).
    + vm_compute. reflexivity.
    + split; [right|]; vm_compute; reflexivity.
    + vm_compute. reflexivity.
Defined.

Lemma sampleVR_typed : VR_typed sampleVR.
Proof.
  intros vr. unfold lookup2.
  destruct (sampleVR !! vr) as [e|] eqn:E.
  2:{ repeat split; intros; discriminate. }
  apply elem_of_list_to_map_2 in E.
  repeat (apply elem_of_cons in E; destruct E as [E | E];
          [inversion E; subst; clear E;
           repeat split;
           [ intros v Hv; vm_compute in Hv; inversion Hv; eauto
           | intros Hv; vm_compute in Hv; try discriminate Hv;
             eexists; vm_compute; reflexivity
           | intros v Hv; vm_compute in Hv; inversion Hv; eauto ]
          |]).
  apply elem_of_nil in E. contradiction.
Qed.

Lemma sampleTS_typed : TS_typed sampleTS.
Proof.
  intros k e E. apply elem_of_list_to_map_2 in E.
  apply elem_of_cons in E. destruct E as [E | E].
  - inversion E; subst. eexists. vm_compute. reflexivity.
  - apply elem_of_nil in E. contradiction.
Qed.

Lemma stringData_in_bounds_witness :
  (stringData sampleVR sampleTS tsElement <> Panic OutOfRange /\
   StringData sampleVR sampleTS tsElement <> Panic OutOfRange /\
   DataElement_String sampleTag sampleVR sampleTS tsElement <>
   Panic OutOfRange) /\
  (exists s, stringData sampleVR sampleTS tsElement = Val s) /\
  (exists s, StringData sampleVR sampleTS tsElement = Val s) /\
  (exists s, DataElement_String sampleTag sampleVR sampleTS tsElement = Val s).
Proof.
  assert (Hd : Data tsElement <> []) by (vm_compute; discriminate).
  split.
  - exact (proj1 (stringData_in_bounds sampleTag sampleVR sampleTS tsElement Hd)).
  - exact (proj2 (stringData_in_bounds sampleTag sampleVR sampleTS tsElement Hd)
                 sampleVR_typed sampleTS_typed).
Defined.

(** Without the precondition: an empty value under a padded-text VR makes
    the final-byte test [Data[len(Data)-1]] panic. *)
Example stringData_empty_padded :
  stringData sampleVR sampleTS
             (mkDataElement 0 [] [] "00080018" "" [] "UI" 0 0 [] false) =
  Panic OutOfRange.
Proof. vm_compute. reflexivity. Qed.

(** ** Concrete evaluations for the further properties *)

Example decode_twoUidBuffer :
  parseDataElement sampleTag sampleVR twoUidBuffer 0 true 32 =
  Val [uidElement; uidElement2].
Proof. vm_compute. reflexivity. Qed.

Example decode_zeroLenBuffer :
  parseDataElement sampleTag sampleVR zeroLenBuffer 0 true 8 =
  Val [zeroLenElement].
Proof. vm_compute. reflexivity. Qed.

Example encode_rawUid : encodeElement true rawUid = visible uidBuffer.
Proof. vm_compute. reflexivity. Qed.

Lemma paddedVR_UI : paddedVR sampleVR "UI".
Proof.
  split; [right|]; vm_compute; reflexivity.
Qed.

Lemma LookupElement_sound_witness :
  In uidElement (Elements (mkDicomFile [uidElement] "a.dcm")) /\
  (TagStr uidElement = "00080018" \/ Name uidElement = "00080018").
Proof.
  apply (LookupElement_sound (mkDicomFile [uidElement] "a.dcm") "00080018"
                             uidElement).
  vm_compute. reflexivity.
Defined.

Lemma LookupElement_tag_first_witness :
  LookupElement (mkDicomFile [sqElement; uidElement2; uidElement] "a.dcm")
                "00080018" = inl uidElement2.
Proof.
  apply (LookupElement_tag_first
           (mkDicomFile [sqElement; uidElement2; uidElement] "a.dcm")
           "00080018" [sqElement] [uidElement] uidElement2).
  - reflexivity.
  - reflexivity.
  - intros x [<- | []]. vm_compute. discriminate.
Defined.

Lemma LookupElement_name_fallback_witness :
  LookupElement (mkDicomFile [sqElement; uidElement] "a.dcm")
                "SOPInstanceUID" = inl uidElement.
Proof.
  apply (LookupElement_name_fallback
           (mkDicomFile [sqElement; uidElement] "a.dcm")
           "SOPInstanceUID" [sqElement] [] uidElement).
  - intros x [<- | [<- | []]]; vm_compute; discriminate.
  - reflexivity.
  - reflexivity.
  - intros x [<- | []]. vm_compute. discriminate.
Defined.

Lemma tagString_roundtrip_witness :
  parseHex "00080018" 0 =
  65536 * le_value [x08; x00] + le_value [x18; x00].
Proof.
  apply (tagString_roundtrip x08 x00 x18 x00 [] "00080018").
  vm_compute. reflexivity.
Defined.

Lemma decoded_elements_in_stream_order_witness :
  (forall x, In x [uidElement; uidElement2] ->
             0 <= N x /\ N x + 4 <= len twoUidBuffer /\ N x + 4 <= 32 /\
             valueEnd x <= cap twoUidBuffer) /\
  (forall pre x mid y post,
      [uidElement; uidElement2] = pre ++ x :: mid ++ y :: post ->
      valueEnd x <= N y).
Proof.
  apply (decoded_elements_in_stream_order sampleTag sampleVR twoUidBuffer 0
                                          true 32).
  vm_compute. reflexivity.
Defined.

Lemma leaf_value_is_buffer_view_witness :
  Data uidElement =
    sub (valueStart uidElement) (valueEnd uidElement) (backing uidBuffer) /\
  0 <= valueStart uidElement /\
  valueStart uidElement <= valueEnd uidElement /\
  valueEnd uidElement <= cap uidBuffer.
Proof.
  apply (leaf_value_is_buffer_view sampleTag sampleVR uidBuffer 0 true 16
                                   [uidElement]).
  - vm_compute. reflexivity.
  - left. reflexivity.
  - vm_compute. discriminate.
  - vm_compute. discriminate.
Defined.

Lemma decoded_element_fields_witness :
  TagGroup uidElement2 =
    sub (N uidElement2) (N uidElement2 + 2) (backing twoUidBuffer) /\
  TagElem uidElement2 =
    sub (N uidElement2 + 2) (N uidElement2 + 4) (backing twoUidBuffer) /\
  tagString (TagGroup uidElement2 ++ TagElem uidElement2) =
    Val (TagStr uidElement2) /\
  String.length (TagStr uidElement2) = 8%nat /\
  VRLen uidElement2 = 0 /\ PartOfSQ uidElement2 = false.
Proof.
  apply (decoded_element_fields sampleTag sampleVR twoUidBuffer 0 true 32
                                [uidElement; uidElement2]).
  - vm_compute. reflexivity.
  - right. left. reflexivity.
Defined.

Lemma decoded_VR_by_mode_witness :
  (VR uidElement = sub (N uidElement + 4) (N uidElement + 6)
                       (backing uidBuffer) /\
   ((VRStr uidElement = gostring (VR uidElement) /\
     is_Some (sampleVR !! VRStr uidElement)) \/
    (VR uidElement = [x00; x00] /\ VRStr uidElement = "00" /\
     sampleVR !! gostring (VR uidElement) = None)) /\
   (longForm (VRStr uidElement) = false -> Len uidElement < 65536)) /\
  (VR sqChild = [] /\ VRStr sqChild = "").
Proof.
  split.
  - apply (decoded_VR_by_mode sampleTag sampleVR uidBuffer 0 true 16
                              [uidElement] uidElement).
    + vm_compute. reflexivity.
    + left. reflexivity.
  - apply (decoded_VR_by_mode sampleTag sampleVR sqBuffer 12 false 28
                              [sqChild] sqChild).
    + vm_compute. reflexivity.
    + left. reflexivity.
Defined.

Lemma decoded_name_resolution_witness :
  Name uidElement = match sampleTag !! TagStr uidElement with
                    | Some e => default "" (e !! "name")
                    | None => ""
                    end /\
  Name sqElement = match sampleTag !! TagStr sqElement with
                   | Some e => default "" (e !! "name")
                   | None => ""
                   end.
Proof.
  split.
  - apply (decoded_name_resolution sampleTag sampleVR uidBuffer 0 true 16
                                   [uidElement]).
    + vm_compute. reflexivity.
    + left. reflexivity.
  - apply (decoded_name_resolution sampleTag sampleVR sqBuffer 0 true 28
                                   [sqElement]).
    + vm_compute. reflexivity.
    + left. reflexivity.
Defined.


Lemma decoded_element_count_witness :
  ([uidElement; uidElement2] <> [] ->
   0 + 8 * Z.of_nat (length [uidElement; uidElement2]) <=
   len twoUidBuffer + 4) /\
  (len twoUidBuffer < 0 + 4 \/ 32 < 0 + 4 ->
   [uidElement; uidElement2] = []).
Proof.
  apply (decoded_element_count sampleTag sampleVR twoUidBuffer 0 true 32).
  vm_compute. reflexivity.
Defined.

Lemma LookupElement_decoded_witness :
  exists e,
    LookupElement (mkDicomFile [uidElement; uidElement2] "a.dcm")
                  (TagStr uidElement2) = inl e /\
    In e [uidElement; uidElement2] /\
    TagStr e = TagStr uidElement2 /\
    forall x, In x [uidElement; uidElement2] ->
              TagStr x = TagStr uidElement2 -> N e <= N x.
Proof.
  apply (LookupElement_decoded sampleTag sampleVR twoUidBuffer 0 true 32).
  - vm_compute. reflexivity.
  - right. left. reflexivity.
Defined.

Lemma stringData_empty_value_witness :
  (TagStr zeroLenElement = "00020010" ->
   stringData sampleVR sampleTS zeroLenElement = Panic OutOfRange) /\
  (TagStr zeroLenElement <> "00020010" ->
   (paddedVR sampleVR (VRStr zeroLenElement) ->
    stringData sampleVR sampleTS zeroLenElement = Panic OutOfRange) /\
   (forall w, fixedVR sampleVR (VRStr zeroLenElement) w ->
              stringData sampleVR sampleTS zeroLenElement = Val "") /\
   (plainVR sampleVR (VRStr zeroLenElement) ->
    stringData sampleVR sampleTS zeroLenElement = Val "")).
Proof.
  apply (stringData_empty_value sampleVR sampleTS zeroLenElement).
  reflexivity.
Defined.

Lemma decoded_zero_length_display_witness :
  Data zeroLenElement = [] /\
  StringData sampleVR sampleTS zeroLenElement = Panic OutOfRange /\
  DataElement_String sampleTag sampleVR sampleTS zeroLenElement =
    Panic OutOfRange.
Proof.
  apply (decoded_zero_length_display sampleTag sampleVR sampleTS
                                     zeroLenBuffer 0 true 8 [zeroLenElement]).
  - vm_compute. reflexivity.
  - left. reflexivity.
  - reflexivity.
  - right. exact paddedVR_UI.
Defined.

Lemma decoded_leaf_display_witness :
  StringData sampleVR sampleTS uidElement <> Panic OutOfRange /\
  DataElement_String sampleTag sampleVR sampleTS uidElement <>
    Panic OutOfRange /\
  (VR_typed sampleVR -> TS_typed sampleTS ->
   (exists s, StringData sampleVR sampleTS uidElement = Val s) /\
   (exists s, DataElement_String sampleTag sampleVR sampleTS uidElement =
              Val s)).
Proof.
  apply (decoded_leaf_display sampleTag sampleVR sampleTS uidBuffer 0 true 16
                              [uidElement]).
  - vm_compute. reflexivity.
  - left. reflexivity.
  - vm_compute. discriminate.
  - vm_compute. discriminate.
  - vm_compute. reflexivity.
Defined.

Lemma transfer_syntax_rendering_witness :
  stringData sampleVR sampleTS tsElement =
  Val "1.2.840.10008.1.2 Implicit VR Little Endian".
Proof.
  refine (proj1 (transfer_syntax_rendering sampleVR sampleTS tsElement
                   ["1"; "."; "2"; "."; "8"; "4"; "0"; "."; "1"; "0"; "0";
                    "0"; "8"; "."; "1"; "."; "2"]%byte x00 _ _)
                (entry [("name", IString "Implicit VR Little Endian")])
                "Implicit VR Little Endian" _ _).
  - reflexivity.
  - reflexivity.
  - vm_compute. reflexivity.
  - vm_compute. reflexivity.
Defined.

Lemma parseSQDataElements_returns_past_len_witness :
  parseSQDataElements 1 zeroLenBuffer 6 true = Val 6 /\
  (forall v, parseSQDataElements 2 delimiterSpareBuffer 0 true = Val v ->
             len delimiterSpareBuffer < v <= cap delimiterSpareBuffer) /\
  parseSQDataElements 2 delimiterSpareBuffer 0 true = Val (8 + 4).
Proof.
  split; [|split].
  - apply (proj1 (parseSQDataElements_returns_past_len 0 zeroLenBuffer 6
                                                       true)).
    vm_compute. reflexivity.
  - apply (proj1 (proj2 (parseSQDataElements_returns_past_len
                           2 delimiterSpareBuffer 0 true))).
    vm_compute. discriminate.
  - apply (proj2 (proj2 (parseSQDataElements_returns_past_len
                           0 delimiterSpareBuffer 0 true))).
    + lia.
    + vm_compute. discriminate.
    + vm_compute. split; discriminate.
    + vm_compute. split; [reflexivity | discriminate].
    + reflexivity.
    + intros q Hq.
      assert (Hc : q = 4 \/ q = 5 \/ q = 6 \/ q = 7) by lia.
      destruct Hc as [-> | [-> | [-> | ->]]]; vm_compute; discriminate.
Defined.

Lemma parseSQDataElements_panics_without_spare_witness :
  parseSQDataElements 17 uidBuffer 0 true = Panic OutOfRange.
Proof.
  apply parseSQDataElements_panics_without_spare.
  - reflexivity.
  - vm_compute. discriminate.
  - vm_compute. lia.
Defined.

Lemma parseSQDataElements_diverges_witness :
  parseSQDataElements 100 spareBuffer 0 true = OutOfFuel.
Proof.
  apply (parseSQDataElements_diverges 100 spareBuffer 0 true).
  - lia.
  - vm_compute. discriminate.
  - vm_compute. discriminate.
  - intros q Hq. change (len spareBuffer) with 8 in Hq.
    assert (Hc : q = 4 \/ q = 5 \/ q = 6 \/ q = 7 \/ q = 8) by lia.
    destruct Hc as [-> | [-> | [-> | [-> | ->]]]]; vm_compute; discriminate.
Defined.

Lemma decode_encode_roundtrip_witness :
  parseDataElement sampleTag sampleVR uidBuffer (Z.of_nat (length (@nil byte)))
                   true 16 =
  Val (decodedAll sampleTag true (Z.of_nat (length (@nil byte))) [rawUid]).
Proof.
  apply (decode_encode_roundtrip sampleTag sampleVR true 16 [rawUid]
                                 uidBuffer []).
  - constructor; [|constructor].
    split; [reflexivity|]. split; [vm_compute; discriminate|].
    split; [vm_compute; reflexivity|]. intros _.
    split; [reflexivity|]. split; [vm_compute; eauto|].
    split; [vm_compute; discriminate|]. intros _. vm_compute. reflexivity.
  - vm_compute. reflexivity.
  - vm_compute. discriminate.
Defined.

Lemma formatter_failure_modes_witness :
  ((exists s, stringData sampleVR sampleTS zeroLenElement = Val s) \/
   (Data zeroLenElement = [] /\
    stringData sampleVR sampleTS zeroLenElement = Panic OutOfRange)) /\
  ((exists s, DataElement_String sampleTag sampleVR sampleTS zeroLenElement =
              Val s) \/
   (Data zeroLenElement = [] /\
    DataElement_String sampleTag sampleVR sampleTS zeroLenElement =
    Panic OutOfRange)).
Proof.
  apply (formatter_failure_modes sampleTag sampleVR sampleTS zeroLenElement
                                 sampleVR_typed sampleTS_typed).
Defined.
